(** * ASFEniCSx: sample container and active-subspace engine

    A shallow embedding of [ASFEniCSx/sampling.py] (class [sampling]) and
    [ASFEniCSx/asfenicsx.py] (class [ASFEniCSx]), with the properties of the
    specification stated and settled against it.

    Conventions of the embedding.
    - A float64 is read as the rational number it denotes ([Qc], rationals in
      lowest terms, with Leibniz equality); arithmetic is exact, rounding and
      the special values nan and inf are not represented.  The one question
      here that rounding decides, whether [covariance] depends on the order
      of the rows, is settled on binary64 numbers (module [float64]).
    - A 1-D array is a list of scalars, a 2-D array a list of rows.  The row
      count is the length of the list; the column count of an array with no
      row is not represented (the constructor asserts [M > 0]).
    - Python integers ([M], [m], indices, [n], [M_boot]) are [Z].
    - A missing attribute ([hasattr] false) is [None].
    - An exception is a value of [exn]; a method returns [result].
    - Random draws are arguments: the array that numpy's generator returned.
    - LAPACK's symmetric eigensolver, the spectral norm and numpy's argsort
      are operations of the class [Numpy], known through their contracts. *)

From Stdlib Require Import PrimFloat SpecFloat FloatOps.
From Stdlib Require Import QArith Qcanon Qcabs ZArith Lia List Permutation Sorted.
From stdpp Require Import base option list strings gmap sorting.

Local Open Scope Z_scope.

(** ** Scalars *)

Abbreviation F := Qc.

Definition f0 : F := Q2Qc 0.
Definition f1 : F := Q2Qc 1.
Definition of_Z (z : Z) : F := Q2Qc (inject_Z z).

Definition feqb (x y : F) : bool := Qeq_bool x y.
Definition fleb (x y : F) : bool := Qle_bool x y.
Definition fltb (x y : F) : bool := negb (Qle_bool y x).

(** [np.sign]: -1, 0 or 1. *)
Definition sign (x : F) : F :=
  if fltb f0 x then f1 else if fltb x f0 then Qcopp f1 else f0.

Definition fmax (x y : F) : F := if fleb x y then y else x.
Definition fmin (x y : F) : F := if fleb x y then x else y.

(** ** Exceptions and results *)

Inductive exn : Type :=
  | AssertionError (msg : string)
  | AttributeError (msg : string)
  | TypeError (msg : string)
  | ValueError (msg : string)
  | IndexError (msg : string)
  | KeyError (key : string)
  | LinAlgError (msg : string).

Inductive result (A : Type) : Type :=
  | Ok (a : A)
  | Raise (e : exn).
Arguments Ok {A} a.
Arguments Raise {A} e.

Definition result_bind {A B : Type} (f : A → result B) (r : result A) : result B :=
  match r with
  | Ok a => f a
  | Raise e => Raise e
  end.

#[global] Instance result_ret : MRet result := @Ok.
#[global] Instance result_mbind : MBind result := @result_bind.

(** [assert c, msg] *)
Definition assert (c : bool) (msg : string) : result unit :=
  if c then Ok tt else Raise (AssertionError msg).

(** [raise("...")]: the operand is a [str], not an exception, and Python
    raises [TypeError] in its place. *)
Definition raise_str {A : Type} (msg : string) : result A :=
  Raise (TypeError "exceptions must derive from BaseException").

(** A [for] loop whose body may raise, threading the loop state. *)
Fixpoint for_each {S X : Type} (xs : list X) (body : X → S → result S) (s : S)
  : result S :=
  match xs with
  | [] => Ok s
  | x :: xs' => s' ← body x s; for_each xs' body s'
  end.

(** [range(n)] *)
Definition range (n : Z) : list nat := seq 0 (Z.to_nat n).

(** ** Arrays by value *)

Abbreviation vec := (list F).
Abbreviation mat := (list (list F)).

Definition len {A : Type} (l : list A) : Z := Z.of_nat (length l).

(** [a.shape == (r, c)] for a 2-D array, [v.shape == (n,)] for a 1-D one. *)
Definition shape2 (a : mat) (r c : Z) : bool :=
  (len a =? r) && forallb (λ row, len row =? c) a.
Definition shape1 (v : vec) (n : Z) : bool := len v =? n.

(** [np.zeros(n)] and [np.zeros([r, c])] *)
Definition zeros1 (n : Z) : result vec :=
  if n <? 0 then Raise (ValueError "negative dimensions are not allowed")
  else Ok (replicate (Z.to_nat n) f0).
Definition zeros2 (r c : Z) : result mat :=
  if (r <? 0) || (c <? 0) then Raise (ValueError "negative dimensions are not allowed")
  else Ok (replicate (Z.to_nat r) (replicate (Z.to_nat c) f0)).

(** [a[i]] for an index known to be non-negative. *)
Definition item {A : Type} (l : list A) (i : nat) : result A :=
  match l !! i with
  | Some x => Ok x
  | None => Raise (IndexError "index out of bounds")
  end.

(** [a[i] = x] for an index known to be non-negative. *)
Definition setitem {A : Type} (l : list A) (i : nat) (x : A) : result (list A) :=
  if bool_decide (i < length l)%nat then Ok (<[i:=x]> l)
  else Raise (IndexError "index out of bounds").

(** [a[j, i] = x] *)
Definition setitem2 (a : mat) (j i : nat) (x : F) : result mat :=
  row ← item a j;
  row' ← setitem row i x;
  setitem a j row'.

(** [a[idx]] with an integer index array (fancy indexing). *)
Fixpoint gather {A : Type} (l : list A) (idx : list nat) : result (list A) :=
  match idx with
  | [] => Ok []
  | i :: idx' => x ← item l i; xs ← gather l idx'; Ok (x :: xs)
  end.

(** [a[:, idx]] *)
Fixpoint gather_cols (a : mat) (idx : list nat) : result mat :=
  match a with
  | [] => Ok []
  | row :: a' => r ← gather row idx; rs ← gather_cols a' idx; Ok (r :: rs)
  end.

(** The bounds of the slices [l[:n]] and [l[n:]]: a negative [n] counts from
    the end, and the bound is clipped to the length. *)
Definition slice_bound (length n : Z) : nat :=
  Z.to_nat (if n <? 0 then Z.max 0 (length + n) else Z.min n length).

Definition slice_to {A : Type} (n : Z) (l : list A) : list A :=
  take (slice_bound (len l) n) l.
Definition slice_from {A : Type} (n : Z) (l : list A) : list A :=
  drop (slice_bound (len l) n) l.

(** [a[:, :n]] and [a[:, n:]] *)
Definition cols_to (n : Z) (a : mat) : mat := map (slice_to n) a.
Definition cols_from (n : Z) (a : mat) : mat := map (slice_from n) a.

(** [np.hstack((a, b))] for two arrays with the same number of rows. *)
Definition hstack (a b : mat) : mat := zip_with app a b.

(** [np.outer(u, v)] *)
Definition outer (u v : vec) : mat := map (λ x, map (Qcmult x) v) u.

(** Broadcasting of a 1-D operand to length [c], and of a 2-D operand to
    shape [(r, c)]: an axis of length 1 is repeated. *)
Definition broadcast1 {A : Type} (c : nat) (v : list A) : result (list A) :=
  if bool_decide (length v = c) then Ok v
  else match v with
       | [x] => Ok (replicate c x)
       | _ => Raise (ValueError "operands could not be broadcast together")
       end.

Fixpoint result_map {A B : Type} (f : A → result B) (l : list A) : result (list B) :=
  match l with
  | [] => Ok []
  | x :: l' => y ← f x; ys ← result_map f l'; Ok (y :: ys)
  end.

Definition broadcast2 (r c : nat) (a : mat) : result mat :=
  rows ← result_map (broadcast1 c) a;
  broadcast1 r rows.

(** [a += b] on an [(r, c)] array [a]. *)
Definition iadd (r c : nat) (a b : mat) : result mat :=
  b' ← broadcast2 r c b;
  Ok (zip_with (zip_with Qcplus) a b').

(** [a / x] *)
Definition divide_by (a : mat) (x : F) : mat :=
  map (map (λ y, Qcdiv y x)) a.

(** [a.T]; the column count is read off the first row. *)
Definition transpose (a : mat) : mat :=
  match a with
  | [] => []
  | row :: _ => map (λ j, map (λ r, nth j r f0) a) (seq 0 (length row))
  end.

Definition vsum (v : vec) : F := fold_left Qcplus v f0.

(** [np.dot(a, b)] for [a] of shape [(r, k)] and [b] of shape [(k, c)]. *)
Definition dot (a b : mat) : result mat :=
  if forallb (λ row, bool_decide (length row = length b)) a
  then Ok (map (λ row, map (λ col, vsum (zip_with Qcmult row col)) (transpose b)) a)
  else Raise (ValueError "shapes not aligned").

(** [a[:, i] = v] *)
Definition setcol (a : mat) (i : nat) (v : vec) : result mat :=
  v' ← broadcast1 (length a) v;
  result_map (λ '(row, x), setitem row i x) (zip a v').

(** [np.max], [np.min] and [np.mean] of one row. *)
Definition amax (v : vec) : result F :=
  match v with
  | [] => Raise (ValueError "zero-size array to reduction operation maximum which has no identity")
  | x :: v' => Ok (fold_left fmax v' x)
  end.
Definition amin (v : vec) : result F :=
  match v with
  | [] => Raise (ValueError "zero-size array to reduction operation minimum which has no identity")
  | x :: v' => Ok (fold_left fmin v' x)
  end.
Definition mean (v : vec) : F := Qcdiv (vsum v) (of_Z (len v)).

(** [np.vstack((a, v))]: the 1-D operand becomes one more row. *)
Definition vstack (a : mat) (v : vec) : result mat :=
  if forallb (λ row, bool_decide (length row = length v)) a then Ok (a ++ [v])
  else Raise (ValueError "all the input array dimensions except for the concatenation axis must match exactly").

(** [a == s] between a 2-D array and a 1-D array of as many entries as [a]
    has columns: the comparison is elementwise, row by row. *)
Definition equal (a : mat) (s : vec) : list (list bool) :=
  map (λ row, zip_with feqb row s) a.

(** [b.any()] *)
Definition any (b : list (list bool)) : bool := existsb (existsb id) b.

(** [np.where(b)[0]]: the row index of every true entry, in row-major order. *)
Definition where_rows (b : list (list bool)) : list nat :=
  concat (imap (λ i row, map (λ _, i) (filter (λ x, x = true) row)) b).

(** ** The persisted record

    [save] passes [self.__dict__] to [json.dump]; [load] receives the
    dictionary read back.  A value of the dictionary is a string, an integer,
    a boolean or an array written as a (nested) list. *)

Inductive jvalue : Type :=
  | JStr (s : string)
  | JInt (z : Z)
  | JBool (b : bool)
  | JArr1 (v : vec)
  | JArr2 (a : mat).

(** Modelled from the spec: [ASFEniCSx.utils.NumpyEncoder] is not among the
    sources; the persistence format is "a structured record with at least the
    keys: sample coordinate array (shape M×m), optional value array (length
    M)", so the encoder writes an array as the nested list of its entries. *)
Definition NumpyEncoder1 (v : vec) : jvalue := JArr1 v.
Definition NumpyEncoder2 (a : mat) : jvalue := JArr2 a.

(** ** class sampling *)

Module sampling.

Record t : Type := mk {
  object_type : string;
  M : Z;
  m : Z;
  _array : option mat;
  _values : option vec;
  _bounds : option mat;
  _debug : bool
}.

Definition set_array (self : t) (a : mat) : t :=
  mk (object_type self) (M self) (m self) (Some a) (_values self)
     (_bounds self) (_debug self).
Definition set_values (self : t) (v : vec) : t :=
  mk (object_type self) (M self) (m self) (_array self) (Some v)
     (_bounds self) (_debug self).
Definition set_M (self : t) (M' : Z) : t :=
  mk (object_type self) M' (m self) (_array self) (_values self)
     (_bounds self) (_debug self).
Definition set_debug (self : t) (d : bool) : t :=
  mk (object_type self) (M self) (m self) (_array self) (_values self)
     (_bounds self) d.

(** [self._array] and [self._values] as expressions. *)
Definition get_array (self : t) : result mat :=
  match _array self with
  | Some a => Ok a
  | None => Raise (AttributeError "'sampling' object has no attribute '_array'")
  end.
Definition get_values (self : t) : result vec :=
  match _values self with
  | Some v => Ok v
  | None => Raise (AttributeError "'sampling' object has no attribute '_values'")
  end.

(** [draw] is the array returned by [np.random.uniform(-1, 1, (M, m))]. *)
Definition random_uniform (self : t) (overwrite : bool) (draw : mat) : result t :=
  if negb (bool_decide (is_Some (_array self))) || overwrite
  then Ok (set_array self draw)
  else Raise (AttributeError "Samples already exist. Use overwrite=True to overwrite them").

Definition __init__ (M m : Z) (debug : bool) (draw : mat) : result t :=
  _ ← assert (0 <? M) "Number of samples must be greater than 0";
  _ ← assert (0 <? m) "Dimension of parameter space must be greater than 0";
  self ← random_uniform (mk "sampling" M m None None None true) false draw;
  Ok (set_debug self debug).

Definition in_bounds (self : t) (index : Z) : bool :=
  (0 <=? index) && (index <? M self).

Definition extract (self : t) (index : Z) : result vec :=
  _ ← assert (in_bounds self index) "Index out of bounds";
  a ← get_array self;
  item a (Z.to_nat index).

Definition replace (self : t) (index : Z) (sample : vec) : result t :=
  _ ← assert (in_bounds self index) "Index out of bounds";
  _ ← assert (shape1 sample (m self)) "Sample has wrong shape";
  a ← get_array self;
  row ← item a (Z.to_nat index);
  sample' ← broadcast1 (length row) sample;
  a' ← setitem a (Z.to_nat index) sample';
  Ok (set_array self a').

(** [draw] is the vector returned by [np.random.uniform(-1, 1, self.m)],
    used when no sample is supplied. *)
Definition add_sample (self : t) (sample : option vec) (draw : vec) : result t :=
  sample' ← match sample with
            | None => Ok draw
            | Some s => _ ← assert (shape1 s (m self)) "Sample has wrong shape"; Ok s
            end;
  a ← get_array self;
  a' ← vstack a sample';
  Ok (set_M (set_array self a') (M self + 1)).

Definition samples (self : t) : result mat := get_array self.

(** [f] is a scalar-valued callable, so [np.apply_along_axis(f, 1, a)]
    is the 1-D array of its values on the rows.  The array takes the type
    of [f]'s first result.  The embedding has float64 arrays only, so it
    describes a value array of that type; when the first result is an
    integer, numpy truncates the later results to integers, which is not
    represented. *)
Definition assign_values (self : t) (f : vec → F) : result t :=
  a ← get_array self;
  Ok (set_values self (map f a)).

(** [self._values[index] = value] stores [value] as it is in a float64
    array, which is what [np.zeros] creates; the truncation of [value] in
    an integer-typed value array is not represented. *)
Definition assign_value (self : t) (index : Z) (value : F) : result t :=
  _ ← assert (in_bounds self index) "Index out of bounds";
  v ← match _values self with
      | Some v => Ok v
      | None => zeros1 (M self)
      end;
  v' ← setitem v (Z.to_nat index) value;
  Ok (set_values self v').

Definition extract_value (self : t) (index : Z) : result F :=
  _ ← assert (in_bounds self index) "Index out of bounds";
  _ ← assert (bool_decide (is_Some (_values self))) "Values have not been assigned yet";
  v ← get_values self;
  item v (Z.to_nat index).

Definition values (self : t) : result vec :=
  _ ← assert (bool_decide (is_Some (_values self))) "Values have not been assigned yet";
  get_values self.

Definition index (self : t) (sample : vec) : result nat :=
  _ ← assert (shape1 sample (m self)) "Sample has wrong shape";
  a ← get_array self;
  _ ← assert (any (equal a sample)) "Sample is not in the sampling array";
  item (where_rows (equal a sample)) 0.

(** [self.__dict__] as [json.dump] writes it to the file. *)
Definition __dict__ (self : t) : gmap string jvalue :=
  let d : gmap string jvalue :=
    <["object_type" := JStr (object_type self)]>
    (<["M" := JInt (M self)]>
    (<["m" := JInt (m self)]>
    (<["_debug" := JBool (_debug self)]> ∅))) in
  let d := match _array self with Some a => <["_array" := NumpyEncoder2 a]> d | None => d end in
  let d := match _values self with Some v => <["_values" := NumpyEncoder1 v]> d | None => d end in
  match _bounds self with Some b => <["_bounds" := NumpyEncoder2 b]> d | None => d end.

(** [save] has no effect on the object; its result here is the record
    that the file holds afterwards. *)
Definition save (self : t) (filename : string) : result (gmap string jvalue) :=
  Ok (__dict__ self).

(** [np.asarray(data["_array"]).shape == (M, m)]: only a list of lists is
    a 2-D array.  The embedding covers the records whose "_array" entry is
    rectangular and whose "_values" entry is a flat list of numbers, as
    [save] writes them.  Outside of these it is not faithful: on a ragged
    "_array" entry [np.asarray] itself raises (here the assertion fails),
    and any other "_values" entry is stored by the code as it is (here a
    [ValueError], the record having no field for it). *)
Definition load (self : t) (data : gmap string jvalue) (overwrite : bool) : result t :=
  j ← match data !! "_array" with
      | Some j => Ok j
      | None => Raise (KeyError "_array")
      end;
  array ← match j with
          | JArr2 a => _ ← assert (shape2 a (M self) (m self)) "Array has wrong shape"; Ok a
          | _ => Raise (AssertionError "Array has wrong shape")
          end;
  if negb (bool_decide (is_Some (_array self))) || overwrite
  then
    let self' := set_array self array in
    match data !! "_values" with
    | Some (JArr1 v) => Ok (set_values self' v)
    | Some _ => Raise (ValueError "value array outside the model")
    | None => Ok self'
    end
  else Raise (AttributeError "Samples already exist. Use overwrite=True to overwrite them").

End sampling.

(** ** External collaborators *)

(** The quantity of interest: [Functional.evaluate] and
    [Functional.gradient]. *)
Class Functional : Type := {
  evaluate : vec → F;
  gradient : vec → sampling.t → vec
}.

(** [np.linalg.eigh], [np.linalg.norm(_, ord=2)] and [ndarray.argsort]. *)
Class Numpy : Type := {
  eigh : mat → result (vec * mat);
  norm2 : mat → F;
  argsort : vec → list nat
}.

(** What the engine relies on: on an [n]×[n] input the eigensolver returns
    [n] eigenvalues and an [n]×[n] array of eigenvectors; [argsort] returns
    a permutation of the positions that puts the entries in ascending
    order. *)
Definition eigh_contract `{Numpy} (n : Z) : Prop :=
  ∀ A : mat, shape2 A n n = true →
    ∃ e W, eigh A = Ok (e, W) ∧ shape1 e n = true ∧ shape2 W n n = true.

Definition argsort_contract `{Numpy} : Prop :=
  ∀ v : vec, Permutation (argsort v) (seq 0 (length v)) ∧
             ∀ xs, gather v (argsort v) = Ok xs → Sorted Qcle xs.

(** ** class ASFEniCSx *)

Module ASFEniCSx.
Section methods.
Context `{Functional} `{Numpy}.

Record t : Type := mk {
  k : Z;
  samples : sampling.t;
  _debug : bool;
  gradients : option mat;
  _eigenvalues : option vec;
  _eigenvectors : option mat;
  W1 : option mat;
  e_boot : option (vec * vec);
  sub_boot : option (vec * vec * vec)
}.

Definition set_gradients (self : t) (g : mat) : t :=
  mk (k self) (samples self) (_debug self) (Some g) (_eigenvalues self)
     (_eigenvectors self) (W1 self) (e_boot self) (sub_boot self).
Definition set_eigenpairs (self : t) (S : vec) (U : mat) : t :=
  mk (k self) (samples self) (_debug self) (gradients self) (Some S)
     (Some U) (W1 self) (e_boot self) (sub_boot self).
Definition set_W1 (self : t) (W : mat) : t :=
  mk (k self) (samples self) (_debug self) (gradients self) (_eigenvalues self)
     (_eigenvectors self) (Some W) (e_boot self) (sub_boot self).
Definition set_boot (self : t) (e : vec * vec) (s : vec * vec * vec) : t :=
  mk (k self) (samples self) (_debug self) (gradients self) (_eigenvalues self)
     (_eigenvectors self) (W1 self) (Some e) (Some s).

(** The names [hasattr] finds: the attributes of the class, which are its
    methods, and the attributes the instance has been given so far. *)
Definition class_attributes : list string :=
  ["eigenvalues"; "evaluate_gradients"; "covariance"; "estimation";
   "partition"; "bootstrap"; "calculate_eigenpairs"; "plot_eigenvalues";
   "plot_subspace"; "plot_sufficient_summary"; "plot_eigenvectors"].

Definition present {A : Type} (name : string) (field : option A) : list string :=
  match field with Some _ => [name] | None => [] end.

Definition instance_attributes (self : t) : list string :=
  ["k"; "function"; "samples"; "_debug"]
  ++ present "gradients" (gradients self)
  ++ present "_eigenvalues" (_eigenvalues self)
  ++ present "_eigenvectors" (_eigenvectors self)
  ++ present "W1" (W1 self)
  ++ present "e_boot" (e_boot self)
  ++ present "sub_boot" (sub_boot self).

Definition hasattr (self : t) (name : string) : bool :=
  bool_decide (name ∈ instance_attributes self ++ class_attributes).

(** [self.<name>] for the attributes that may be missing. *)
Definition getattr {A : Type} (name : string) (field : option A) : result A :=
  match field with
  | Some x => Ok x
  | None => Raise (AttributeError name)
  end.

Definition __init__ (k : Z) (samples : sampling.t) (debug : bool) : result t :=
  _ ← assert (k <=? sampling.m samples)
        "n must be smaller than the number of dimensions of the parameter space";
  Ok (mk k samples debug None None None None None None).

(** [np.copy(self._eigenvalues)] *)
Definition eigenvalues (self : t) : result vec :=
  if negb (hasattr self "eigenvalues")
  then Raise (ValueError "Eigenvalues not calculated yet. Run the random sampling algorithm first.")
  else getattr "_eigenvalues" (_eigenvalues self).

(** The local [gradients] and [self.gradients] are one array, so the
    rescaling loop also updates the attribute. *)
Definition evaluate_gradients (self : t) : result (mat * t) :=
  let s := samples self in
  g ← zeros2 (sampling.M s) (sampling.m s);
  g ← for_each (range (sampling.M s)) (λ i g,
        x ← sampling.extract s (Z.of_nat i);
        row ← item g i;
        v ← broadcast1 (length row) (gradient x s);
        setitem g i v) g;
  g ← match sampling._bounds s with
      | None => Ok g
      | Some b =>
          for_each (range (sampling.M s)) (λ i g,
            for_each (range (sampling.m s)) (λ j g,
              row ← item g i;
              x ← item row j;
              bj ← item b j;
              hi ← item bj 1%nat;
              lo ← item bj 0%nat;
              setitem2 g i j (Qcdiv (Qcmult x (Qcminus hi lo)) (of_Z 2))) g) g
      end;
  Ok (g, set_gradients self g).

Definition covariance (self : t) (gradients : mat) : result mat :=
  let s := samples self in
  let m := Z.to_nat (sampling.m s) in
  c ← zeros2 (sampling.m s) (sampling.m s);
  c ← for_each (range (sampling.M s)) (λ i c,
        g ← item gradients i;
        iadd m m c (outer g g)) c;
  Ok (divide_by c (of_Z (sampling.M s))).

Definition calculate_eigenpairs (matrix : mat) : result (vec * mat) :=
  '(e, W) ← eigh matrix;
  let e := map Qcabs e in
  let idx := rev (argsort e) in
  e ← gather e idx;
  W ← gather_cols W idx;
  row0 ← item W 0%nat;
  let normalization := map (λ x, if feqb x f0 then f1 else x) (map sign row0) in
  let W := map (λ row, zip_with Qcmult row normalization) W in
  Ok (e, W).

Definition estimation (self : t) : result ((mat * vec) * t) :=
  self ← (if negb (hasattr self "gradients")
          then '(_, self') ← evaluate_gradients self; Ok self'
          else Ok self);
  g ← getattr "gradients" (gradients self);
  convariance_matrix ← covariance self g;
  '(S', U) ← calculate_eigenpairs convariance_matrix;
  let self := set_eigenpairs self S' U in
  Ok ((U, S'), self).

Definition partition (self : t) (n : Z) : result ((mat * mat) * t) :=
  if negb (hasattr self "eigenvalues")
  then raise_str "Eigenvalues not calculated yet. Run the random sampling algorithm first."
  else if n >? sampling.m (samples self)
  then raise_str "Dimension of the active subspace must be smaller than the dimension of the parameter space."
  else
    W ← getattr "_eigenvectors" (_eigenvectors self);
    let W1 := cols_to n W in
    let W2 := cols_from n W in
    Ok ((W1, W2), set_W1 self W1).

(** [draws i] is the index array returned by the [i]-th call of
    [np.random.randint(0, M, size=M)]. *)
Definition bootstrap (self : t) (M_boot : Z) (draws : nat → list nat)
  : result (((vec * vec) * (vec * vec * vec)) * t) :=
  self ← (if negb (hasattr self "gradients")
          then '(_, self') ← evaluate_gradients self; Ok self'
          else Ok self);
  self ← (if negb (hasattr self "eigenvalues")
          then '(_, self') ← estimation self; Ok self'
          else Ok self);
  let s := samples self in
  eigenvalues ← zeros2 (sampling.m s) M_boot;
  subspace_distances ← zeros2 (sampling.m s) M_boot;
  '(eigenvalues, subspace_distances) ←
    for_each (range M_boot) (λ i '(eigenvalues, subspace_distances),
      _ ← (if sampling.M s <=? 0 then Raise (ValueError "low >= high") else Ok tt);
      let bootstrap_indices := draws i in
      g ← getattr "gradients" (gradients self);
      bootstrap_replicate ← gather g bootstrap_indices;
      cov ← covariance self bootstrap_replicate;
      '(S', U) ← calculate_eigenpairs cov;
      subspace_distances ←
        for_each (range (sampling.m s - 1)) (λ j subspace_distances,
          W ← getattr "_eigenvectors" (_eigenvectors self);
          d ← dot (transpose (cols_to (Z.of_nat j + 1) W))
                  (cols_from (Z.of_nat j + 1) U);
          setitem2 subspace_distances j i (norm2 d)) subspace_distances;
      eigenvalues ← setcol eigenvalues i S';
      Ok (eigenvalues, subspace_distances)) (eigenvalues, subspace_distances);
  sub_max ← result_map amax subspace_distances;
  sub_min ← result_map amin subspace_distances;
  let sub_mean := map mean subspace_distances in
  e_max ← result_map amax eigenvalues;
  e_min ← result_map amin eigenvalues;
  Ok (((e_max, e_min), (sub_max, sub_min, sub_mean)),
      set_boot self (e_max, e_min) (sub_max, sub_min, sub_mean)).

End methods.
End ASFEniCSx.

(** ** [covariance] on float64

    The embedding above reads a float64 as the rational number it denotes
    and computes exactly.  Whether the result of [covariance] depends on the
    order of the rows is a question about rounding, so here is the method
    once more on IEEE 754 binary64 numbers, with numpy's operations on
    them: every product, sum and quotient is rounded to nearest, ties to
    even. *)

Module float64.

(** The conversion of the integer [self.samples.M] for the division: the
    nearest binary64 number. *)
Definition of_int (n : Z) : float :=
  SF2Prim (binary_normalize prec emax n 0 false).

Definition zeros2 (r c : Z) : result (list (list float)) :=
  if (r <? 0) || (c <? 0) then Raise (ValueError "negative dimensions are not allowed")
  else Ok (replicate (Z.to_nat r) (replicate (Z.to_nat c) 0%float)).

Definition outer (u v : list float) : list (list float) :=
  map (λ x, map (PrimFloat.mul x) v) u.

Definition broadcast2 (r c : nat) (a : list (list float))
  : result (list (list float)) :=
  rows ← result_map (broadcast1 c) a;
  broadcast1 r rows.

Definition iadd (r c : nat) (a b : list (list float)) : result (list (list float)) :=
  b' ← broadcast2 r c b;
  Ok (zip_with (zip_with PrimFloat.add) a b').

Definition divide_by (a : list (list float)) (x : float) : list (list float) :=
  map (map (λ y, PrimFloat.div y x)) a.

Definition covariance (self : ASFEniCSx.t) (gradients : list (list float))
  : result (list (list float)) :=
  let s := ASFEniCSx.samples self in
  let m := Z.to_nat (sampling.m s) in
  c ← zeros2 (sampling.m s) (sampling.m s);
  c ← for_each (range (sampling.M s)) (λ i c,
        g ← item gradients i;
        iadd m m c (outer g g)) c;
  Ok (divide_by c (of_int (sampling.M s))).

End float64.

(** ** Stand-ins for the numerical library, to run the definitions

    [insertion_argsort] is a stable insertion sort of the positions.
    [eigh_diagonal] returns the diagonal and the identity, which is the
    eigendecomposition of a diagonal matrix whose diagonal is ascending;
    [norm_max] returns the largest absolute entry, which is the spectral norm
    of a matrix with at most one non-zero entry. *)

Fixpoint insert_by (v : vec) (i : nat) (l : list nat) : list nat :=
  match l with
  | [] => [i]
  | j :: l' => if fleb (nth i v f0) (nth j v f0) then i :: l else j :: insert_by v i l'
  end.

Definition insertion_argsort (v : vec) : list nat :=
  foldr (insert_by v) [] (seq 0 (length v)).

Definition diagonal (A : mat) : vec := imap (λ i row, nth i row f0) A.

Definition identity (n : nat) : mat :=
  map (λ i, map (λ j, if Nat.eqb i j then f1 else f0) (seq 0 n)) (seq 0 n).

Definition eigh_diagonal (A : mat) : result (vec * mat) :=
  if shape2 A (len A) (len A) then Ok (diagonal A, identity (length A))
  else Raise (LinAlgError "Last 2 dimensions of the array must be square").

Definition norm_max (A : mat) : F :=
  fold_left fmax (map Qcabs (concat A)) f0.

Definition demo_numpy : Numpy :=
  {| eigh := eigh_diagonal; norm2 := norm_max; argsort := insertion_argsort |}.

(** The gradient of [x ↦ x₀² + x₁² + ...], as in the example of the class. *)
Definition demo_functional : Functional :=
  {| evaluate := λ x, vsum (map (λ y, Qcmult y y) x);
     gradient := λ x _, map (λ y, Qcmult (of_Z 2) y) x |}.

(** ** Array objects and the store

    The methods above compute with the contents of arrays.  Which array
    *object* a method returns is the subject of this layer: an attribute
    holds a reference into a store of buffers, basic slicing yields a view of
    the same buffer, and an assignment through any reference is a write to
    the buffer. *)

Module refs.
Section methods.
Context `{Functional} `{Numpy}.

Abbreviation loc := nat.

Inductive buffer : Type :=
  | Buf1 (v : vec)
  | Buf2 (a : mat).

Abbreviation store := (gmap nat buffer).

(** An array object: one that owns its buffer, the view [a[:, lo:hi]] or
    the view [a[i, :]] of the array that owns the buffer at [l]. *)
Inductive ndarray : Type :=
  | Base (l : loc)
  | ColsView (l : loc) (lo hi : nat)
  | RowView (l : loc) (i : nat).

(** A reference to no buffer, or to a buffer of the wrong dimension; the
    methods below create no such reference. *)
Definition dangling {A : Type} : result A :=
  Raise (ValueError "no such array object").

Definition alloc (σ : store) (b : buffer) : loc * store :=
  let l := fresh (dom σ) in (l, <[l := b]> σ).

(** The contents seen through a 2-D and through a 1-D array object. *)
Definition read2 (σ : store) (a : ndarray) : result mat :=
  match a with
  | Base l => match σ !! l with Some (Buf2 x) => Ok x | _ => dangling end
  | ColsView l lo hi =>
      match σ !! l with
      | Some (Buf2 x) => Ok (map (λ row, take (hi - lo) (drop lo row)) x)
      | _ => dangling
      end
  | RowView _ _ => dangling
  end.

Definition read1 (σ : store) (a : ndarray) : result vec :=
  match a with
  | Base l => match σ !! l with Some (Buf1 v) => Ok v | _ => dangling end
  | RowView l i => match σ !! l with Some (Buf2 x) => item x i | _ => dangling end
  | ColsView _ _ _ => dangling
  end.

(** [a[i, j] = x] and [a[i] = x] *)
Definition write2 (σ : store) (a : ndarray) (i j : nat) (x : F) : result store :=
  match a with
  | Base l =>
      match σ !! l with
      | Some (Buf2 b) => b' ← setitem2 b i j x; Ok (<[l := Buf2 b']> σ)
      | _ => dangling
      end
  | ColsView l lo hi =>
      match σ !! l with
      | Some (Buf2 b) =>
          if bool_decide (j < hi - lo)%nat
          then b' ← setitem2 b i (lo + j) x; Ok (<[l := Buf2 b']> σ)
          else Raise (IndexError "index out of bounds")
      | _ => dangling
      end
  | RowView _ _ => Raise (IndexError "too many indices for array")
  end.

Definition write1 (σ : store) (a : ndarray) (i : nat) (x : F) : result store :=
  match a with
  | Base l =>
      match σ !! l with
      | Some (Buf1 v) => v' ← setitem v i x; Ok (<[l := Buf1 v']> σ)
      | _ => dangling
      end
  | RowView l r =>
      match σ !! l with
      | Some (Buf2 b) => b' ← setitem2 b r i x; Ok (<[l := Buf2 b']> σ)
      | _ => dangling
      end
  | ColsView _ _ _ => dangling
  end.

(** A [sampling] instance and an [ASFEniCSx] instance with their array
    attributes as references. *)
Record sampling_obj : Type := mk_sampling {
  M : Z;
  m : Z;
  _array : ndarray;
  _values : option ndarray;
  s_debug : bool
}.

Record engine_obj : Type := mk_engine {
  k : Z;
  samples_ : sampling_obj;
  e_debug : bool;
  gradients : option ndarray;
  _eigenvalues : option ndarray;
  _eigenvectors : option ndarray;
  W1 : option ndarray
}.

Definition read_opt {A : Type} (rd : ndarray → result A) (o : option ndarray)
  : result (option A) :=
  match o with
  | None => Ok None
  | Some a => x ← rd a; Ok (Some x)
  end.

(** The contents of an instance: the objects of the first layer. *)
Definition sampling_contents (σ : store) (s : sampling_obj) : result sampling.t :=
  a ← read2 σ (_array s);
  v ← read_opt (read1 σ) (_values s);
  Ok (sampling.mk "sampling" (M s) (m s) (Some a) v None (s_debug s)).

Definition engine_contents (σ : store) (e : engine_obj) : result ASFEniCSx.t :=
  s ← sampling_contents σ (samples_ e);
  g ← read_opt (read2 σ) (gradients e);
  ev ← read_opt (read1 σ) (_eigenvalues e);
  U ← read_opt (read2 σ) (_eigenvectors e);
  W ← read_opt (read2 σ) (W1 e);
  Ok (ASFEniCSx.mk (k e) s (e_debug e) g ev U W None None).

(** [sampling.samples]: [return self._array] *)
Definition samples (s : sampling_obj) : ndarray := _array s.

(** [sampling.values]: [return self._values] *)
Definition values (s : sampling_obj) : result ndarray :=
  _ ← assert (bool_decide (is_Some (_values s))) "Values have not been assigned yet";
  ASFEniCSx.getattr "_values" (_values s).

(** [sampling.extract]: [return self._array[index,:]], a view. *)
Definition extract (σ : store) (s : sampling_obj) (index : Z) : result ndarray :=
  c ← sampling_contents σ s;
  _ ← sampling.extract c index;
  match _array s with
  | Base l => Ok (RowView l (Z.to_nat index))
  | _ => dangling
  end.

(** [ASFEniCSx.eigenvalues]: [return np.copy(self._eigenvalues)], a new
    array object. *)
Definition eigenvalues (σ : store) (e : engine_obj) : result (ndarray * store) :=
  c ← engine_contents σ e;
  v ← ASFEniCSx.eigenvalues c;
  let '(l, σ') := alloc σ (Buf1 v) in
  Ok (Base l, σ').

(** [ASFEniCSx.estimation]: the arrays computed by [calculate_eigenpairs]
    (and by [evaluate_gradients], when it runs) are new objects; they are
    bound to the attributes, and
    [return (self._eigenvectors, self._eigenvalues)] returns the same two
    objects. *)
Definition estimation (σ : store) (e : engine_obj)
  : result ((ndarray * ndarray) * engine_obj * store) :=
  c ← engine_contents σ e;
  '((U, S'), c') ← ASFEniCSx.estimation c;
  let '(g, σ) :=
    match gradients e, ASFEniCSx.gradients c' with
    | None, Some g => let '(l, σ') := alloc σ (Buf2 g) in (Some (Base l), σ')
    | g, _ => (g, σ)
    end in
  let '(lS, σ) := alloc σ (Buf1 S') in
  let '(lU, σ) := alloc σ (Buf2 U) in
  let e' := mk_engine (k e) (samples_ e) (e_debug e) g (Some (Base lS))
                      (Some (Base lU)) (W1 e) in
  Ok ((Base lU, Base lS), e', σ).

(** [ASFEniCSx.partition]: [self._eigenvectors[:,:n]] and
    [self._eigenvectors[:,n:]] are views of the eigenvector array; the
    first is bound to [self.W1] and both are returned. *)
Definition partition (σ : store) (e : engine_obj) (n : Z)
  : result ((ndarray * ndarray) * engine_obj) :=
  c ← engine_contents σ e;
  _ ← ASFEniCSx.partition c n;
  match _eigenvectors e with
  | Some (Base l) =>
      W ← read2 σ (Base l);
      let cols := len (default [] (head W)) in
      let b := slice_bound cols n in
      let W1 := ColsView l 0 b in
      let W2 := ColsView l b (Z.to_nat cols) in
      Ok ((W1, W2),
          mk_engine (k e) (samples_ e) (e_debug e) (gradients e)
                    (_eigenvalues e) (_eigenvectors e) (Some W1))
  | _ => dangling
  end.

End methods.
End refs.

(** ** Class [clustering]

    The k-means container of [sampling.py], a subclass of [sampling]: its
    constructor, the accessors, and the assignment of points to
    centroids.  [np.linalg.norm(_, axis=1)] works row by row; what it
    returns for one row is the operation [vnorm] of the class [Norm], of
    which nothing is assumed: [vnorm d] stands for the float64 number that
    numpy computes for the row whose difference is [d], with whatever
    rounding that takes, and the properties below are about these numbers,
    not about the Euclidean distance. *)

Class Norm : Type := {
  vnorm : vec → F
}.

(** [c - x] on 1-D operands, with broadcasting of an operand of length 1. *)
Definition subtract (c x : vec) : result vec :=
  if bool_decide (length c = length x) then Ok (zip_with Qcminus c x)
  else match c, x with
       | [c0], _ => Ok (map (λ xj, Qcminus c0 xj) x)
       | _, [x0] => Ok (map (λ cj, Qcminus cj x0) c)
       | _, _ => Raise (ValueError "operands could not be broadcast together")
       end.

(** [np.argmin]: the position of the first occurrence of the minimum. *)
Fixpoint argmin_from (best : nat) (least : F) (i : nat) (v : vec) : nat :=
  match v with
  | [] => best
  | y :: v' => if fltb y least then argmin_from i y (S i) v'
               else argmin_from best least (S i) v'
  end.

Definition argmin (v : vec) : result nat :=
  match v with
  | [] => Raise (ValueError "attempt to get argmin of an empty sequence")
  | y :: v' => Ok (argmin_from 0 y 1 v')
  end.

(** [enumerate(data)] *)
Definition enumerate {A : Type} (data : list A) : list (nat * A) :=
  zip (seq 0 (length data)) data.

Module clustering.
Section methods.
Context `{Norm}.

(** The attributes of the superclass are the record [base]. *)
Record t : Type := mk {
  base : sampling.t;
  k : Z;
  _max_iter : Z;
  _centroids : option mat;
  _clusters : option (list (list nat))
}.

Definition __init__ (M m k max_iter : Z) (draw : mat) : result t :=
  _ ← assert ((0 <? k) && (k <? M))
        "Number of clusters must be greater than 0 and less than the number of samples";
  s ← sampling.__init__ M m true draw;
  Ok (mk (sampling.mk "clustering" (sampling.M s) (sampling.m s) (sampling._array s)
            (sampling._values s) (sampling._bounds s) (sampling._debug s))
         k max_iter None None).

Definition clusters (self : t) : result (list (list nat)) :=
  match _clusters self with
  | Some c => Ok c
  | None => Raise (AttributeError "'clustering' object has no attribute '_clusters'")
  end.

Definition centroids (self : t) : result mat :=
  match _centroids self with
  | Some c => Ok c
  | None => Raise (AttributeError "'clustering' object has no attribute '_centroids'")
  end.

Definition cluster_index (self : t) (x : vec) : result nat :=
  _ ← assert (bool_decide (is_Some (_centroids self)))
        "Centroids have not been initialized";
  _ ← assert (len x =? sampling.m (base self))
        "Dimension of data does not match dimension of parameter space";
  c ← centroids self;
  d ← result_map (λ row, subtract row x) c;
  argmin (map vnorm d).

(** [np.shape(data)[1]] is the common length of the rows of [data]. *)
Definition assign_clusters (self : t) (data : mat) : result (list (list nat)) :=
  _ ← assert (bool_decide (is_Some (_centroids self)))
        "Centroids have not been initialized";
  _ ← assert (forallb (λ row, len row =? sampling.m (base self)) data)
        "Dimension of data does not match dimension of parameter space";
  for_each (enumerate data) (λ '(i, x) _clusters,
      idx ← cluster_index self x;
      l ← item _clusters idx;
      setitem _clusters idx (l ++ [i]))
    (replicate (Z.to_nat (k self)) []).

End methods.
End clustering.

(** A stand-in for the 2-norm: the sum of the squares, which orders the
    vectors as the norm does. *)
Definition demo_norm : Norm :=
  {| vnorm := λ v, vsum (map (λ y, Qcmult y y) v) |}.

(** ** The specification's notions *)

(** "coordinate array shape is always (M, m); value array, if present, has
    length M" *)
Definition invariant (self : sampling.t) : bool :=
  match sampling._array self with
  | Some a => shape2 a (sampling.M self) (sampling.m self)
  | None => false
  end &&
  match sampling._values self with
  | Some v => shape1 v (sampling.M self)
  | None => true
  end.

(** "some row of the sample array equals s componentwise", and "the index
    of the first such row" *)
Definition row_equal (row s : vec) : bool :=
  bool_decide (length row = length s) && forallb id (zip_with feqb row s).

Fixpoint first_equal_row (a : mat) (s : vec) : option nat :=
  match a with
  | [] => None
  | row :: a' => if row_equal row s then Some 0%nat else S <$> first_equal_row a' s
  end.

(** "(1/M)·Σᵢ gᵢgᵢᵗ": the sum of the outer products of the rows, an [m]×[m]
    array, scaled by [1/M]. *)
Definition madd (a b : mat) : mat := zip_with (zip_with Qcplus) a b.

Definition sum_outer (m : Z) (G : mat) : mat :=
  foldr madd (replicate (Z.to_nat m) (replicate (Z.to_nat m) f0))
        (map (λ g, outer g g) G).

Definition mean_outer (M m : Z) (G : mat) : mat :=
  map (map (Qcmult (Qcdiv f1 (of_Z M)))) (sum_outer m G).

(** Column [j] of a 2-D array. *)
Definition column (j : nat) (a : mat) : vec := map (λ row, nth j row f0) a.

(** An assignment [r[i, j] = x] through the array object [r] is the
    assignment at [(i, shift + j)] on the contents of the array object [w],
    and is read back from [w]; likewise [r[i] = x] for 1-D objects. *)
Definition writes_through2 (σ : gmap nat refs.buffer) (r w : refs.ndarray)
    (shift : nat) : Prop :=
  ∀ (i j : nat) (x : F) (σ' : gmap nat refs.buffer),
    refs.write2 σ r i j x = Ok σ' →
    ∃ a a' : mat, refs.read2 σ w = Ok a
                  ∧ setitem2 a i (shift + j) x = Ok a'
                  ∧ refs.read2 σ' w = Ok a'.

Definition writes_through1 (σ : gmap nat refs.buffer) (r w : refs.ndarray) : Prop :=
  ∀ (i : nat) (x : F) (σ' : gmap nat refs.buffer),
    refs.write1 σ r i x = Ok σ' →
    ∃ v v' : vec, refs.read1 σ w = Ok v
                  ∧ setitem v i x = Ok v'
                  ∧ refs.read1 σ' w = Ok v'.

(** The factor that [calculate_eigenpairs] applies to a column whose first
    coordinate is [x]: the sign of [x], with 0 replaced by 1. *)
Definition orientation (x : F) : F := if feqb (sign x) f0 then f1 else sign x.

(** The loop invariant of [bootstrap]: both work arrays keep their shape
    [(m, M_boot)], and the last row of [subspace_distances] is still the row
    of zeros it was created with. *)
Definition has_shape (r c : nat) (a : mat) : Prop :=
  length a = r ∧ Forall (λ row, length row = c) a.

Definition bootstrap_invariant (r c : nat) (state : mat * mat) : Prop :=
  has_shape r c (fst state) ∧ has_shape r c (snd state)
  ∧ snd state !! (r - 1)%nat = Some (replicate c f0).

(** [row] agrees with [s] in at least one coordinate: some entry of
    [row == s] is true. *)
Definition shares_coordinate (row s : vec) : bool := existsb id (zip_with feqb row s).


(** The chain-rule factor of [evaluate_gradients]: entry [j] of a gradient
    row times [(b[j,1] - b[j,0]) / 2]. *)
Definition rescale (b : mat) (row : vec) : vec :=
  zip_with (λ x bj, Qcdiv (Qcmult x (Qcminus (nth 1 bj f0) (nth 0 bj f0))) (of_Z 2))
           row b.

(** Entry [(i, j)] of a 2-D array. *)
Definition entry (a : mat) (i j : nat) : F := nth j (nth i a []) f0.

(** The entry of [np.linalg.norm(self._centroids - x, axis=1)] for the
    centroid [c]: the number the norm operation returns for the row
    [c - x]. *)
Definition row_norm `{Norm} (x c : vec) : F := vnorm (zip_with Qcminus c x).

(** "the running sum of the outer products of the rows", on float64: the
    entrywise sum of two arrays, and the sum accumulated from the zero
    array over the rows in order. *)
Definition madd64 (a b : list (list float)) : list (list float) :=
  zip_with (zip_with PrimFloat.add) a b.

Definition running_sum64 (m : Z) (G : list (list float)) : list (list float) :=
  fold_left madd64 (map (λ g, float64.outer g g) G)
            (replicate (Z.to_nat m) (replicate (Z.to_nat m) 0%float)).

(** A list of lists whose rows have one length: what [np.asarray] turns
    into a 2-D array. *)
Definition rectangular {A : Type} (a : list (list A)) : Prop :=
  ∃ c : nat, Forall (λ row, length row = c) a.

(** * Properties *)

(** ** Results *)



Lemma bind_eq_Ok {A B : Type} (f : A → result B) (r : result A) (b : B) :
  (r ≫= f) = Ok b ↔ ∃ a, r = Ok a ∧ f a = Ok b.
Proof.
  destruct r as [a|e]; simpl.
  - split; [eauto | intros (a' & [= <-] & Hf); exact Hf].
  - split; [discriminate | intros (a' & Habs & _); discriminate].
Qed.


(** ** C1: partition before an eigendecomposition *)

Lemma hasattr_eigenvalues (self : ASFEniCSx.t) :
  ASFEniCSx.hasattr self "eigenvalues" = true.
Proof.
  unfold ASFEniCSx.hasattr. apply bool_decide_eq_true.
  apply elem_of_app. right. unfold ASFEniCSx.class_attributes. left.
Qed.

Lemma partition_unfold (self : ASFEniCSx.t) (n : Z) :
  ASFEniCSx.partition self n =
  if n >? sampling.m (ASFEniCSx.samples self)
  then Raise (TypeError "exceptions must derive from BaseException")
  else W ← ASFEniCSx.getattr "_eigenvectors" (ASFEniCSx._eigenvectors self);
       Ok ((cols_to n W, cols_from n W), ASFEniCSx.set_W1 self (cols_to n W)).
Proof.
  unfold ASFEniCSx.partition. rewrite hasattr_eigenvalues. reflexivity.
Qed.

(** Without an eigenvector array, [partition] ends in the range check or
    in the slicing statement, whatever else the instance holds. *)
Lemma partition_without_eigenvectors (k : Z) (s : sampling.t) (debug : bool)
    (g : option mat) (ev : option vec) (W1 : option mat)
    (eb : option (vec * vec)) (sb : option (vec * vec * vec)) (n : Z) :
  ASFEniCSx.partition (ASFEniCSx.mk k s debug g ev None W1 eb sb) n
  = if n >? sampling.m s
    then Raise (TypeError "exceptions must derive from BaseException")
    else Raise (AttributeError "_eigenvectors").
Proof. rewrite partition_unfold. simpl. destruct (n >? sampling.m s); reflexivity. Qed.

(** C1.  On an engine without eigendecomposition the first guard of
    [partition], [hasattr(self, 'eigenvalues')], finds the method of that
    name and never fires: with [n = 3 > m = 2] the call ends in the range
    check, whose [raise] of a string is a [TypeError]; with [n = 1] it
    reaches the slicing statement and ends there with the [AttributeError]
    of [self._eigenvectors]. *)
Theorem C1_partition_guard_never_fires :
  let s := sampling.mk "sampling" 1 2 (Some [[f0; f0]]) None None true in
  ∀ (k : Z) (debug : bool) (g : option mat) (W1 : option mat),
    let fresh := ASFEniCSx.mk k s debug g None None W1 None None in
    ASFEniCSx.hasattr fresh "eigenvalues" = true
    ∧ ASFEniCSx.partition fresh 3
      = Raise (TypeError "exceptions must derive from BaseException")
    ∧ ASFEniCSx.partition fresh 1 = Raise (AttributeError "_eigenvectors").
Proof.
  intros s k debug g W1 fresh.
  split; [apply hasattr_eigenvalues|].
  split; rewrite partition_unfold; reflexivity.
Qed.

(** ** Shapes and slices *)

Lemma shape2_spec (a : mat) (r c : Z) :
  shape2 a r c = true ↔ len a = r ∧ Forall (λ row, len row = c) a.
Proof.
  unfold shape2. rewrite andb_true_iff, Z.eqb_eq, forallb_forall, Forall_forall.
  split; intros [Hr Hc]; (split; [exact Hr|]); intros row Hin.
  - apply Z.eqb_eq, Hc, list_elem_of_In, Hin.
  - apply Z.eqb_eq, Hc, list_elem_of_In, Hin.
Qed.

Lemma shape1_spec (v : vec) (n : Z) : shape1 v n = true ↔ len v = n.
Proof. unfold shape1. apply Z.eqb_eq. Qed.

Lemma slice_bound_inside (length n : Z) :
  0 ≤ n ≤ length → slice_bound length n = Z.to_nat n.
Proof.
  intros Hn. unfold slice_bound.
  destruct (Z.ltb_spec n 0); [lia|]. f_equal. lia.
Qed.

Lemma cols_inside (W : mat) (c n : Z) :
  Forall (λ row, len row = c) W → 0 ≤ n ≤ c →
  cols_to n W = map (take (Z.to_nat n)) W
  ∧ cols_from n W = map (drop (Z.to_nat n)) W.
Proof.
  intros HW Hn. unfold cols_to, cols_from.
  split; apply map_ext_Forall; eapply Forall_impl; try exact HW;
    intros row Hrow; simpl in Hrow;
    unfold slice_to, slice_from; rewrite Hrow, slice_bound_inside by lia;
    reflexivity.
Qed.

Lemma hstack_take_drop (W : mat) (k : nat) :
  hstack (map (take k) W) (map (drop k) W) = W.
Proof.
  unfold hstack. induction W as [|row W IH]; simpl; [reflexivity|].
  rewrite take_drop, IH. reflexivity.
Qed.

Lemma shape2_take (W : mat) (r c n : Z) :
  shape2 W r c = true → 0 ≤ n ≤ c →
  shape2 (map (take (Z.to_nat n)) W) r n = true.
Proof.
  rewrite !shape2_spec. intros [Hr Hc] Hn. split.
  - unfold len in *. rewrite length_map. exact Hr.
  - apply Forall_map. eapply Forall_impl; [exact Hc|].
    intros row Hrow. simpl in *. unfold len in *. rewrite length_take. lia.
Qed.

Lemma shape2_drop (W : mat) (r c n : Z) :
  shape2 W r c = true → 0 ≤ n ≤ c →
  shape2 (map (drop (Z.to_nat n)) W) r (c - n) = true.
Proof.
  rewrite !shape2_spec. intros [Hr Hc] Hn. split.
  - unfold len in *. rewrite length_map. exact Hr.
  - apply Forall_map. eapply Forall_impl; [exact Hc|].
    intros row Hrow. simpl in *. unfold len in *. rewrite length_drop. lia.
Qed.

Lemma take_all_rows (W : mat) (c : Z) :
  Forall (λ row, len row = c) W → map (take (Z.to_nat c)) W = W.
Proof.
  intros HW. induction HW as [|row W Hrow _ IH]; simpl; [reflexivity|].
  rewrite IH. f_equal. apply take_ge. unfold len in Hrow. lia.
Qed.

(** ** C9: partition is a split of the eigenvector array *)

(** C9.  With an [m]×[m] eigenvector array [W] and [1 ≤ n ≤ m],
    [partition(n)] returns [W1], the first [n] columns of [W], and [W2], the
    remaining [m − n] columns; stacking them side by side gives [W] back; for
    [n = m], [W1] is [W] and [W2] has no column.  [W1] is retained. *)
Theorem C9_partition_is_a_split (self : ASFEniCSx.t) (W : mat) (n : Z) :
  let m := sampling.m (ASFEniCSx.samples self) in
  ASFEniCSx._eigenvectors self = Some W →
  shape2 W m m = true →
  1 ≤ n ≤ m →
  ∃ W1 W2 : mat,
    ASFEniCSx.partition self n = Ok ((W1, W2), ASFEniCSx.set_W1 self W1)
    ∧ W1 = map (take (Z.to_nat n)) W
    ∧ W2 = map (drop (Z.to_nat n)) W
    ∧ shape2 W1 m n = true
    ∧ shape2 W2 m (m - n) = true
    ∧ hstack W1 W2 = W
    ∧ (n = m → W1 = W ∧ shape2 W2 m 0 = true).
Proof.
  intros m HW Hshape Hn.
  pose proof (proj1 (shape2_spec W m m) Hshape) as [_ Hcols].
  destruct (cols_inside W m n Hcols ltac:(lia)) as [Hto Hfrom].
  exists (cols_to n W), (cols_from n W).
  split.
  { rewrite partition_unfold. fold m.
    destruct (Z.gtb_spec n m); [lia|]. rewrite HW. reflexivity. }
  rewrite Hto, Hfrom.
  split; [reflexivity|]. split; [reflexivity|].
  split; [apply (shape2_take W m m n Hshape); lia|].
  split; [apply (shape2_drop W m m n Hshape); lia|].
  split; [apply hstack_take_drop|].
  intros ->. split.
  - apply take_all_rows, Hcols.
  - replace 0 with (m - m) by lia. apply (shape2_drop W m m m Hshape). lia.
Qed.

Lemma C9_partition_is_a_split_witness :
  let self := ASFEniCSx.mk 1
                (sampling.mk "sampling" 1 2 (Some [[f0; f1]]) None None true)
                true None (Some [f1; f0]) (Some (identity 2)) None None None in
  ∃ W1 W2 : mat,
    ASFEniCSx.partition self 2 = Ok ((W1, W2), ASFEniCSx.set_W1 self W1)
    ∧ W1 = map (take 2) (identity 2)
    ∧ W2 = map (drop 2) (identity 2)
    ∧ shape2 W1 2 2 = true
    ∧ shape2 W2 2 (2 - 2) = true
    ∧ hstack W1 W2 = identity 2
    ∧ (2 = 2 → W1 = identity 2 ∧ shape2 W2 2 0 = true).
Proof.
  intros self.
  apply (C9_partition_is_a_split self (identity 2) 2).
  - reflexivity.
  - reflexivity.
  - simpl. lia.
Defined.

(** ** C8: looking up a coordinate vector *)

(** C8.  [index] tests [sample in self._array] and takes
    [np.where(self._array == sample)[0][0]]; both work entry by entry.  In
    the array [[1, 0], [1, 1]] the first row equal to [1, 1] is row 1, and
    [index] returns 0, the first row that agrees with it in some coordinate;
    no row equals [1, -1], and [index] returns 0 as well. *)
Theorem C8_index_matches_any_coordinate :
  let a := [[f1; f0]; [f1; f1]] in
  let self := sampling.mk "sampling" 2 2 (Some a) None None true in
  first_equal_row a [f1; f1] = Some 1%nat
  ∧ sampling.index self [f1; f1] = Ok 0%nat
  ∧ first_equal_row a [f1; Qcopp f1] = None
  ∧ sampling.index self [f1; Qcopp f1] = Ok 0%nat.
Proof. vm_compute. repeat split; reflexivity. Qed.

(** ** C7: the shape invariant of the sample container *)

(** C7.  A container built by the constructor with one sample, with values
    assigned by [assign_values], satisfies the invariant.  [add_sample]
    appends a row and increments [M] and leaves [_values] alone: afterwards
    the value array has length 1 with [M = 2], and [extract_value(1)] passes
    its bounds assertion and fails on the array. *)
Theorem C7_add_sample_leaves_values_short :
  ∃ s0 s1 s2 : sampling.t,
    sampling.__init__ 1 1 true [[f0]] = Ok s0
    ∧ sampling.assign_values s0 (λ _, f0) = Ok s1
    ∧ invariant s1 = true
    ∧ sampling.add_sample s1 (Some [f1]) [] = Ok s2
    ∧ sampling.M s2 = 2
    ∧ sampling._array s2 = Some [[f0]; [f1]]
    ∧ sampling._values s2 = Some [f0]
    ∧ invariant s2 = false
    ∧ sampling.extract_value s2 1 = Raise (IndexError "index out of bounds").
Proof.
  eexists _, _, _.
  split; [vm_compute; reflexivity|].
  split; [vm_compute; reflexivity|].
  split; [reflexivity|].
  split; [vm_compute; reflexivity|].
  repeat split; reflexivity.
Qed.

(** The same on every container that has values: after [add_sample] the
    value array is one entry short. *)
Lemma add_sample_breaks_invariant (self self' : sampling.t) (v : vec)
    (sample : option vec) (draw : vec) :
  invariant self = true → sampling._values self = Some v →
  sampling.add_sample self sample draw = Ok self' →
  sampling.M self' = sampling.M self + 1
  ∧ sampling._values self' = Some v
  ∧ invariant self' = false.
Proof.
  unfold invariant. intros Hinv Hv. rewrite Hv in Hinv.
  apply andb_true_iff in Hinv as [_ Hlen%shape1_spec].
  unfold sampling.add_sample.
  intros (s' & _ & (a & _ & (a' & _ & [= <-])%bind_eq_Ok)%bind_eq_Ok)%bind_eq_Ok.
  simpl. rewrite Hv. split; [reflexivity|]. split; [reflexivity|].
  apply andb_false_iff. right. unfold shape1.
  apply Z.eqb_neq. lia.
Qed.

(** ** C6: saving and loading *)

Lemma dict_array (self : sampling.t) (a : mat) :
  sampling._array self = Some a →
  sampling.__dict__ self !! "_array" = Some (JArr2 a).
Proof.
  intros Ha. unfold sampling.__dict__. rewrite Ha.
  destruct (sampling._values self), (sampling._bounds self);
    unfold NumpyEncoder1, NumpyEncoder2; simplify_map_eq; reflexivity.
Qed.

Lemma dict_values (self : sampling.t) :
  sampling.__dict__ self !! "_values" = JArr1 <$> sampling._values self.
Proof.
  unfold sampling.__dict__.
  destruct (sampling._array self), (sampling._values self), (sampling._bounds self);
    unfold NumpyEncoder1, NumpyEncoder2; simplify_map_eq; reflexivity.
Qed.

Lemma init_fields (M m : Z) (debug : bool) (draw : mat) (self : sampling.t) :
  sampling.__init__ M m debug draw = Ok self →
  self = sampling.mk "sampling" M m (Some draw) None None debug ∧ 0 < M ∧ 0 < m.
Proof.
  unfold sampling.__init__, assert.
  destruct (Z.ltb_spec 0 M); [|discriminate].
  destruct (Z.ltb_spec 0 m); [|discriminate].
  simpl. intros [= <-]. auto.
Qed.

(** C6 as stated fails: the constructor has already drawn samples, so a
    freshly constructed container refuses the record unless [overwrite] is
    set. *)
Lemma C6_fresh_container_refuses_load :
  ∃ (s t : sampling.t) (data : gmap string jvalue),
    sampling.__init__ 1 1 true [[f1]] = Ok s
    ∧ sampling.save s "samples.json" = Ok data
    ∧ sampling.__init__ 1 1 true [[f0]] = Ok t
    ∧ sampling.load t data false
      = Raise (AttributeError "Samples already exist. Use overwrite=True to overwrite them").
Proof.
  eexists _, _, _.
  split; [vm_compute; reflexivity|].
  split; [reflexivity|].
  split; [vm_compute; reflexivity|].
  unfold sampling.load. rewrite (dict_array _ [[f1]]) by reflexivity.
  reflexivity.
Qed.

(** C6, amended.  For a container whose coordinate array has shape
    [(M, m)], saving it and loading the record with [overwrite=True] into a
    freshly constructed container of the same [(M, m)] succeeds, and the
    loaded container holds the same coordinate array and the same value
    array (none if the original has none). *)
Theorem C6_roundtrip_with_overwrite
    (self target : sampling.t) (a : mat) (filename : string)
    (debug : bool) (draw : mat) :
  sampling._array self = Some a →
  shape2 a (sampling.M self) (sampling.m self) = true →
  sampling.__init__ (sampling.M self) (sampling.m self) debug draw = Ok target →
  ∃ (data : gmap string jvalue) (target' : sampling.t),
    sampling.save self filename = Ok data
    ∧ sampling.load target data true = Ok target'
    ∧ sampling._array target' = Some a
    ∧ sampling._values target' = sampling._values self
    ∧ sampling.M target' = sampling.M self
    ∧ sampling.m target' = sampling.m self.
Proof.
  intros Ha Hshape Hinit.
  apply init_fields in Hinit as (-> & _ & _).
  exists (sampling.__dict__ self).
  unfold sampling.save, sampling.load.
  rewrite (dict_array self a Ha). simpl.
  rewrite Hshape. simpl. rewrite dict_values.
  destruct (sampling._values self) as [v|]; simpl;
    eexists; (split; [reflexivity|]); (split; [reflexivity|]);
    repeat split; reflexivity.
Qed.

Lemma C6_roundtrip_with_overwrite_witness :
  let self := sampling.mk "sampling" 2 1 (Some [[f1]; [f0]]) (Some [f0; f1]) None true in
  ∃ (data : gmap string jvalue) (target' : sampling.t),
    sampling.save self "samples.json" = Ok data
    ∧ sampling.load (sampling.mk "sampling" 2 1 (Some [[f0]; [f0]]) None None false)
        data true = Ok target'
    ∧ sampling._array target' = Some [[f1]; [f0]]
    ∧ sampling._values target' = Some [f0; f1]
    ∧ sampling.M target' = 2
    ∧ sampling.m target' = 1.
Proof.
  intros self.
  apply (C6_roundtrip_with_overwrite self _ [[f1]; [f0]] "samples.json"
           false [[f0]; [f0]]).
  - reflexivity.
  - reflexivity.
  - reflexivity.
Defined.

(** ** C2: the array objects that the accessors return *)

Section aliasing.
Context `{Functional} `{Numpy}.

(** A write through the array object that owns a buffer, or through a
    column view of it, is the same assignment on the owner's contents, at
    the column shifted by the start of the view. *)
Lemma write2_Base (σ σ' : gmap nat refs.buffer) (l i j : nat) (x : F) :
  refs.write2 σ (refs.Base l) i j x = Ok σ' →
  ∃ a a', refs.read2 σ (refs.Base l) = Ok a
          ∧ setitem2 a i j x = Ok a'
          ∧ refs.read2 σ' (refs.Base l) = Ok a'.
Proof.
  simpl. destruct (σ !! l) as [[v|a]|] eqn:Hl; try discriminate.
  destruct (setitem2 a i j x) as [a'|e] eqn:Hset; simpl; [|discriminate].
  intros [= <-]. exists a, a'. rewrite lookup_insert_eq. auto.
Qed.

Lemma write2_ColsView (σ σ' : gmap nat refs.buffer) (l lo hi i j : nat) (x : F) :
  refs.write2 σ (refs.ColsView l lo hi) i j x = Ok σ' →
  ∃ a a', refs.read2 σ (refs.Base l) = Ok a
          ∧ setitem2 a i (lo + j) x = Ok a'
          ∧ refs.read2 σ' (refs.Base l) = Ok a'.
Proof.
  simpl. destruct (σ !! l) as [[v|a]|] eqn:Hl; try discriminate.
  case_bool_decide; [|discriminate].
  destruct (setitem2 a i (lo + j) x) as [a'|e] eqn:Hset; simpl; [|discriminate].
  intros [= <-]. exists a, a'. rewrite lookup_insert_eq. auto.
Qed.

Lemma write1_Base (σ σ' : gmap nat refs.buffer) (l i : nat) (x : F) :
  refs.write1 σ (refs.Base l) i x = Ok σ' →
  ∃ v v', refs.read1 σ (refs.Base l) = Ok v
          ∧ setitem v i x = Ok v'
          ∧ refs.read1 σ' (refs.Base l) = Ok v'
          ∧ ∀ l', l' ≠ l → σ' !! l' = σ !! l'.
Proof.
  simpl. destruct (σ !! l) as [[v|a]|] eqn:Hl; try discriminate.
  destruct (setitem v i x) as [v'|e] eqn:Hset; simpl; [|discriminate].
  intros [= <-]. exists v, v'. rewrite lookup_insert_eq.
  split; [reflexivity|]. split; [exact Hset|]. split; [reflexivity|].
  intros l' Hne. apply lookup_insert_ne. congruence.
Qed.

(** What [estimation] and [partition] return, object by object. *)
Lemma estimation_objects (σ σ1 : gmap nat refs.buffer) (e e' : refs.engine_obj)
    (U S' : refs.ndarray) :
  refs.estimation σ e = Ok ((U, S'), e', σ1) →
  ∃ lU lS, U = refs.Base lU ∧ S' = refs.Base lS ∧ lU ≠ lS
           ∧ refs._eigenvectors e' = Some U
           ∧ refs._eigenvalues e' = Some S'
           ∧ is_Some (σ1 !! lU) ∧ is_Some (σ1 !! lS).
Proof.
  unfold refs.estimation.
  destruct (refs.engine_contents σ e) as [c|?]; simpl; [|discriminate].
  destruct (ASFEniCSx.estimation c) as [[[Uv Sv] c']|?]; simpl; [|discriminate].
  set (p := match refs.gradients e with
            | Some _ => _
            | None => _
            end).
  destruct p as [g σ0]. unfold refs.alloc.
  set (lS := fresh (dom σ0)).
  set (σa := <[lS := refs.Buf1 Sv]> σ0).
  set (lU := fresh (dom σa)).
  intros [= <- <- <- <-]. exists lU, lS.
  assert (σa !! lU = None) as HUn by apply not_elem_of_dom, is_fresh.
  assert (lU ≠ lS) as Hne.
  { intros Heq. rewrite Heq in HUn. unfold σa in HUn.
    rewrite lookup_insert_eq in HUn. discriminate. }
  split; [reflexivity|]. split; [reflexivity|]. split; [exact Hne|].
  split; [reflexivity|]. split; [reflexivity|]. split.
  - rewrite lookup_insert_eq. eauto.
  - rewrite lookup_insert_ne by congruence. unfold σa.
    rewrite lookup_insert_eq. eauto.
Qed.

Lemma partition_objects (σ : gmap nat refs.buffer) (e e' : refs.engine_obj)
    (n : Z) (W1 W2 : refs.ndarray) :
  refs.partition σ e n = Ok ((W1, W2), e') →
  ∃ l lo mid hi, refs._eigenvectors e = Some (refs.Base l)
                 ∧ refs._eigenvectors e' = Some (refs.Base l)
                 ∧ W1 = refs.ColsView l lo mid
                 ∧ W2 = refs.ColsView l mid hi
                 ∧ lo = 0%nat
                 ∧ refs.W1 e' = Some W1.
Proof.
  unfold refs.partition.
  destruct (refs.engine_contents σ e) as [c|?]; simpl; [|discriminate].
  destruct (ASFEniCSx.partition c n) as [?|?]; simpl; [|discriminate].
  destruct (refs._eigenvectors e) as [[l| |]|]; try discriminate.
  destruct (σ !! l) as [[?|W]|]; simpl; try discriminate.
  intros [= <- <- <-]. eexists l, _, _, _. repeat split; reflexivity.
Qed.

Lemma eigenvalues_object (σ σ1 : gmap nat refs.buffer) (e : refs.engine_obj)
    (v : refs.ndarray) :
  refs.eigenvalues σ e = Ok (v, σ1) →
  ∃ l, v = refs.Base l ∧ σ !! l = None ∧ ∀ l', l' ≠ l → σ1 !! l' = σ !! l'.
Proof.
  unfold refs.eigenvalues.
  destruct (refs.engine_contents σ e) as [c|?]; simpl; [|discriminate].
  destruct (ASFEniCSx.eigenvalues c) as [ev|?]; simpl; [|discriminate].
  unfold refs.alloc. intros [= <- <-]. exists (fresh (dom σ)).
  split; [reflexivity|]. split; [apply not_elem_of_dom, is_fresh|].
  intros l' Hne. apply lookup_insert_ne. congruence.
Qed.

End aliasing.

Lemma read1_agree (σ σ' : gmap nat refs.buffer) (l : nat) (a : refs.ndarray) (v : vec) :
  σ !! l = None → (∀ l', l' ≠ l → σ' !! l' = σ !! l') →
  refs.read1 σ a = Ok v → refs.read1 σ' a = Ok v.
Proof.
  intros Hl Hagree.
  destruct a as [l0|l0 lo hi|l0 r]; simpl; try discriminate;
    (destruct (decide (l0 = l)) as [->|Hne];
       [rewrite Hl; discriminate | rewrite (Hagree l0 Hne); trivial]).
Qed.

(** C2 as stated fails: [samples()] returns the array held in [_array];
    after [a = s.samples(); a[0, 0] = 1] the container's own array has
    changed from [[0]] to [[1]]. *)
Lemma C2_samples_hands_out_the_internal_array :
  let σ : gmap nat refs.buffer := {[ 0%nat := refs.Buf2 [[f0]] ]} in
  let s := refs.mk_sampling 1 1 (refs.Base 0) None true in
  ∃ σ' : gmap nat refs.buffer,
    refs.write2 σ (refs.samples s) 0 0 f1 = Ok σ'
    ∧ refs.read2 σ (refs._array s) = Ok [[f0]]
    ∧ refs.read2 σ' (refs._array s) = Ok [[f1]].
Proof.
  eexists. split; [vm_compute; reflexivity|].
  split; vm_compute; reflexivity.
Qed.

(** C2, amended.  [samples()] returns the array object held in [_array];
    [estimation()] returns the two array objects it has just bound to
    [_eigenvectors] and [_eigenvalues]; [partition(n)] returns two column
    views of the array object held in [_eigenvectors], and retains the first
    as [W1].  An in-place assignment through any of them is an assignment to
    the instance's array and is read back from it.  [eigenvalues()] returns
    a new array object: an assignment through it leaves the contents of
    [_eigenvalues] as they were. *)
Theorem C2_accessors_return_the_internal_arrays `{Functional} `{Numpy} :
  (∀ σ s l, refs._array s = refs.Base l →
     writes_through2 σ (refs.samples s) (refs._array s) 0)
  ∧ (∀ σ e U S' e' σ1,
       refs.estimation σ e = Ok ((U, S'), e', σ1) →
       refs._eigenvectors e' = Some U ∧ refs._eigenvalues e' = Some S'
       ∧ writes_through2 σ1 U U 0 ∧ writes_through1 σ1 S' S')
  ∧ (∀ σ e n W1 W2 e',
       refs.partition σ e n = Ok ((W1, W2), e') →
       ∃ W c, refs._eigenvectors e' = Some W ∧ refs.W1 e' = Some W1
              ∧ writes_through2 σ W1 W 0 ∧ writes_through2 σ W2 W c)
  ∧ (∀ σ e v σ1 w ev i x σ2,
       refs.eigenvalues σ e = Ok (v, σ1) →
       refs._eigenvalues e = Some w → refs.read1 σ w = Ok ev →
       refs.write1 σ1 v i x = Ok σ2 →
       refs.read1 σ2 w = Ok ev).
Proof.
  split; [|split; [|split]].
  - intros σ s l Hl. unfold refs.samples. rewrite Hl.
    intros i j x σ' Hw. simpl plus. apply write2_Base, Hw.
  - intros σ e U S' e' σ1 He.
    apply estimation_objects in He
      as (lU & lS & -> & -> & Hne & HU & HS & _ & _).
    split; [exact HU|]. split; [exact HS|]. split.
    + intros i j x σ' Hw. simpl plus. apply write2_Base, Hw.
    + intros i x σ' Hw. apply write1_Base in Hw as (v & v' & ? & ? & ? & _).
      eauto.
  - intros σ e n W1 W2 e' Hp.
    apply partition_objects in Hp as (l & lo & mid & hi & _ & HW & -> & -> & -> & HW1).
    exists (refs.Base l), mid.
    split; [exact HW|]. split; [exact HW1|]. split.
    + intros i j x σ' Hw. apply write2_ColsView in Hw. exact Hw.
    + intros i j x σ' Hw. apply write2_ColsView in Hw. exact Hw.
  - intros σ e v σ1 w ev i x σ2 Hev Hw Hread Hwrite.
    apply eigenvalues_object in Hev as (l & -> & Hfresh & Hagree).
    apply write1_Base in Hwrite as (_ & _ & _ & _ & _ & Hagree2).
    apply (read1_agree σ σ2 l w ev Hfresh); [|exact Hread].
    intros l' Hne. rewrite (Hagree2 l' Hne). apply Hagree, Hne.
Qed.

Lemma C2_accessors_return_the_internal_arrays_witness :
  let σ : gmap nat refs.buffer := {[ 0%nat := refs.Buf2 [[f1; f0]] ]} in
  let s := refs.mk_sampling 1 2 (refs.Base 0) None true in
  let e := refs.mk_engine 1 s true None None None None in
  writes_through2 σ (refs.samples s) (refs._array s) 0
  ∧ ∃ U S' e' σ1,
      @refs.estimation demo_functional demo_numpy σ e = Ok ((U, S'), e', σ1)
      ∧ refs._eigenvectors e' = Some U
      ∧ writes_through2 σ1 U U 0
      ∧ ∃ W1 W2 e'' W c,
          refs.partition σ1 e' 1 = Ok ((W1, W2), e'')
          ∧ refs._eigenvectors e'' = Some W
          ∧ writes_through2 σ1 W1 W 0 ∧ writes_through2 σ1 W2 W c.
Proof.
  intros σ s e.
  destruct (@C2_accessors_return_the_internal_arrays demo_functional demo_numpy)
    as (Hsamples & Hestimation & Hpartition & _).
  split; [apply (Hsamples σ s 0%nat); reflexivity|].
  destruct (@refs.estimation demo_functional demo_numpy σ e)
    as [[[[U S'] e'] σ1]|err] eqn:He; [|vm_compute in He; discriminate].
  destruct (Hestimation σ e U S' e' σ1 He) as (HU & _ & HwU & _).
  exists U, S', e', σ1.
  split; [reflexivity|]. split; [exact HU|]. split; [exact HwU|].
  destruct (refs.partition σ1 e' 1) as [[[W1 W2] e'']|err] eqn:Hp.
  - destruct (Hpartition σ1 e' 1 W1 W2 e'' Hp) as (W & c & HW & _ & Hw1 & Hw2).
    exists W1, W2, e'', W, c. auto.
  - vm_compute in He. injection He as <- <- <- <-.
    vm_compute in Hp. discriminate.
Defined.

(** ** C5: the covariance estimate *)

Lemma zip_with_assoc {A : Type} (f : A → A → A) :
  (∀ x y z, f x (f y z) = f (f x y) z) →
  ∀ x y z : list A,
    zip_with f x (zip_with f y z) = zip_with f (zip_with f x y) z.
Proof.
  intros Hf x. induction x as [|a x IH]; intros [|b y] [|c z]; simpl;
    try reflexivity. rewrite Hf, IH. reflexivity.
Qed.

Lemma zip_with_commute {A : Type} (f : A → A → A) :
  (∀ x y, f x y = f y x) →
  ∀ x y : list A, zip_with f x y = zip_with f y x.
Proof.
  intros Hf x. induction x as [|a x IH]; intros [|b y]; simpl;
    try reflexivity. rewrite Hf, IH. reflexivity.
Qed.

Lemma madd_assoc (a b c : mat) : madd a (madd b c) = madd (madd a b) c.
Proof.
  apply zip_with_assoc. intros x y z. apply zip_with_assoc.
  intros p q r. apply Qcplus_assoc.
Qed.

Lemma madd_comm (a b : mat) : madd a b = madd b a.
Proof.
  apply zip_with_commute. intros x y. apply zip_with_commute.
  intros p q. apply Qcplus_comm.
Qed.

(** The sum of a list of arrays does not depend on the order of the list,
    nor on the side from which it is accumulated. *)
Lemma sum_permutation (z : mat) (l l' : list mat) :
  Permutation l l' → foldr madd z l = foldr madd z l'.
Proof.
  induction 1 as [|x l l' _ IH|x y l|l l' l'' _ IH1 _ IH2]; simpl.
  - reflexivity.
  - rewrite IH. reflexivity.
  - rewrite !madd_assoc. rewrite (madd_comm y x). reflexivity.
  - rewrite IH1. exact IH2.
Qed.

Lemma sum_left_right (z : mat) (l : list mat) :
  fold_left madd l z = foldr madd z l.
Proof.
  apply fold_symmetric.
  - intros x y w. apply madd_assoc.
  - intros y. apply madd_comm.
Qed.

Lemma result_map_id {A : Type} (f : A → result A) (l : list A) :
  Forall (λ x, f x = Ok x) l → result_map f l = Ok l.
Proof.
  induction 1 as [|x l Hx _ IH]; simpl; [reflexivity|].
  rewrite Hx, IH. reflexivity.
Qed.

Lemma broadcast1_same {A : Type} (v : list A) : broadcast1 (length v) v = Ok v.
Proof. unfold broadcast1. rewrite bool_decide_eq_true_2; reflexivity. Qed.

Lemma iadd_outer (m : nat) (c : mat) (g : vec) :
  length g = m → iadd m m c (outer g g) = Ok (madd c (outer g g)).
Proof.
  intros Hg. unfold iadd, broadcast2.
  rewrite result_map_id.
  - simpl. replace m with (length (outer g g)) at 1
      by (unfold outer; rewrite length_map; exact Hg).
    rewrite broadcast1_same. reflexivity.
  - unfold outer. apply Forall_map, Forall_forall. intros x _. simpl.
    replace m with (length (map (Qcmult x) g)) by (rewrite length_map; exact Hg).
    apply broadcast1_same.
Qed.

Lemma item_middle {A : Type} (pre : list A) (x : A) (post : list A) :
  item (pre ++ x :: post) (length pre) = Ok x.
Proof. unfold item. rewrite list_lookup_middle; reflexivity. Qed.

(** The loop of [covariance] over [range(M)] visits the rows in order. *)
Lemma covariance_loop (m : nat) (pre G : mat) (c : mat) :
  Forall (λ g, length g = m) G →
  for_each (seq (length pre) (length G))
    (λ i c, g ← item (pre ++ G) i; iadd m m c (outer g g)) c
  = Ok (fold_left madd (map (λ g, outer g g) G) c).
Proof.
  intros HG. revert pre c.
  induction HG as [|g G Hg _ IH]; intros pre c; simpl; [reflexivity|].
  rewrite item_middle. simpl. rewrite (iadd_outer m c g Hg). simpl.
  replace (pre ++ g :: G) with ((pre ++ [g]) ++ G)
    by (rewrite <- app_assoc; reflexivity).
  replace (S (length pre)) with (length (pre ++ [g]))
    by (rewrite length_app; simpl; lia).
  apply IH.
Qed.

Lemma divide_by_scale (c : mat) (x : F) :
  divide_by c x = map (map (Qcmult (Qcdiv f1 x))) c.
Proof.
  unfold divide_by. apply map_ext. intros row. apply map_ext. intros y.
  unfold Qcdiv, f1. ring.
Qed.

Lemma covariance_value (self : ASFEniCSx.t) (G : mat) :
  let M := sampling.M (ASFEniCSx.samples self) in
  let m := sampling.m (ASFEniCSx.samples self) in
  shape2 G M m = true → 0 < M →
  ASFEniCSx.covariance self G = Ok (mean_outer M m G).
Proof.
  intros M m Hshape HM.
  apply shape2_spec in Hshape as [Hrows Hcols].
  assert (0 ≤ m) as Hm.
  { destruct G as [|g G]; [unfold len in Hrows; simpl in Hrows; lia|].
    inversion Hcols as [|? ? Hg _]; subst. unfold len in Hg. lia. }
  unfold ASFEniCSx.covariance. fold M m. unfold zeros2.
  destruct (Z.ltb_spec m 0); [lia|]. simpl.
  unfold range. replace (Z.to_nat M) with (length G) by (unfold len in Hrows; lia).
  rewrite (covariance_loop (Z.to_nat m) [] G).
  - simpl. rewrite divide_by_scale, sum_left_right. reflexivity.
  - eapply Forall_impl; [exact Hcols|]. intros g Hg. simpl in Hg.
    unfold len in Hg. lia.
Qed.

(** The same loop on float64: the rows are visited in order, and each
    outer product is added to the running sum. *)
Lemma iadd64_outer (m : nat) (c : list (list float)) (g : list float) :
  length g = m →
  float64.iadd m m c (float64.outer g g) = Ok (madd64 c (float64.outer g g)).
Proof.
  intros Hg. unfold float64.iadd, float64.broadcast2.
  rewrite result_map_id.
  - simpl. replace m with (length (float64.outer g g)) at 1
      by (unfold float64.outer; rewrite length_map; exact Hg).
    rewrite broadcast1_same. reflexivity.
  - unfold float64.outer. apply Forall_map, Forall_forall. intros x _. simpl.
    replace m with (length (map (PrimFloat.mul x) g)) by (rewrite length_map; exact Hg).
    apply broadcast1_same.
Qed.

Lemma covariance64_loop (m : nat) (pre G : list (list float)) (c : list (list float)) :
  Forall (λ g, length g = m) G →
  for_each (seq (length pre) (length G))
    (λ i c, g ← item (pre ++ G) i; float64.iadd m m c (float64.outer g g)) c
  = Ok (fold_left madd64 (map (λ g, float64.outer g g) G) c).
Proof.
  intros HG. revert pre c.
  induction HG as [|g G Hg _ IH]; intros pre c; simpl; [reflexivity|].
  rewrite item_middle. simpl. rewrite (iadd64_outer m c g Hg). simpl.
  replace (pre ++ g :: G) with ((pre ++ [g]) ++ G)
    by (rewrite <- app_assoc; reflexivity).
  replace (S (length pre)) with (length (pre ++ [g]))
    by (rewrite length_app; simpl; lia).
  apply IH.
Qed.

(** With [s = 2⁻²⁷], the squares [s²] vanish one by one when they are added
    to 1, and add up to three quarters of the last place when they are
    summed first: the rows [1, s, s, s] give [0.25], the same rows in the
    order [s, s, s, 1] give the next float64 number above [0.25]. *)
Lemma C5_row_order_changes_the_float64_sum :
  let s := 0x1p-27%float in
  let G := [[1%float]; [s]; [s]; [s]] in
  let G' := [[s]; [s]; [s]; [1%float]] in
  let self := ASFEniCSx.mk 1
                (sampling.mk "sampling" 4 1 (Some [[f0]; [f0]; [f0]; [f0]])
                   None None true)
                true None None None None None None in
  Permutation G G'
  ∧ float64.covariance self G = Ok [[0.25%float]]
  ∧ float64.covariance self G' = Ok [[0x1.0000000000001p-2%float]]
  ∧ float64.covariance self G' ≠ float64.covariance self G.
Proof.
  intros s G G' self.
  assert (float64.covariance self G = Ok [[0.25%float]]) as HG
    by (vm_compute; reflexivity).
  assert (float64.covariance self G' = Ok [[0x1.0000000000001p-2%float]]) as HG'
    by (vm_compute; reflexivity).
  split; [exact (Permutation_cons_append [[s]; [s]; [s]] [1%float])|].
  split; [exact HG|]. split; [exact HG'|].
  rewrite HG, HG'. intros Heq.
  apply (f_equal (λ r, match r with
                       | Ok [[x]] => PrimFloat.eqb x 0.25%float
                       | _ => true
                       end)) in Heq.
  vm_compute in Heq. discriminate.
Qed.

(** C5 (amended).  For an [M]×[m] gradient array, [covariance] returns the
    running sum of the outer products of the rows, accumulated from the
    zero array over the rows in order, divided by [M]: on float64 with each
    operation rounded, which is why the order of the rows can show in the
    last place.  With exact arithmetic this is [(1/M)·Σᵢ gᵢgᵢᵗ], the same
    array for every permutation [G'] of the rows. *)
Theorem C5_covariance_running_sum
    (self : ASFEniCSx.t) (G64 : list (list float)) (G G' : mat) :
  let M := sampling.M (ASFEniCSx.samples self) in
  let m := sampling.m (ASFEniCSx.samples self) in
  0 < M →
  (len G64 = M → Forall (λ g, len g = m) G64 →
     float64.covariance self G64
     = Ok (float64.divide_by (running_sum64 m G64) (float64.of_int M)))
  ∧ (shape2 G M m = true → Permutation G G' →
     ASFEniCSx.covariance self G = Ok (mean_outer M m G)
     ∧ ASFEniCSx.covariance self G' = ASFEniCSx.covariance self G).
Proof.
  intros M m HM. split.
  - intros Hrows Hcols.
    assert (0 ≤ m) as Hm.
    { destruct G64 as [|g G0]; [unfold len in Hrows; simpl in Hrows; lia|].
      inversion Hcols as [|? ? Hg _]; subst. unfold len in Hg. lia. }
    unfold float64.covariance. fold M m. unfold float64.zeros2.
    destruct (Z.ltb_spec m 0); [lia|]. simpl.
    unfold range. replace (Z.to_nat M) with (length G64)
      by (unfold len in Hrows; lia).
    rewrite (covariance64_loop (Z.to_nat m) [] G64); [reflexivity|].
    eapply Forall_impl; [exact Hcols|]. intros g Hg. simpl in Hg.
    unfold len in Hg. lia.
  - intros Hshape Hperm.
    assert (shape2 G' M m = true) as Hshape'.
    { apply shape2_spec in Hshape as [Hrows Hcols]. apply shape2_spec. split.
      - unfold len in *. rewrite <- (Permutation_length Hperm). exact Hrows.
      - eapply Permutation_Forall; [exact Hperm | exact Hcols]. }
    rewrite (covariance_value self G Hshape HM).
    rewrite (covariance_value self G' Hshape' HM).
    split; [reflexivity|].
    unfold mean_outer, sum_outer. do 2 f_equal.
    apply sum_permutation, Permutation_map, Permutation_sym, Hperm.
Qed.

Lemma C5_covariance_running_sum_witness :
  let self := ASFEniCSx.mk 1
                (sampling.mk "sampling" 2 2 (Some [[f1; f0]; [f0; f1]]) None None true)
                true None None None None None None in
  let G64 := [[2%float; 0%float]; [2%float; 4%float]] in
  let G := [[of_Z 2; f0]; [of_Z 2; of_Z 4]] in
  let G' := [[of_Z 2; of_Z 4]; [of_Z 2; f0]] in
  float64.covariance self G64
  = Ok (float64.divide_by (running_sum64 2 G64) (float64.of_int 2))
  ∧ ASFEniCSx.covariance self G = Ok (mean_outer 2 2 G)
  ∧ ASFEniCSx.covariance self G' = ASFEniCSx.covariance self G.
Proof.
  intros self G64 G G'.
  destruct (C5_covariance_running_sum self G64 G G') as [H64 Hexact].
  - simpl. lia.
  - split.
    + apply H64; [reflexivity | repeat constructor].
    + apply Hexact; [reflexivity | apply perm_swap].
Defined.

(** ** Scalars: comparisons and signs *)

Lemma fleb_le (x y : F) : fleb x y = true ↔ Qcle x y.
Proof. unfold fleb, Qcle. apply Qle_bool_iff. Qed.

Lemma fleb_gt (x y : F) : fleb x y = false ↔ Qclt y x.
Proof.
  rewrite <- not_true_iff_false, fleb_le. split.
  - apply Qcnot_le_lt.
  - intros Hlt Hle. exact (Qclt_not_le _ _ Hlt Hle).
Qed.

Lemma fltb_lt (x y : F) : fltb x y = true ↔ Qclt x y.
Proof. unfold fltb. rewrite negb_true_iff. apply (fleb_gt y x). Qed.

Lemma fltb_ge (x y : F) : fltb x y = false ↔ Qcle y x.
Proof. unfold fltb. rewrite negb_false_iff. apply (fleb_le y x). Qed.


Lemma orientation_cases (x : F) :
  (Qclt f0 x ∧ orientation x = f1)
  ∨ (Qclt x f0 ∧ orientation x = Qcopp f1)
  ∨ (x = f0 ∧ orientation x = f1).
Proof.
  unfold orientation.
  unfold sign. destruct (fltb f0 x) eqn:Hpos.
  - left. split; [apply fltb_lt, Hpos | reflexivity].
  - destruct (fltb x f0) eqn:Hneg.
    + right. left. split; [apply fltb_lt, Hneg | reflexivity].
    + right. right. split; [|reflexivity].
      apply Qcle_antisym; [apply fltb_ge, Hpos | apply fltb_ge, Hneg].
Qed.

Lemma orientation_nonneg (x : F) : Qcle f0 (Qcmult x (orientation x)).
Proof.
  destruct (orientation_cases x) as [[Hx ->]|[[Hx ->]|[-> ->]]].
  - rewrite Qcmult_1_r. apply Qclt_le_weak, Hx.
  - replace (Qcmult x (Qcopp f1)) with (Qcopp x) by (unfold f1; ring).
    replace f0 with (Qcopp f0) by reflexivity.
    apply Qcopp_le_compat, Qclt_le_weak, Hx.
  - rewrite Qcmult_1_r. apply Qcle_refl.
Qed.

(** ** Fancy indexing *)

Lemma gather_in_range {A : Type} (d : A) (l : list A) (idx : list nat) :
  Forall (λ i, (i < length l)%nat) idx →
  gather l idx = Ok (map (λ i, nth i l d) idx).
Proof.
  induction 1 as [|i idx Hi _ IH]; simpl; [reflexivity|].
  unfold item. destruct (lookup_lt_is_Some_2 l i Hi) as [x Hx].
  rewrite Hx, IH. simpl. rewrite (nth_lookup_Some l i d x Hx). reflexivity.
Qed.

Lemma gather_cols_in_range (n : nat) (a : mat) (idx : list nat) :
  Forall (λ row, length row = n) a →
  Forall (λ i, (i < n)%nat) idx →
  gather_cols a idx = Ok (map (λ row, map (λ i, nth i row f0) idx) a).
Proof.
  intros Ha Hidx. induction Ha as [|row a Hrow _ IH]; simpl; [reflexivity|].
  rewrite (gather_in_range f0), IH; [reflexivity|].
  rewrite Hrow. exact Hidx.
Qed.

Lemma permutation_in_range (n : nat) (idx : list nat) :
  Permutation idx (seq 0 n) → Forall (λ i, (i < n)%nat) idx.
Proof.
  intros Hperm. eapply Permutation_Forall; [apply Permutation_sym, Hperm|].
  apply Forall_seq. intros j Hj. lia.
Qed.

(** ** C3, C4: the eigenpairs returned by [calculate_eigenpairs] *)

Lemma strongly_sorted_rev (l : vec) :
  StronglySorted Qcle l → StronglySorted (λ x y, Qcle y x) (rev l).
Proof.
  induction 1 as [|x l _ IH Hx]; simpl; [constructor|].
  apply StronglySorted_app_2.
  - intros y z Hy Hz. apply list_elem_of_singleton in Hz as ->.
    apply list_elem_of_In, in_rev in Hy. rewrite Forall_forall in Hx.
    apply Hx, list_elem_of_In, Hy.
  - exact IH.
  - repeat constructor.
Qed.

Lemma entry_of_product (idx : list nat) (row row0 : vec) (j i : nat) :
  idx !! j = Some i →
  nth j (zip_with Qcmult (map (λ i, nth i row f0) idx)
                         (map (λ i, orientation (nth i row0 f0)) idx)) f0
  = Qcmult (nth i row f0) (orientation (nth i row0 f0)).
Proof.
  intros Hj. apply nth_lookup_Some. apply lookup_zip_with_Some.
  exists (nth i row f0), (orientation (nth i row0 f0)).
  split; [reflexivity|].
  split; (change map with (@fmap list _); rewrite list_lookup_fmap, Hj; reflexivity).
Qed.

Section eigenpairs.
Context `{Numpy}.

(** The value of [calculate_eigenpairs] in terms of what the eigensolver
    and [argsort] return. *)
Lemma calculate_eigenpairs_value (A : mat) (n : nat) (e row0 : vec) (rest : mat) :
  eigh A = Ok (e, row0 :: rest) →
  length e = n →
  Forall (λ row, length row = n) (row0 :: rest) →
  Permutation (argsort (map Qcabs e)) (seq 0 n) →
  let idx := rev (argsort (map Qcabs e)) in
  ASFEniCSx.calculate_eigenpairs A
  = Ok (map (λ i, nth i (map Qcabs e) f0) idx,
        map (λ row, zip_with Qcmult (map (λ i, nth i row f0) idx)
                                    (map (λ i, orientation (nth i row0 f0)) idx))
            (row0 :: rest)).
Proof.
  intros Heigh He HW Hperm idx.
  assert (Forall (λ i, (i < n)%nat) idx) as Hidx.
  { apply permutation_in_range. unfold idx.
    rewrite <- Hperm. apply Permutation_sym, Permutation_rev. }
  unfold ASFEniCSx.calculate_eigenpairs. rewrite Heigh. simpl.
  fold idx.
  assert (length (map Qcabs e) = n) as Hea by (rewrite List.length_map; exact He).
  inversion HW as [|? ? Hrow0 Hrest]; subst.
  rewrite (gather_in_range f0 (map Qcabs e)) by (rewrite Hea; exact Hidx).
  rewrite (gather_in_range f0 row0) by (rewrite Hrow0; exact Hidx).
  rewrite (gather_cols_in_range (length e)) by assumption.
  simpl. rewrite !map_map. reflexivity.
Qed.

End eigenpairs.

Lemma Qcabs_f0 : Qcabs f0 = f0.
Proof. apply Qc_is_canon. reflexivity. Qed.

Lemma nth_map_abs (e : vec) (i : nat) :
  nth i (map Qcabs e) f0 = Qcabs (nth i e f0).
Proof.
  transitivity (nth i (map Qcabs e) (Qcabs f0)).
  - f_equal. symmetry. apply Qcabs_f0.
  - apply map_nth.
Qed.

Section eigenpairs_columns.
Context `{Numpy}.

(** Column [j] of the result is column [idx[j]] of the eigensolver's array,
    scaled by the orientation of that column's first coordinate. *)
Lemma calculate_eigenpairs_columns (A : mat) (n : Z) :
  shape2 A n n = true → 0 < n → eigh_contract n → argsort_contract →
  ∃ (e row0 : vec) (rest W' : mat) (idx : list nat),
    eigh A = Ok (e, row0 :: rest)
    ∧ length e = Z.to_nat n
    ∧ shape2 (row0 :: rest) n n = true
    ∧ Permutation idx (seq 0 (Z.to_nat n))
    ∧ idx = rev (argsort (map Qcabs e))
    ∧ ASFEniCSx.calculate_eigenpairs A
      = Ok (map (λ i, Qcabs (nth i e f0)) idx, W')
    ∧ length W' = Z.to_nat n
    ∧ ∀ j i, idx !! j = Some i →
        column j W'
        = map (λ x, Qcmult x (orientation (nth i row0 f0))) (column i (row0 :: rest)).
Proof.
  intros HA Hn Heigh Hsort.
  destruct (Heigh A HA) as (e & W & HeW & He & HW).
  apply shape1_spec in He. pose proof HW as HWshape.
  apply shape2_spec in HW as [HWrows HWcols].
  destruct W as [|row0 rest]; [unfold len in HWrows; simpl in HWrows; lia|].
  assert (length e = Z.to_nat n) as He' by (unfold len in He; lia).
  assert (Forall (λ row : vec, length row = Z.to_nat n) (row0 :: rest)) as HWcols'.
  { eapply Forall_impl; [exact HWcols|]. intros row Hrow. simpl in Hrow.
    unfold len in Hrow. lia. }
  destruct (Hsort (map Qcabs e)) as [Hperm _].
  rewrite List.length_map, He' in Hperm.
  exists e, row0, rest.
  eexists. exists (rev (argsort (map Qcabs e))).
  split; [exact HeW|]. split; [exact He'|]. split; [exact HWshape|].
  split; [rewrite <- Hperm; apply Permutation_sym, Permutation_rev|].
  split; [reflexivity|].
  split.
  { rewrite (calculate_eigenpairs_value A (Z.to_nat n) e row0 rest HeW He' HWcols' Hperm).
    do 2 f_equal. apply map_ext. intros i. apply nth_map_abs. }
  split; [rewrite List.length_map; unfold len in HWrows; lia|].
  intros j i Hj. unfold column. rewrite !map_map.
  apply map_ext. intros row. apply entry_of_product, Hj.
Qed.

End eigenpairs_columns.

(** C3.  On an [n]×[n] input, [calculate_eigenpairs] returns eigenvalues
    that are all non-negative and in non-increasing order: they are the
    absolute values of the eigensolver's eigenvalues, taken in the order
    [idx], a permutation of the positions; and column [j] of the returned
    eigenvector array is column [idx[j]] of the eigensolver's array, up to
    sign. *)
Theorem C3_eigenvalues_nonnegative_descending `{Numpy} (A : mat) (n : Z) :
  shape2 A n n = true → 0 < n → eigh_contract n → argsort_contract →
  ∃ (e : vec) (W : mat) (e' : vec) (W' : mat) (idx : list nat),
    eigh A = Ok (e, W)
    ∧ ASFEniCSx.calculate_eigenpairs A = Ok (e', W')
    ∧ Forall (Qcle f0) e'
    ∧ StronglySorted (λ x y, Qcle y x) e'
    ∧ Permutation idx (seq 0 (Z.to_nat n))
    ∧ e' = map (λ i, Qcabs (nth i e f0)) idx
    ∧ ∀ j i, idx !! j = Some i →
        column j W' = column i W ∨ column j W' = map Qcopp (column i W).
Proof.
  intros HA Hn Heigh Hsort.
  destruct (calculate_eigenpairs_columns A n HA Hn Heigh Hsort)
    as (e & row0 & rest & W' & idx & HeW & He & HW & Hperm & Hidx & Hcalc & _ & Hcol).
  exists e, (row0 :: rest), (map (λ i, Qcabs (nth i e f0)) idx), W', idx.
  split; [exact HeW|]. split; [exact Hcalc|].
  split; [apply Forall_map, Forall_forall; intros i _; apply Qcabs_nonneg|].
  split.
  { destruct (Hsort (map Qcabs e)) as [Hp Hsorted].
    assert (Forall (λ i, (i < length (map Qcabs e))%nat) (argsort (map Qcabs e)))
      as Hrange by apply permutation_in_range, Hp.
    specialize (Hsorted _ (gather_in_range f0 _ _ Hrange)).
    apply Sorted_StronglySorted in Hsorted;
      [|intros x y z; apply Qcle_trans].
    apply strongly_sorted_rev in Hsorted.
    rewrite <- map_rev, <- Hidx in Hsorted.
    erewrite map_ext; [exact Hsorted|].
    intros i. simpl. symmetry. apply nth_map_abs. }
  split; [exact Hperm|]. split; [reflexivity|].
  intros j i Hj. rewrite (Hcol j i Hj).
  destruct (orientation_cases (nth i row0 f0)) as [[_ ->]|[[_ ->]|[_ ->]]].
  - left. erewrite map_ext; [apply map_id|]. intros x. apply Qcmult_1_r.
  - right. apply map_ext. intros x. unfold f1. ring.
  - left. erewrite map_ext; [apply map_id|]. intros x. apply Qcmult_1_r.
Qed.

(** C4.  On an [n]×[n] input, every column of the eigenvector array that
    [calculate_eigenpairs] returns has a first coordinate that is ≥ 0, and a
    column whose first coordinate is 0 in the eigensolver's array is
    returned as it is. *)
Theorem C4_first_coordinate_nonnegative `{Numpy} (A : mat) (n : Z) :
  shape2 A n n = true → 0 < n → eigh_contract n → argsort_contract →
  ∃ (e : vec) (W : mat) (e' : vec) (W' : mat) (idx : list nat),
    eigh A = Ok (e, W)
    ∧ ASFEniCSx.calculate_eigenpairs A = Ok (e', W')
    ∧ Permutation idx (seq 0 (Z.to_nat n))
    ∧ (∀ j, (j < Z.to_nat n)%nat → ∃ x, column j W' !! 0%nat = Some x ∧ Qcle f0 x)
    ∧ (∀ j i, idx !! j = Some i →
         column i W !! 0%nat = Some f0 → column j W' = column i W).
Proof.
  intros HA Hn Heigh Hsort.
  destruct (calculate_eigenpairs_columns A n HA Hn Heigh Hsort)
    as (e & row0 & rest & W' & idx & HeW & He & HW & Hperm & Hidx & Hcalc & _ & Hcol).
  exists e, (row0 :: rest), (map (λ i, Qcabs (nth i e f0)) idx), W', idx.
  split; [exact HeW|]. split; [exact Hcalc|]. split; [exact Hperm|].
  split.
  - intros j Hj.
    destruct (lookup_lt_is_Some_2 idx j) as [i Hi].
    { rewrite (Permutation_length Hperm), length_seq. exact Hj. }
    rewrite (Hcol j i Hi). simpl. eexists. split; [reflexivity|].
    apply orientation_nonneg.
  - intros j i Hj Hzero. rewrite (Hcol j i Hj).
    simpl in Hzero. injection Hzero as Hzero. rewrite Hzero.
    destruct (orientation_cases f0) as [[Hlt _]|[[Hlt _]|[_ ->]]].
    + exfalso. exact (Qclt_not_le _ _ Hlt (Qcle_refl f0)).
    + exfalso. exact (Qclt_not_le _ _ Hlt (Qcle_refl f0)).
    + erewrite map_ext; [apply map_id|]. intros x. apply Qcmult_1_r.
Qed.

(** ** The stand-ins meet the contracts *)

Lemma insert_by_permutation (v : vec) (i : nat) (l : list nat) :
  Permutation (insert_by v i l) (i :: l).
Proof.
  induction l as [|j l IH]; simpl; [reflexivity|].
  destruct (fleb (nth i v f0) (nth j v f0)); [reflexivity|].
  rewrite IH. apply perm_swap.
Qed.

Lemma insert_by_head (v : vec) (i j : nat) (l : list nat) :
  Qcle (nth j v f0) (nth i v f0) →
  HdRel (λ a b, Qcle (nth a v f0) (nth b v f0)) j l →
  HdRel (λ a b, Qcle (nth a v f0) (nth b v f0)) j (insert_by v i l).
Proof.
  intros Hji Hl. destruct l as [|k l]; simpl; [constructor; exact Hji|].
  destruct (fleb (nth i v f0) (nth k v f0)); constructor; [exact Hji|].
  inversion Hl; subst. assumption.
Qed.

Lemma insert_by_sorted (v : vec) (i : nat) (l : list nat) :
  Sorted (λ a b, Qcle (nth a v f0) (nth b v f0)) l →
  Sorted (λ a b, Qcle (nth a v f0) (nth b v f0)) (insert_by v i l).
Proof.
  induction 1 as [|j l Hl IH Hj]; simpl; [repeat constructor|].
  destruct (fleb (nth i v f0) (nth j v f0)) eqn:Hij.
  - constructor; [constructor; assumption|].
    constructor. apply fleb_le, Hij.
  - constructor; [exact IH|].
    apply insert_by_head; [|exact Hj].
    apply Qclt_le_weak, fleb_gt, Hij.
Qed.

Lemma insertion_argsort_sorted (v : vec) (l : list nat) :
  Sorted (λ a b, Qcle (nth a v f0) (nth b v f0)) (foldr (insert_by v) [] l).
Proof.
  induction l as [|i l IH]; simpl; [constructor|].
  apply insert_by_sorted, IH.
Qed.

Lemma insertion_argsort_permutation (v : vec) (l : list nat) :
  Permutation (foldr (insert_by v) [] l) l.
Proof.
  induction l as [|i l IH]; simpl; [reflexivity|].
  rewrite insert_by_permutation, IH. reflexivity.
Qed.

Lemma sorted_map_nth (v : vec) (l : list nat) :
  Sorted (λ a b, Qcle (nth a v f0) (nth b v f0)) l →
  Sorted Qcle (map (λ i, nth i v f0) l).
Proof.
  induction 1 as [|j l _ IH Hj]; simpl; constructor; [exact IH|].
  destruct Hj; simpl; constructor. assumption.
Qed.

Lemma demo_argsort_contract : @argsort_contract demo_numpy.
Proof.
  intros v. simpl. unfold insertion_argsort. split.
  - apply insertion_argsort_permutation.
  - intros xs Hxs.
    rewrite (gather_in_range f0) in Hxs.
    + injection Hxs as <-. apply sorted_map_nth, insertion_argsort_sorted.
    + apply permutation_in_range, insertion_argsort_permutation.
Qed.

Lemma demo_eigh_contract (n : Z) : @eigh_contract demo_numpy n.
Proof.
  intros A HA. simpl. unfold eigh_diagonal.
  pose proof HA as HA'. apply shape2_spec in HA' as [Hrows _].
  rewrite Hrows, HA.
  exists (diagonal A), (identity (length A)).
  split; [reflexivity|]. split.
  - apply shape1_spec. unfold diagonal, len in *. rewrite length_imap. exact Hrows.
  - apply shape2_spec. unfold identity, len in *. split.
    + rewrite List.length_map, length_seq. exact Hrows.
    + apply Forall_map, Forall_forall. intros i _. simpl.
      rewrite List.length_map, length_seq. exact Hrows.
Qed.

Lemma C3_eigenvalues_nonnegative_descending_witness :
  let A := [[of_Z 1; f0]; [f0; of_Z 4]] in
  ∃ (e : vec) (W : mat) (e' : vec) (W' : mat) (idx : list nat),
    @eigh demo_numpy A = Ok (e, W)
    ∧ @ASFEniCSx.calculate_eigenpairs demo_numpy A = Ok (e', W')
    ∧ Forall (Qcle f0) e'
    ∧ StronglySorted (λ x y, Qcle y x) e'
    ∧ Permutation idx (seq 0 (Z.to_nat 2))
    ∧ e' = map (λ i, Qcabs (nth i e f0)) idx
    ∧ ∀ j i, idx !! j = Some i →
        column j W' = column i W ∨ column j W' = map Qcopp (column i W).
Proof.
  intros A.
  apply (@C3_eigenvalues_nonnegative_descending demo_numpy A 2).
  - reflexivity.
  - lia.
  - apply demo_eigh_contract.
  - apply demo_argsort_contract.
Defined.

Lemma C4_first_coordinate_nonnegative_witness :
  let A := [[of_Z 1; f0]; [f0; of_Z 4]] in
  ∃ (e : vec) (W : mat) (e' : vec) (W' : mat) (idx : list nat),
    @eigh demo_numpy A = Ok (e, W)
    ∧ @ASFEniCSx.calculate_eigenpairs demo_numpy A = Ok (e', W')
    ∧ Permutation idx (seq 0 (Z.to_nat 2))
    ∧ (∀ j, (j < Z.to_nat 2)%nat → ∃ x, column j W' !! 0%nat = Some x ∧ Qcle f0 x)
    ∧ (∀ j i, idx !! j = Some i →
         column i W !! 0%nat = Some f0 → column j W' = column i W).
Proof.
  intros A.
  apply (@C4_first_coordinate_nonnegative demo_numpy A 2).
  - reflexivity.
  - lia.
  - apply demo_eigh_contract.
  - apply demo_argsort_contract.
Defined.

(** ** C10: the bootstrap loop *)

Lemma for_each_invariant {S X : Type} (Inv : S → Prop) (P : X → Prop)
    (xs : list X) (body : X → S → result S) (s : S) :
  Forall P xs →
  (∀ x s, P x → Inv s → ∃ s', body x s = Ok s' ∧ Inv s') →
  Inv s →
  ∃ s', for_each xs body s = Ok s' ∧ Inv s'.
Proof.
  intros Hxs Hbody. revert s.
  induction Hxs as [|x xs Hx _ IH]; intros s Hs; simpl; [eauto|].
  destruct (Hbody x s Hx Hs) as (s1 & -> & Hs1). simpl. apply IH, Hs1.
Qed.

Lemma result_map_exists {A B : Type} (f : A → result B) (l : list A) :
  Forall (λ x, ∃ y, f x = Ok y) l →
  ∃ ys, result_map f l = Ok ys ∧ Forall2 (λ x y, f x = Ok y) l ys.
Proof.
  induction 1 as [|x l [y Hy] _ (ys & IH & Hys)]; simpl.
  - exists []. split; [reflexivity | constructor].
  - exists (y :: ys). rewrite Hy, IH. split; [reflexivity|].
    constructor; assumption.
Qed.

Lemma has_shape_zeros (r c : Z) :
  0 ≤ r → 0 ≤ c →
  zeros2 r c = Ok (replicate (Z.to_nat r) (replicate (Z.to_nat c) f0))
  ∧ has_shape (Z.to_nat r) (Z.to_nat c)
      (replicate (Z.to_nat r) (replicate (Z.to_nat c) f0)).
Proof.
  intros Hr Hc. unfold zeros2.
  destruct (Z.ltb_spec r 0); [lia|]. destruct (Z.ltb_spec c 0); [lia|].
  split; [reflexivity|]. split.
  - apply length_replicate.
  - apply Forall_replicate, length_replicate.
Qed.

Lemma has_shape_shape2 (a : mat) (r c : Z) :
  shape2 a r c = true → has_shape (Z.to_nat r) (Z.to_nat c) a.
Proof.
  intros [Hr Hc]%shape2_spec. unfold len in *. split; [lia|].
  eapply Forall_impl; [exact Hc|]. intros row Hrow. simpl in Hrow. lia.
Qed.


Lemma setitem_in_range {A : Type} (l : list A) (i : nat) (x : A) :
  (i < length l)%nat → setitem l i x = Ok (<[i:=x]> l).
Proof. intros Hi. unfold setitem. rewrite bool_decide_eq_true_2; trivial. Qed.

Lemma setitem2_shape (r c : nat) (a : mat) (j i : nat) (x : F) :
  has_shape r c a → (j < r)%nat → (i < c)%nat →
  ∃ a', setitem2 a j i x = Ok a' ∧ has_shape r c a'
        ∧ ∀ k, k ≠ j → a' !! k = a !! k.
Proof.
  intros [Hr Hc] Hj Hi. unfold setitem2, item, setitem.
  destruct (lookup_lt_is_Some_2 a j) as [row Hrow]; [lia|].
  rewrite Hrow. simpl.
  pose proof (Forall_lookup_1 _ _ _ _ Hc Hrow) as Hlen. simpl in Hlen.
  rewrite bool_decide_eq_true_2 by lia. simpl.
  rewrite bool_decide_eq_true_2 by lia.
  eexists. split; [reflexivity|]. split.
  - split; [rewrite length_insert; exact Hr|].
    apply Forall_insert; [exact Hc|]. rewrite length_insert. exact Hlen.
  - intros k Hk. apply list_lookup_insert_ne. congruence.
Qed.

Lemma setcol_shape (r c : nat) (a : mat) (i : nat) (v : vec) :
  has_shape r c a → length v = r → (i < c)%nat →
  ∃ a', setcol a i v = Ok a' ∧ has_shape r c a'.
Proof.
  intros [<- Hc] Hv Hi. unfold setcol.
  rewrite <- Hv, broadcast1_same. simpl. unfold has_shape.
  revert v Hv.
  induction Hc as [|row a Hrow _ IH]; intros [|x v] Hv; try discriminate; simpl.
  - exists []. split; [reflexivity|]. split; [reflexivity | constructor].
  - rewrite (setitem_in_range row i x) by lia. simpl.
    destruct (IH v) as (a' & -> & Hlen & Hrows); [simpl in Hv; lia|].
    simpl. eexists. split; [reflexivity|]. split.
    + simpl. rewrite Hlen. reflexivity.
    + constructor; [rewrite length_insert; exact Hrow | exact Hrows].
Qed.

Lemma has_shape_madd (r c : nat) (a b : mat) :
  has_shape r c a → has_shape r c b → has_shape r c (madd a b).
Proof.
  intros [Ha Hac] [Hb Hbc]. unfold madd. split.
  - rewrite length_zip_with. lia.
  - apply Forall_lookup_2. intros k row Hk.
    apply lookup_zip_with_Some in Hk as (x & y & -> & Hx & Hy).
    pose proof (Forall_lookup_1 _ _ _ _ Hac Hx) as Hxl.
    pose proof (Forall_lookup_1 _ _ _ _ Hbc Hy) as Hyl.
    simpl in *. rewrite length_zip_with. lia.
Qed.

Lemma has_shape_outer (g : vec) : has_shape (length g) (length g) (outer g g).
Proof.
  unfold outer. split; [apply List.length_map|].
  apply Forall_map, Forall_forall. intros x _. simpl. apply List.length_map.
Qed.

Lemma has_shape_mean_outer (M m : Z) (G : mat) :
  Forall (λ g, length g = Z.to_nat m) G →
  has_shape (Z.to_nat m) (Z.to_nat m) (mean_outer M m G).
Proof.
  intros HG. unfold mean_outer.
  assert (has_shape (Z.to_nat m) (Z.to_nat m) (sum_outer m G)) as [Hr Hc].
  { unfold sum_outer. induction HG as [|g G Hg _ IH]; simpl.
    - split; [apply length_replicate | apply Forall_replicate, length_replicate].
    - apply has_shape_madd; [|exact IH]. rewrite <- Hg. apply has_shape_outer. }
  split; [rewrite List.length_map; exact Hr|].
  apply Forall_map. eapply Forall_impl; [exact Hc|].
  intros row Hrow. simpl in *. rewrite List.length_map. exact Hrow.
Qed.

(** A bootstrap replicate has the shape of the gradient array. *)
Lemma replicate_rows (r c : nat) (G : mat) (idx : list nat) :
  has_shape r c G → length idx = r → Forall (λ i, (i < r)%nat) idx →
  ∃ rep, gather G idx = Ok rep ∧ has_shape r c rep.
Proof.
  intros [Hr Hc] Hlen Hidx.
  exists (map (λ i, nth i G []) idx). split.
  - apply gather_in_range. rewrite Hr. exact Hidx.
  - split; [rewrite List.length_map; exact Hlen|].
    apply Forall_map. eapply Forall_impl; [exact Hidx|].
    intros i Hi. simpl in *.
    destruct (lookup_lt_is_Some_2 G i) as [row Hrow]; [lia|].
    rewrite (nth_lookup_Some G i [] row Hrow).
    exact (Forall_lookup_1 _ _ _ _ Hc Hrow).
Qed.

Lemma shape2_of_has_shape (a : mat) (r c : Z) :
  0 ≤ r → 0 ≤ c → has_shape (Z.to_nat r) (Z.to_nat c) a → shape2 a r c = true.
Proof.
  intros Hr Hc [Hrows Hcols]. apply shape2_spec. unfold len. split; [lia|].
  eapply Forall_impl; [exact Hcols|]. intros row Hrow. simpl in Hrow. lia.
Qed.

Lemma covariance_shape (self : ASFEniCSx.t) (G : mat) :
  let M := sampling.M (ASFEniCSx.samples self) in
  let m := sampling.m (ASFEniCSx.samples self) in
  has_shape (Z.to_nat M) (Z.to_nat m) G → 0 < M → 0 < m →
  ∃ cov, ASFEniCSx.covariance self G = Ok cov ∧ shape2 cov m m = true.
Proof.
  intros M m HG HM Hm.
  exists (mean_outer M m G). split.
  - apply covariance_value; [|exact HM].
    apply shape2_of_has_shape; [fold M; lia | fold m; lia | exact HG].
  - apply shape2_of_has_shape; [lia | lia |].
    apply has_shape_mean_outer, HG.
Qed.

Lemma length_transpose_rows (a : mat) :
  Forall (λ row, length row = length a) (transpose a).
Proof.
  unfold transpose. destruct a as [|row a]; [constructor|].
  apply Forall_map, Forall_forall. intros j _. simpl.
  rewrite List.length_map. reflexivity.
Qed.

Lemma dot_columns (W U : mat) (k : Z) :
  length W = length U →
  ∃ d, dot (transpose (cols_to k W)) (cols_from k U) = Ok d.
Proof.
  intros Hlen. unfold dot.
  rewrite (proj2 (forallb_forall _ _)); [eauto|].
  intros row Hrow. apply bool_decide_eq_true.
  pose proof (length_transpose_rows (cols_to k W)) as Hrows.
  rewrite Forall_forall in Hrows. rewrite (Hrows row (proj2 (list_elem_of_In _ _) Hrow)).
  unfold cols_to, cols_from. rewrite !List.length_map. exact Hlen.
Qed.

Lemma fold_fmax_zeros (k : nat) : fold_left fmax (replicate k f0) f0 = f0.
Proof. induction k as [|k IH]; simpl; [reflexivity | exact IH]. Qed.

Lemma fold_fmin_zeros (k : nat) : fold_left fmin (replicate k f0) f0 = f0.
Proof. induction k as [|k IH]; simpl; [reflexivity | exact IH]. Qed.

Lemma vsum_zeros (k : nat) : vsum (replicate k f0) = f0.
Proof.
  unfold vsum. induction k as [|k IH]; simpl; [reflexivity|].
  replace (Qcplus f0 f0) with f0 by (apply Qc_is_canon; reflexivity). exact IH.
Qed.

Lemma mean_zeros (k : nat) : mean (replicate k f0) = f0.
Proof. unfold mean. rewrite vsum_zeros. unfold Qcdiv, f0. ring. Qed.

Lemma amax_nonempty (v : vec) : (0 < length v)%nat → ∃ y, amax v = Ok y.
Proof. destruct v; simpl; [lia | eauto]. Qed.

Lemma amin_nonempty (v : vec) : (0 < length v)%nat → ∃ y, amin v = Ok y.
Proof. destruct v; simpl; [lia | eauto]. Qed.

Lemma amax_zeros (k : nat) : (0 < k)%nat → amax (replicate k f0) = Ok f0.
Proof. destruct k; [lia|]. intros _. simpl. rewrite fold_fmax_zeros. reflexivity. Qed.

Lemma amin_zeros (k : nat) : (0 < k)%nat → amin (replicate k f0) = Ok f0.
Proof. destruct k; [lia|]. intros _. simpl. rewrite fold_fmin_zeros. reflexivity. Qed.

(** A row-wise reduction of an array with non-empty rows returns one entry
    per row, and 0 for a row of zeros. *)
Lemma reduce_rows (f : vec → result F) (r c : nat) (a : mat) (k : nat) :
  (∀ v, (0 < length v)%nat → ∃ y, f v = Ok y) →
  f (replicate c f0) = Ok f0 →
  has_shape r c a → (0 < c)%nat → a !! k = Some (replicate c f0) →
  ∃ ys, result_map f a = Ok ys ∧ length ys = r ∧ ys !! k = Some f0.
Proof.
  intros Hf Hzero [Hr Hc] Hpos Hk.
  destruct (result_map_exists f a) as (ys & Hys & Hall).
  { eapply Forall_impl; [exact Hc|]. intros v Hv. simpl in Hv. apply Hf. lia. }
  exists ys. split; [exact Hys|]. split.
  - rewrite <- (Forall2_length _ _ _ Hall). exact Hr.
  - destruct (Forall2_lookup_l _ _ _ _ _ Hall Hk) as (y & Hy & Hfy).
    rewrite Hzero in Hfy. injection Hfy as <-. exact Hy.
Qed.

Lemma hasattr_gradients (self : ASFEniCSx.t) (G : mat) :
  ASFEniCSx.gradients self = Some G → ASFEniCSx.hasattr self "gradients" = true.
Proof.
  intros HG. unfold ASFEniCSx.hasattr, ASFEniCSx.instance_attributes.
  rewrite HG. apply bool_decide_eq_true. simpl.
  do 4 right. left.
Qed.

Section bootstrap_facts.
Context `{Functional} `{Numpy}.

(** One pass of the inner loop over [range(m - 1)] writes rows [0] to
    [m - 2] of column [i] and nothing else. *)
Lemma bootstrap_inner_loop (self : ASFEniCSx.t) (W U sd : mat) (m B i : nat) :
  ASFEniCSx._eigenvectors self = Some W →
  length W = length U →
  has_shape m B sd → (i < B)%nat →
  sd !! (m - 1)%nat = Some (replicate B f0) →
  ∃ sd',
    for_each (seq 0 (m - 1)) (λ j subspace_distances,
        W ← ASFEniCSx.getattr "_eigenvectors" (ASFEniCSx._eigenvectors self);
        d ← dot (transpose (cols_to (Z.of_nat j + 1) W))
                (cols_from (Z.of_nat j + 1) U);
        setitem2 subspace_distances j i (norm2 d)) sd = Ok sd'
    ∧ has_shape m B sd'
    ∧ sd' !! (m - 1)%nat = Some (replicate B f0).
Proof.
  intros HW Hlen Hshape Hi Hlast.
  apply (for_each_invariant
           (λ sd, has_shape m B sd ∧ sd !! (m - 1)%nat = Some (replicate B f0))
           (λ j, (j < m - 1)%nat)).
  - apply Forall_seq. intros j Hj. lia.
  - intros j sd0 Hj [Hsd0 Hlast0]. rewrite HW. simpl.
    destruct (dot_columns W U (Z.of_nat j + 1) Hlen) as [d ->]. simpl.
    destruct (setitem2_shape m B sd0 j i (norm2 d) Hsd0) as (sd1 & -> & Hsd1 & Hother);
      [lia | exact Hi |].
    exists sd1. split; [reflexivity|]. split; [exact Hsd1|].
    rewrite Hother by lia. exact Hlast0.
  - split; assumption.
Qed.

End bootstrap_facts.

(** On an engine that holds an [M]×[m] gradient array and an [m]×[m]
    eigenvector array, with valid draws, [bootstrap] returns, and its result
    has the stated lengths and zeros. *)
Lemma bootstrap_returns `{Functional} `{Numpy}
    (self : ASFEniCSx.t) (M_boot : Z) (draws : nat → list nat) (G W : mat) :
  let M := sampling.M (ASFEniCSx.samples self) in
  let m := sampling.m (ASFEniCSx.samples self) in
  1 ≤ M_boot → 0 < M → 0 < m →
  ASFEniCSx.gradients self = Some G → shape2 G M m = true →
  ASFEniCSx._eigenvectors self = Some W → shape2 W m m = true →
  (∀ i, (i < Z.to_nat M_boot)%nat →
        length (draws i) = Z.to_nat M
        ∧ Forall (λ r, (r < Z.to_nat M)%nat) (draws i)) →
  eigh_contract m → argsort_contract →
  ∃ (e_max e_min sub_max sub_min sub_mean : vec) (self' : ASFEniCSx.t),
    ASFEniCSx.bootstrap self M_boot draws
      = Ok (((e_max, e_min), (sub_max, sub_min, sub_mean)), self')
    ∧ len sub_max = m ∧ len sub_min = m ∧ len sub_mean = m
    ∧ sub_max !! Z.to_nat (m - 1) = Some f0
    ∧ sub_min !! Z.to_nat (m - 1) = Some f0
    ∧ sub_mean !! Z.to_nat (m - 1) = Some f0.
Proof.
  intros M m HB HM Hm HG HGshape HW HWshape Hdraws Heigh Hsort.
  apply has_shape_shape2 in HGshape, HWshape.
  set (m' := Z.to_nat m) in *. set (B := Z.to_nat M_boot).
  assert (0 < B)%nat as HBpos by (unfold B; lia).
  unfold ASFEniCSx.bootstrap.
  rewrite (hasattr_gradients self G HG). simpl.
  rewrite hasattr_eigenvalues. simpl.
  fold M m.
  destruct (has_shape_zeros m M_boot) as [-> Hzeros]; [lia | lia |].
  fold m' B in Hzeros |- *. simpl.
  match goal with
  | |- context [for_each ?xs ?body ?s0] =>
      destruct (for_each_invariant (bootstrap_invariant m' B)
                  (λ i, (i < B)%nat) xs body s0) as ([ev sd] & -> & Hinv)
  end.
  { unfold range. fold B. apply Forall_seq. intros i Hi. lia. }
  { intros i [ev sd] Hi (Hev & Hsd & Hlast). simpl in Hev, Hsd, Hlast.
    destruct (Z.leb_spec M 0); [lia|]. simpl. rewrite HG. simpl.
    destruct (Hdraws i Hi) as [Hlen Hrange].
    destruct (replicate_rows (Z.to_nat M) m' G (draws i) HGshape Hlen Hrange)
      as (rep & -> & Hrep). simpl.
    destruct (covariance_shape self rep Hrep HM Hm) as (cov & -> & Hcov). simpl.
    destruct (calculate_eigenpairs_columns cov m Hcov Hm Heigh Hsort)
      as (e & row0 & rest & U & idx & _ & _ & _ & Hperm & _ & -> & HU & _).
    simpl. unfold range.
    replace (Z.to_nat (m - 1)) with (m' - 1)%nat by (unfold m'; lia).
    destruct (bootstrap_inner_loop self W U sd m' B i HW) as (sd' & -> & Hsd' & Hlast');
      [destruct HWshape as [-> _]; symmetry; exact HU | exact Hsd | exact Hi | exact Hlast |].
    simpl.
    destruct (setcol_shape m' B ev i (map (λ i0, Qcabs (nth i0 e f0)) idx) Hev)
      as (ev' & -> & Hev'); [|exact Hi|].
    { rewrite List.length_map, (Permutation_length Hperm), length_seq. reflexivity. }
    simpl. exists (ev', sd'). split; [reflexivity|].
    split; [exact Hev'|]. split; [exact Hsd' | exact Hlast']. }
  { split; [exact Hzeros|]. split; [exact Hzeros|]. simpl.
    apply lookup_replicate_2. unfold m'. lia. }
  destruct Hinv as (Hev & Hsd & Hlast). simpl in Hev, Hsd, Hlast. simpl.
  destruct (reduce_rows amax m' B sd (m' - 1) amax_nonempty (amax_zeros B HBpos)
              Hsd HBpos Hlast) as (sub_max & -> & Hmaxlen & Hmax).
  destruct (reduce_rows amin m' B sd (m' - 1) amin_nonempty (amin_zeros B HBpos)
              Hsd HBpos Hlast) as (sub_min & -> & Hminlen & Hmin).
  simpl.
  destruct (result_map_exists amax ev) as (e_max & -> & _).
  { destruct Hev as [_ Hrows]. eapply Forall_impl; [exact Hrows|].
    intros v Hv. simpl in Hv. apply amax_nonempty. lia. }
  destruct (result_map_exists amin ev) as (e_min & -> & _).
  { destruct Hev as [_ Hrows]. eapply Forall_impl; [exact Hrows|].
    intros v Hv. simpl in Hv. apply amin_nonempty. lia. }
  simpl. eexists _, _, _, _, _, _. split; [reflexivity|].
  replace (Z.to_nat (m - 1)) with (m' - 1)%nat by (unfold m'; lia).
  unfold len. rewrite Hmaxlen, Hminlen, List.length_map.
  destruct Hsd as [Hsdlen _]. rewrite Hsdlen.
  split; [unfold m'; lia|]. split; [unfold m'; lia|]. split; [unfold m'; lia|].
  split; [exact Hmax|]. split; [exact Hmin|].
  change map with (@fmap list _). rewrite list_lookup_fmap, Hlast. simpl.
  rewrite mean_zeros. reflexivity.
Qed.

(** *** Whatever [bootstrap] returns *)

Lemma for_each_preserves {S X : Type} (Inv : S → Prop) (P : X → Prop)
    (xs : list X) (body : X → S → result S) (s s' : S) :
  Forall P xs →
  (∀ x s s', P x → Inv s → body x s = Ok s' → Inv s') →
  Inv s → for_each xs body s = Ok s' → Inv s'.
Proof.
  intros Hxs Hbody. revert s.
  induction Hxs as [|x xs Hx _ IH]; intros s Hs; simpl.
  - intros [= <-]. exact Hs.
  - intros (s1 & Hs1 & Hrest)%bind_eq_Ok.
    apply (IH s1); [|exact Hrest]. exact (Hbody x s s1 Hx Hs Hs1).
Qed.

Lemma result_map_Forall2 {A B : Type} (f : A → result B) (l : list A) (ys : list B) :
  result_map f l = Ok ys → Forall2 (λ x y, f x = Ok y) l ys.
Proof.
  revert ys. induction l as [|x l IH]; intros ys; simpl.
  - intros [= <-]. constructor.
  - intros (y & Hy & (ys' & Hys' & [= <-])%bind_eq_Ok)%bind_eq_Ok.
    constructor; [exact Hy | apply IH, Hys'].
Qed.

Lemma setitem_Ok {A : Type} (l l' : list A) (i : nat) (x : A) :
  setitem l i x = Ok l' → l' = <[i:=x]> l ∧ (i < length l)%nat.
Proof.
  unfold setitem. case_bool_decide; [|discriminate]. intros [= <-]. auto.
Qed.

Lemma item_Ok {A : Type} (l : list A) (i : nat) (x : A) :
  item l i = Ok x → l !! i = Some x.
Proof. unfold item. destruct (l !! i); [|discriminate]. intros [= <-]. reflexivity. Qed.

Lemma setitem2_preserves (r c : nat) (a a' : mat) (j i : nat) (x : F) :
  setitem2 a j i x = Ok a' → has_shape r c a →
  has_shape r c a' ∧ ∀ k, k ≠ j → a' !! k = a !! k.
Proof.
  unfold setitem2.
  intros (row & Hrow%item_Ok & (row' & [-> _]%setitem_Ok & [-> _]%setitem_Ok)%bind_eq_Ok)%bind_eq_Ok
         [Hr Hc].
  split.
  - split; [rewrite length_insert; exact Hr|].
    apply Forall_insert; [exact Hc|]. rewrite length_insert.
    exact (Forall_lookup_1 _ _ _ _ Hc Hrow).
  - intros k Hk. apply list_lookup_insert_ne. congruence.
Qed.

Lemma broadcast1_length {A : Type} (c : nat) (v v' : list A) :
  broadcast1 c v = Ok v' → length v' = c.
Proof.
  unfold broadcast1. case_bool_decide as Hlen.
  - intros [= <-]. exact Hlen.
  - destruct v as [|x [|y v]]; try discriminate.
    intros [= <-]. apply length_replicate.
Qed.

Lemma setcol_preserves (r c : nat) (a a' : mat) (i : nat) (v : vec) :
  setcol a i v = Ok a' → has_shape r c a → has_shape r c a'.
Proof.
  unfold setcol.
  intros (v' & Hv'%broadcast1_length & Hmap%result_map_Forall2)%bind_eq_Ok [Hr Hc].
  split.
  - rewrite <- (Forall2_length _ _ _ Hmap), length_zip. lia.
  - apply Forall_lookup_2. intros k row' Hk.
    destruct (Forall2_lookup_r _ _ _ _ _ Hmap Hk) as ([row x] & Hzip & [-> _]%setitem_Ok).
    apply lookup_zip_with_Some in Hzip as (row1 & x1 & [= <- <-] & Hrow & _).
    rewrite length_insert. exact (Forall_lookup_1 _ _ _ _ Hc Hrow).
Qed.

Lemma reduce_rows_Ok (f : vec → result F) (r c : nat) (a : mat) (ys : vec) (k : nat) :
  f (replicate c f0) = Ok f0 →
  result_map f a = Ok ys → has_shape r c a → a !! k = Some (replicate c f0) →
  length ys = r ∧ ys !! k = Some f0.
Proof.
  intros Hzero Hall%result_map_Forall2 [Hr _] Hk. split.
  - rewrite <- (Forall2_length _ _ _ Hall). exact Hr.
  - destruct (Forall2_lookup_l _ _ _ _ _ Hall Hk) as (y & Hy & Hfy).
    rewrite Hzero in Hfy. injection Hfy as <-. exact Hy.
Qed.

Section bootstrap_returns.
Context `{Functional} `{Numpy}.

Lemma evaluate_gradients_samples (self self' : ASFEniCSx.t) (g : mat) :
  ASFEniCSx.evaluate_gradients self = Ok (g, self') →
  ASFEniCSx.samples self' = ASFEniCSx.samples self.
Proof.
  unfold ASFEniCSx.evaluate_gradients.
  intros (g0 & _ & (g1 & _ & (g2 & _ & [= _ <-])%bind_eq_Ok)%bind_eq_Ok)%bind_eq_Ok.
  reflexivity.
Qed.

End bootstrap_returns.

Section bootstrap_result.
Context `{Functional} `{Numpy}.

Lemma bootstrap_inner_loop_preserves (self : ASFEniCSx.t) (U sd sd' : mat)
    (m B i : nat) :
  for_each (seq 0 (m - 1)) (λ j subspace_distances,
      W ← ASFEniCSx.getattr "_eigenvectors" (ASFEniCSx._eigenvectors self);
      d ← dot (transpose (cols_to (Z.of_nat j + 1) W))
              (cols_from (Z.of_nat j + 1) U);
      setitem2 subspace_distances j i (norm2 d)) sd = Ok sd' →
  has_shape m B sd → sd !! (m - 1)%nat = Some (replicate B f0) →
  has_shape m B sd' ∧ sd' !! (m - 1)%nat = Some (replicate B f0).
Proof.
  intros Hloop Hshape Hlast.
  revert Hloop.
  apply (for_each_preserves
           (λ sd, has_shape m B sd ∧ sd !! (m - 1)%nat = Some (replicate B f0))
           (λ j, (j < m - 1)%nat)); [| |split; assumption].
  - apply Forall_seq. intros j Hj. lia.
  - intros j sd0 sd1 Hj [Hsd0 Hlast0]
           (W & _ & (d & _ & Hset)%bind_eq_Ok)%bind_eq_Ok.
    destruct (setitem2_preserves m B sd0 sd1 j i (norm2 d) Hset Hsd0) as [Hsd1 Hother].
    split; [exact Hsd1|]. rewrite Hother by lia. exact Hlast0.
Qed.

(** Whatever the state of the engine and whatever the draws: if [bootstrap]
    returns, the three subspace-distance arrays have length [m] and end in
    0. *)
Lemma bootstrap_result (self self' : ASFEniCSx.t) (M_boot : Z)
    (draws : nat → list nat) (e_max e_min sub_max sub_min sub_mean : vec) :
  let m := sampling.m (ASFEniCSx.samples self) in
  1 ≤ M_boot → 0 < m →
  ASFEniCSx.bootstrap self M_boot draws
    = Ok (((e_max, e_min), (sub_max, sub_min, sub_mean)), self') →
  len sub_max = m ∧ len sub_min = m ∧ len sub_mean = m
  ∧ sub_max !! Z.to_nat (m - 1) = Some f0
  ∧ sub_min !! Z.to_nat (m - 1) = Some f0
  ∧ sub_mean !! Z.to_nat (m - 1) = Some f0.
Proof.
  intros m HB Hm. unfold ASFEniCSx.bootstrap.
  intros (self1 & Hself1 & Hrun)%bind_eq_Ok.
  assert (ASFEniCSx.samples self1 = ASFEniCSx.samples self) as Hsamples.
  { destruct (negb (ASFEniCSx.hasattr self "gradients")).
    - apply bind_eq_Ok in Hself1 as ([g s1] & Hev & [= <-]).
      exact (evaluate_gradients_samples self s1 g Hev).
    - injection Hself1 as <-. reflexivity. }
  rewrite hasattr_eigenvalues in Hrun. simpl in Hrun.
  rewrite Hsamples in Hrun. fold m in Hrun.
  destruct (has_shape_zeros m M_boot) as [Hz Hzeros]; [lia | lia |].
  rewrite Hz in Hrun. simpl in Hrun.
  set (m' := Z.to_nat m) in *. set (B := Z.to_nat M_boot) in *.
  assert (0 < B)%nat as HBpos by (unfold B; lia).
  apply bind_eq_Ok in Hrun as ([ev sd] & Hloop & Hrun).
  assert (bootstrap_invariant m' B (ev, sd)) as (Hev & Hsd & Hlast).
  { revert Hloop.
    apply (for_each_preserves (bootstrap_invariant m' B) (λ i, (i < B)%nat)).
    - unfold range. fold B. apply Forall_seq. intros i Hi. lia.
    - intros i [ev0 sd0] [ev1 sd1] Hi (Hev0 & Hsd0 & Hlast0).
      simpl in Hev0, Hsd0, Hlast0.
      intros (_ & _ & (g & _ & (rep & _ & (cov & _
               & ([S' U] & _ & Hrest)%bind_eq_Ok)%bind_eq_Ok)%bind_eq_Ok)%bind_eq_Ok)%bind_eq_Ok.
      apply bind_eq_Ok in Hrest as (sd2 & Hinner & Hrest).
      apply bind_eq_Ok in Hrest as (ev2 & Hsetcol & [= <- <-]).
      unfold range in Hinner.
      replace (Z.to_nat (m - 1)) with (m' - 1)%nat in Hinner by (unfold m'; lia).
      destruct (bootstrap_inner_loop_preserves self1 U sd0 sd2 m' B i Hinner Hsd0 Hlast0)
        as [Hsd2 Hlast2].
      split; [exact (setcol_preserves m' B ev0 ev2 i S' Hsetcol Hev0)|].
      split; [exact Hsd2 | exact Hlast2].
    - split; [exact Hzeros|]. split; [exact Hzeros|]. simpl.
      apply lookup_replicate_2. unfold m'. lia. }
  simpl in Hev, Hsd, Hlast.
  apply bind_eq_Ok in Hrun as (smax & Hmax & Hrun).
  apply bind_eq_Ok in Hrun as (smin & Hmin & Hrun).
  apply bind_eq_Ok in Hrun as (emax & _ & Hrun).
  apply bind_eq_Ok in Hrun as (emin & _ & Hrun).
  injection Hrun as <- <- <- <- <- <-.
  destruct (reduce_rows_Ok amax m' B sd smax (m' - 1) (amax_zeros B HBpos) Hmax Hsd Hlast)
    as [Hmaxlen Hmax0].
  destruct (reduce_rows_Ok amin m' B sd smin (m' - 1) (amin_zeros B HBpos) Hmin Hsd Hlast)
    as [Hminlen Hmin0].
  replace (Z.to_nat (m - 1)) with (m' - 1)%nat by (unfold m'; lia).
  unfold len. rewrite Hmaxlen, Hminlen, List.length_map.
  destruct Hsd as [Hsdlen _]. rewrite Hsdlen.
  split; [unfold m'; lia|]. split; [unfold m'; lia|]. split; [unfold m'; lia|].
  split; [exact Hmax0|]. split; [exact Hmin0|].
  change map with (@fmap list _). rewrite list_lookup_fmap, Hlast. simpl.
  rewrite mean_zeros. reflexivity.
Qed.

End bootstrap_result.

(** C10.  For [M_boot ≥ 1] (and [m > 0], as the constructor asserts):
    whenever [bootstrap] returns, each of the three subspace-distance arrays
    (max, min, mean) has length [m] and the entry 0 at index [m − 1], because
    the inner loop fills rows [0] to [m − 2] of the zero-initialised array
    only; and [bootstrap] does return on an engine that holds an [M]×[m]
    gradient array and an [m]×[m] eigenvector array, for draws in range. *)
Theorem C10_last_subspace_distance_is_zero `{Functional} `{Numpy}
    (self : ASFEniCSx.t) (M_boot : Z) (draws : nat → list nat) :
  let M := sampling.M (ASFEniCSx.samples self) in
  let m := sampling.m (ASFEniCSx.samples self) in
  1 ≤ M_boot → 0 < m →
  (∀ (e_max e_min sub_max sub_min sub_mean : vec) (self' : ASFEniCSx.t),
     ASFEniCSx.bootstrap self M_boot draws
       = Ok (((e_max, e_min), (sub_max, sub_min, sub_mean)), self') →
     len sub_max = m ∧ len sub_min = m ∧ len sub_mean = m
     ∧ sub_max !! Z.to_nat (m - 1) = Some f0
     ∧ sub_min !! Z.to_nat (m - 1) = Some f0
     ∧ sub_mean !! Z.to_nat (m - 1) = Some f0)
  ∧ (∀ G W : mat,
       0 < M →
       ASFEniCSx.gradients self = Some G → shape2 G M m = true →
       ASFEniCSx._eigenvectors self = Some W → shape2 W m m = true →
       (∀ i, (i < Z.to_nat M_boot)%nat →
             length (draws i) = Z.to_nat M
             ∧ Forall (λ r, (r < Z.to_nat M)%nat) (draws i)) →
       eigh_contract m → argsort_contract →
       ∃ result, ASFEniCSx.bootstrap self M_boot draws = Ok result).
Proof.
  intros M m HB Hm. split.
  - intros e_max e_min sub_max sub_min sub_mean self' Hrun.
    exact (bootstrap_result self self' M_boot draws e_max e_min sub_max sub_min
             sub_mean HB Hm Hrun).
  - intros G W HM HG HGshape HW HWshape Hdraws Heigh Hsort.
    destruct (bootstrap_returns self M_boot draws G W HB HM Hm HG HGshape HW
                HWshape Hdraws Heigh Hsort)
      as (e_max & e_min & sub_max & sub_min & sub_mean & self' & Hrun & _).
    eauto.
Qed.

Lemma C10_last_subspace_distance_is_zero_witness :
  let G := [[of_Z 2; f0]; [f0; of_Z 2]] in
  let self := ASFEniCSx.mk 1
                (sampling.mk "sampling" 2 2 (Some [[f1; f0]; [f0; f1]]) None None true)
                true (Some G) (Some [of_Z 2; of_Z 2]) (Some (identity 2))
                None None None in
  ∃ (e_max e_min sub_max sub_min sub_mean : vec) (self' : ASFEniCSx.t),
    @ASFEniCSx.bootstrap demo_functional demo_numpy self 2 (λ _, [0; 1]%nat)
      = Ok (((e_max, e_min), (sub_max, sub_min, sub_mean)), self')
    ∧ len sub_max = 2 ∧ len sub_min = 2 ∧ len sub_mean = 2
    ∧ sub_max !! Z.to_nat (2 - 1) = Some f0
    ∧ sub_min !! Z.to_nat (2 - 1) = Some f0
    ∧ sub_mean !! Z.to_nat (2 - 1) = Some f0.
Proof.
  intros G self.
  destruct (@C10_last_subspace_distance_is_zero demo_functional demo_numpy
              self 2 (λ _, [0; 1]%nat)) as [Hresult Hreturns].
  - lia.
  - simpl. lia.
  - destruct (Hreturns G (identity 2))
      as [[[[e_max e_min] [[sub_max sub_min] sub_mean]] self'] Hrun].
    + simpl. lia.
    + reflexivity.
    + reflexivity.
    + reflexivity.
    + reflexivity.
    + intros i _. split; [reflexivity|]. repeat constructor.
    + apply demo_eigh_contract.
    + apply demo_argsort_contract.
    + exists e_max, e_min, sub_max, sub_min, sub_mean, self'.
      split; [exact Hrun|].
      exact (Hresult e_max e_min sub_max sub_min sub_mean self' Hrun).
Defined.

(** * Further properties of the sample container *)

Lemma invariant_spec (self : sampling.t) :
  invariant self = true ↔
  ∃ a, sampling._array self = Some a
       ∧ shape2 a (sampling.M self) (sampling.m self) = true
       ∧ ∀ v, sampling._values self = Some v → shape1 v (sampling.M self) = true.
Proof.
  unfold invariant. split.
  - intros [Ha Hv]%andb_true_iff.
    destruct (sampling._array self) as [a|]; [|discriminate].
    exists a. split; [reflexivity|]. split; [exact Ha|].
    intros v Hv'. rewrite Hv' in Hv. exact Hv.
  - intros (a & -> & Ha & Hv). rewrite Ha. simpl.
    destruct (sampling._values self) as [v|]; [apply Hv|]; reflexivity.
Qed.

Lemma item_Some {A : Type} (l : list A) (i : nat) (x : A) :
  l !! i = Some x → item l i = Ok x.
Proof. unfold item. intros ->. reflexivity. Qed.

Lemma in_bounds_spec (self : sampling.t) (index : Z) :
  sampling.in_bounds self index = true ↔ 0 ≤ index < sampling.M self.
Proof. unfold sampling.in_bounds. rewrite andb_true_iff, Z.leb_le, Z.ltb_lt. reflexivity. Qed.

Lemma row_in_bounds (a : mat) (M m index : Z) :
  shape2 a M m = true → 0 ≤ index < M →
  ∃ row, a !! Z.to_nat index = Some row ∧ len row = m.
Proof.
  intros [Hrows Hcols]%shape2_spec Hi.
  destruct (lookup_lt_is_Some_2 a (Z.to_nat index)) as [row Hrow];
    [unfold len in Hrows; lia|].
  exists row. split; [exact Hrow|].
  exact (Forall_lookup_1 _ _ _ _ Hcols Hrow).
Qed.

(** X1.  The constructor fails on [M ≤ 0] or [m ≤ 0] with an assertion
    error; otherwise, the generator having returned an [M]×[m] array, it
    yields a container that satisfies the shape invariant, with no values. *)
Theorem sampling_init_invariant (M m : Z) (debug : bool) (draw : mat) :
  shape2 draw M m = true →
  (0 < M ∧ 0 < m
   ∧ ∃ s, sampling.__init__ M m debug draw = Ok s
          ∧ invariant s = true
          ∧ sampling.M s = M ∧ sampling.m s = m
          ∧ sampling._array s = Some draw ∧ sampling._values s = None)
  ∨ (¬ (0 < M ∧ 0 < m)
     ∧ ∃ msg, sampling.__init__ M m debug draw = Raise (AssertionError msg)).
Proof.
  intros Hdraw. unfold sampling.__init__, assert.
  destruct (Z.ltb_spec 0 M) as [HM|HM]; [|right; split; [lia | eauto]].
  destruct (Z.ltb_spec 0 m) as [Hm|Hm]; [|right; split; [lia | eauto]].
  left. split; [exact HM|]. split; [exact Hm|]. simpl.
  eexists. split; [reflexivity|]. unfold invariant. simpl. rewrite Hdraw.
  repeat split; reflexivity.
Qed.

Lemma sampling_init_invariant_witness :
  (0 < 2 ∧ 0 < 1
   ∧ ∃ s, sampling.__init__ 2 1 true [[f0]; [f1]] = Ok s
          ∧ invariant s = true
          ∧ sampling.M s = 2 ∧ sampling.m s = 1
          ∧ sampling._array s = Some [[f0]; [f1]] ∧ sampling._values s = None)
  ∨ (¬ (0 < 2 ∧ 0 < 1)
     ∧ ∃ msg, sampling.__init__ 2 1 true [[f0]; [f1]] = Raise (AssertionError msg)).
Proof. apply (sampling_init_invariant 2 1 true [[f0]; [f1]]). reflexivity. Defined.

(** X2.  [extract], [replace], [assign_value] and [extract_value] all end
    in the assertion error "Index out of bounds" when the index is outside
    [0, M), whatever the container holds. *)
Theorem sampling_index_out_of_bounds (self : sampling.t) (index : Z)
    (sample : vec) (value : F) :
  ¬ (0 ≤ index < sampling.M self) →
  sampling.extract self index = Raise (AssertionError "Index out of bounds")
  ∧ sampling.replace self index sample = Raise (AssertionError "Index out of bounds")
  ∧ sampling.assign_value self index value = Raise (AssertionError "Index out of bounds")
  ∧ sampling.extract_value self index = Raise (AssertionError "Index out of bounds").
Proof.
  intros Hout.
  assert (sampling.in_bounds self index = false) as Hb.
  { apply not_true_iff_false. rewrite in_bounds_spec. exact Hout. }
  unfold sampling.extract, sampling.replace, sampling.assign_value,
    sampling.extract_value. rewrite Hb. repeat split; reflexivity.
Qed.

Lemma sampling_index_out_of_bounds_witness :
  let self := sampling.mk "sampling" 1 1 (Some [[f0]]) (Some [f1]) None true in
  sampling.extract self 1 = Raise (AssertionError "Index out of bounds")
  ∧ sampling.replace self 1 [f1] = Raise (AssertionError "Index out of bounds")
  ∧ sampling.assign_value self 1 f1 = Raise (AssertionError "Index out of bounds")
  ∧ sampling.extract_value self 1 = Raise (AssertionError "Index out of bounds").
Proof.
  intros self. apply (sampling_index_out_of_bounds self 1 [f1] f1). simpl. lia.
Defined.



(** In the embedding a value array holds the values themselves: what
    [assign_values] and [assign_value] store is what [extract_value] reads. *)
Lemma assign_values_lookup (self : sampling.t) (f : vec → F) (a : mat) :
  invariant self = true → sampling._array self = Some a →
  let self' := sampling.set_values self (map f a) in
  sampling.assign_values self f = Ok self'
  ∧ invariant self' = true
  ∧ ∀ index, 0 ≤ index < sampling.M self →
      ∃ row, sampling.extract self index = Ok row
             ∧ sampling.extract_value self' index = Ok (f row).
Proof.
  intros Hinv Ha self'.
  pose proof Hinv as (a' & Ha' & Hshape & _)%invariant_spec.
  rewrite Ha in Ha'. injection Ha' as <-.
  split; [unfold sampling.assign_values, sampling.get_array; rewrite Ha; reflexivity|].
  split.
  { apply invariant_spec. exists a. split; [simpl; exact Ha|]. split; [exact Hshape|].
    simpl. intros v [= <-]. apply shape1_spec.
    apply shape2_spec in Hshape as [Hrows _]. unfold len in *.
    rewrite List.length_map. exact Hrows. }
  intros index Hi.
  destruct (row_in_bounds a _ _ index Hshape Hi) as (row & Hrow & _).
  exists row. split.
  { unfold sampling.extract, sampling.get_array.
    rewrite (proj2 (in_bounds_spec self index) Hi), Ha. simpl.
    apply item_Some, Hrow. }
  unfold sampling.extract_value, sampling.get_values, sampling.in_bounds. simpl.
  fold (sampling.in_bounds self index).
  rewrite (proj2 (in_bounds_spec self index) Hi). simpl.
  apply item_Some. change map with (@fmap list _).
  rewrite list_lookup_fmap, Hrow. reflexivity.
Qed.

Lemma assign_value_lookup (self : sampling.t) (index : Z) (value : F) :
  invariant self = true →
  0 ≤ index < sampling.M self →
  ∃ self', sampling.assign_value self index value = Ok self'
    ∧ invariant self' = true
    ∧ sampling._array self' = sampling._array self
    ∧ sampling.M self' = sampling.M self
    ∧ is_Some (sampling._values self')
    ∧ sampling.extract_value self' index = Ok value
    ∧ ∀ j, 0 ≤ j < sampling.M self → j ≠ index →
        sampling.extract_value self' j
        = match sampling._values self with
          | Some _ => sampling.extract_value self j
          | None => Ok f0
          end.
Proof.
  intros Hinv Hi.
  pose proof Hinv as (a & Ha & Hshape & Hv)%invariant_spec.
  set (v := default (replicate (Z.to_nat (sampling.M self)) f0)
                    (sampling._values self)).
  assert (length v = Z.to_nat (sampling.M self)) as Hlen.
  { unfold v. destruct (sampling._values self) as [v0|] eqn:Hv0; simpl.
    - specialize (Hv v0 eq_refl). apply shape1_spec in Hv. unfold len in Hv. lia.
    - apply length_replicate. }
  assert ((match sampling._values self with
           | Some v => Ok v
           | None => zeros1 (sampling.M self)
           end) = Ok v) as Hget.
  { unfold v, zeros1. destruct (sampling._values self); [reflexivity|].
    destruct (Z.ltb_spec (sampling.M self) 0); [lia | reflexivity]. }
  unfold sampling.assign_value.
  rewrite (proj2 (in_bounds_spec self index) Hi), Hget. simpl.
  rewrite (setitem_in_range v (Z.to_nat index) value) by lia. simpl.
  eexists. split; [reflexivity|]. split.
  { apply invariant_spec. exists a. split; [simpl; exact Ha|]. split; [exact Hshape|].
    simpl. intros v' [= <-]. apply shape1_spec. unfold len.
    rewrite length_insert. lia. }
  split; [reflexivity|]. split; [reflexivity|]. split; [simpl; eauto|]. split.
  { unfold sampling.extract_value, sampling.get_values, sampling.in_bounds. simpl.
    fold (sampling.in_bounds self index).
    rewrite (proj2 (in_bounds_spec self index) Hi). simpl.
    apply item_Some, list_lookup_insert_eq. lia. }
  intros j Hj Hne.
  unfold sampling.extract_value, sampling.get_values, sampling.in_bounds. simpl.
  fold (sampling.in_bounds self j).
  rewrite (proj2 (in_bounds_spec self j) Hj). simpl.
  unfold item. rewrite list_lookup_insert_ne by lia.
  unfold v. destruct (sampling._values self) as [v0|]; simpl; [reflexivity|].
  rewrite lookup_replicate_2 by lia. reflexivity.
Qed.

(** X4.  On a container that satisfies the invariant, [assign_values(f)]
    succeeds and keeps the samples, [M] and the invariant: the value array
    has length [M].  Afterwards [extract_value] succeeds at every index in
    bounds, and [extract_value(0)] is [f] applied to [extract(0)], the
    result whose type [np.apply_along_axis] gives to the value array. *)
Theorem sampling_assign_values_extract_value
    (self : sampling.t) (f : vec → F) (index : Z) :
  invariant self = true →
  0 ≤ index < sampling.M self →
  ∃ self' row0 v, sampling.assign_values self f = Ok self'
    ∧ invariant self' = true
    ∧ sampling._array self' = sampling._array self
    ∧ sampling.M self' = sampling.M self
    ∧ sampling.extract self 0 = Ok row0
    ∧ sampling.extract_value self' 0 = Ok (f row0)
    ∧ sampling.extract_value self' index = Ok v.
Proof.
  intros Hinv Hi.
  pose proof Hinv as (a & Ha & _)%invariant_spec.
  destruct (assign_values_lookup self f a Hinv Ha) as (Hcall & Hinv' & Hread).
  destruct (Hread 0 ltac:(lia)) as (row0 & Hrow0 & Hval0).
  destruct (Hread index Hi) as (row & _ & Hval).
  exists (sampling.set_values self (map f a)), row0, (f row).
  split; [exact Hcall|]. split; [exact Hinv'|].
  split; [reflexivity|]. split; [reflexivity|].
  split; [exact Hrow0|]. split; [exact Hval0 | exact Hval].
Qed.

Lemma sampling_assign_values_extract_value_witness :
  let self := sampling.mk "sampling" 2 1 (Some [[f0]; [f1]]) None None true in
  ∃ self' row0 v, sampling.assign_values self (λ x, vsum x) = Ok self'
    ∧ invariant self' = true
    ∧ sampling._array self' = sampling._array self
    ∧ sampling.M self' = sampling.M self
    ∧ sampling.extract self 0 = Ok row0
    ∧ sampling.extract_value self' 0 = Ok (vsum row0)
    ∧ sampling.extract_value self' 1 = Ok v.
Proof.
  intros self. apply (sampling_assign_values_extract_value self (λ x, vsum x) 1).
  - reflexivity.
  - simpl. lia.
Defined.

(** X5.  On a container that satisfies the invariant and has no value
    array yet, [assign_value(i, x)] with [i] in bounds creates it, as [M]
    float64 zeros, and stores [x]: afterwards [extract_value(i)] is [x] and
    [extract_value] at every other index in bounds is 0.  A second
    [assign_value(j, y)] at another index in bounds stores [y] and leaves
    [x] at [i]; the samples and the invariant are kept throughout. *)
Theorem sampling_assign_value_extract_value
    (self : sampling.t) (i j : Z) (x y : F) :
  invariant self = true →
  sampling._values self = None →
  0 ≤ i < sampling.M self → 0 ≤ j < sampling.M self → i ≠ j →
  ∃ s1 s2, sampling.assign_value self i x = Ok s1
    ∧ invariant s1 = true
    ∧ sampling._array s1 = sampling._array self
    ∧ sampling.extract_value s1 i = Ok x
    ∧ (∀ l, 0 ≤ l < sampling.M self → l ≠ i → sampling.extract_value s1 l = Ok f0)
    ∧ sampling.assign_value s1 j y = Ok s2
    ∧ invariant s2 = true
    ∧ sampling._array s2 = sampling._array self
    ∧ sampling.extract_value s2 j = Ok y
    ∧ sampling.extract_value s2 i = Ok x.
Proof.
  intros Hinv Hnone Hi Hj Hne.
  destruct (assign_value_lookup self i x Hinv Hi)
    as (s1 & Hs1 & Hinv1 & Ha1 & HM1 & Hv1 & Hx & Hrest).
  rewrite Hnone in Hrest.
  destruct (assign_value_lookup s1 j y Hinv1 ltac:(lia))
    as (s2 & Hs2 & Hinv2 & Ha2 & _ & _ & Hy & Hrest2).
  exists s1, s2.
  split; [exact Hs1|]. split; [exact Hinv1|]. split; [exact Ha1|].
  split; [exact Hx|]. split; [exact Hrest|].
  split; [exact Hs2|]. split; [exact Hinv2|].
  split; [rewrite Ha2; exact Ha1|]. split; [exact Hy|].
  rewrite (Hrest2 i ltac:(lia) Hne).
  destruct Hv1 as [v1 Hv1]. rewrite Hv1. exact Hx.
Qed.

Lemma sampling_assign_value_extract_value_witness :
  let self := sampling.mk "sampling" 2 1 (Some [[f0]; [f1]]) None None true in
  ∃ s1 s2, sampling.assign_value self 1 f1 = Ok s1
    ∧ invariant s1 = true
    ∧ sampling._array s1 = sampling._array self
    ∧ sampling.extract_value s1 1 = Ok f1
    ∧ (∀ l, 0 ≤ l < sampling.M self → l ≠ 1 → sampling.extract_value s1 l = Ok f0)
    ∧ sampling.assign_value s1 0 (of_Z 2) = Ok s2
    ∧ invariant s2 = true
    ∧ sampling._array s2 = sampling._array self
    ∧ sampling.extract_value s2 0 = Ok (of_Z 2)
    ∧ sampling.extract_value s2 1 = Ok f1.
Proof.
  intros self. apply (sampling_assign_value_extract_value self 1 0 f1 (of_Z 2)).
  - reflexivity.
  - reflexivity.
  - simpl. lia.
  - simpl. lia.
  - lia.
Defined.

(** X6.  On a container that satisfies the invariant and has no values,
    [add_sample] with a sample of length [m] (supplied, or drawn when none
    is supplied) succeeds, increments [M] and keeps the invariant; the new
    sample is extracted at the old [M], and the earlier samples at their old
    indices. *)
Theorem sampling_add_sample_without_values
    (self : sampling.t) (sample : option vec) (draw : vec) :
  invariant self = true →
  sampling._values self = None →
  shape1 (default draw sample) (sampling.m self) = true →
  ∃ self', sampling.add_sample self sample draw = Ok self'
    ∧ sampling.M self' = sampling.M self + 1
    ∧ sampling.m self' = sampling.m self
    ∧ invariant self' = true
    ∧ sampling.extract self' (sampling.M self) = Ok (default draw sample)
    ∧ ∀ j, 0 ≤ j < sampling.M self →
        sampling.extract self' j = sampling.extract self j.
Proof.
  intros Hinv Hnone Hs.
  pose proof Hinv as (a & Ha & Hshape & _)%invariant_spec.
  pose proof Hshape as [Hrows Hcols]%shape2_spec.
  set (new := default draw sample) in *.
  assert ((match sample with
           | None => Ok draw
           | Some s => _ ← assert (shape1 s (sampling.m self)) "Sample has wrong shape"; Ok s
           end) = Ok new) as Hnew.
  { unfold new in *. destruct sample as [s|]; simpl in *; [|reflexivity].
    rewrite Hs. reflexivity. }
  assert (vstack a new = Ok (a ++ [new])) as Hstack.
  { unfold vstack. rewrite (proj2 (forallb_forall _ _)); [reflexivity|].
    intros row Hrow%list_elem_of_In. apply bool_decide_eq_true.
    rewrite Forall_forall in Hcols. specialize (Hcols row Hrow). simpl in Hcols.
    apply shape1_spec in Hs. unfold len in *. lia. }
  unfold sampling.add_sample, sampling.get_array.
  rewrite Hnew, Ha. simpl. rewrite Hstack. simpl.
  eexists. split; [reflexivity|]. split; [reflexivity|]. split; [reflexivity|].
  assert (0 ≤ sampling.M self) as HM by (unfold len in Hrows; lia).
  split.
  { apply invariant_spec. exists (a ++ [new]). split; [reflexivity|]. simpl.
    split; [|rewrite Hnone; discriminate].
    apply shape2_spec. split.
    - unfold len in *. rewrite length_app. simpl. lia.
    - apply Forall_app. split; [exact Hcols|].
      constructor; [apply shape1_spec, Hs | constructor]. }
  split.
  { unfold sampling.extract, sampling.get_array, sampling.in_bounds. simpl.
    destruct (Z.leb_spec 0 (sampling.M self)); [|lia].
    destruct (Z.ltb_spec (sampling.M self) (sampling.M self + 1)); [|lia]. simpl.
    apply item_Some.
    replace (Z.to_nat (sampling.M self)) with (length a) by (unfold len in Hrows; lia).
    apply list_lookup_middle. reflexivity. }
  intros j Hj.
  unfold sampling.extract, sampling.get_array, sampling.in_bounds. simpl. rewrite Ha.
  destruct (Z.leb_spec 0 j); [|lia].
  destruct (Z.ltb_spec j (sampling.M self + 1)); [|lia].
  destruct (Z.ltb_spec j (sampling.M self)); [|lia]. simpl.
  unfold item. rewrite lookup_app_l by (unfold len in Hrows; lia). reflexivity.
Qed.

Lemma sampling_add_sample_without_values_witness :
  let self := sampling.mk "sampling" 1 2 (Some [[f0; f1]]) None None true in
  ∃ self', sampling.add_sample self None [f1; f1] = Ok self'
    ∧ sampling.M self' = sampling.M self + 1
    ∧ sampling.m self' = sampling.m self
    ∧ invariant self' = true
    ∧ sampling.extract self' (sampling.M self) = Ok (default [f1; f1] None)
    ∧ ∀ j, 0 ≤ j < sampling.M self →
        sampling.extract self' j = sampling.extract self j.
Proof.
  intros self. apply (sampling_add_sample_without_values self None [f1; f1]).
  - reflexivity.
  - reflexivity.
  - reflexivity.
Defined.

Lemma filter_true_existsb (row : list bool) :
  if existsb id row
  then ∃ r, filter (λ x, x = true) row = true :: r
  else filter (λ x, x = true) row = [].
Proof.
  induction row as [|[|] row IH]; simpl.
  - reflexivity.
  - rewrite filter_cons_True by reflexivity. eauto.
  - rewrite filter_cons_False by discriminate. exact IH.
Qed.

Lemma where_rows_head (b : list (list bool)) (f : nat → nat) :
  head (concat (imap (λ i row, map (λ _, f i) (filter (λ x, x = true) row)) b))
  = (λ p, f p.1) <$> list_find (λ row, existsb id row = true) b.
Proof.
  revert f. induction b as [|row b IH]; intros f; [reflexivity|].
  rewrite imap_cons. simpl.
  pose proof (filter_true_existsb row) as Hrow.
  destruct (existsb id row) eqn:Hex.
  - destruct Hrow as [r ->]. rewrite decide_True by reflexivity. reflexivity.
  - rewrite Hrow. rewrite decide_False by discriminate. simpl.
    change (head (concat (imap (λ i row, map (λ _, (f ∘ S) i)
                                 (filter (λ x, x = true) row)) b))
            = (λ p, f p.1) <$> (prod_map S id
                                  <$> list_find (λ row, existsb id row = true) b)).
    rewrite IH. destruct (list_find _ b) as [[i x]|]; reflexivity.
Qed.

Lemma list_find_equal (a : mat) (s : vec) :
  list_find (λ row, existsb id row = true) (equal a s)
  = prod_map id (λ row, zip_with feqb row s)
      <$> list_find (λ row, shares_coordinate row s = true) a.
Proof.
  unfold equal. induction a as [|row a IH]; [reflexivity|]. simpl.
  unfold shares_coordinate at 1.
  destruct (decide (existsb id (zip_with feqb row s) = true)); [reflexivity|].
  rewrite IH. destruct (list_find _ a) as [[i x]|]; reflexivity.
Qed.

Lemma any_equal (a : mat) (s : vec) :
  any (equal a s) = bool_decide (is_Some (list_find (λ row, shares_coordinate row s = true) a)).
Proof.
  unfold any, equal. induction a as [|row a IH]; [reflexivity|]. simpl.
  destruct (decide (shares_coordinate row s = true)) as [Hex|Hex].
  - unfold shares_coordinate in Hex. rewrite Hex. reflexivity.
  - apply not_true_is_false in Hex. unfold shares_coordinate in Hex.
    rewrite Hex, IH. simpl.
    destruct (list_find _ a) as [[i x]|]; reflexivity.
Qed.

Lemma index_value (self : sampling.t) (a : mat) (s : vec) :
  sampling._array self = Some a →
  shape1 s (sampling.m self) = true →
  sampling.index self s
  = match list_find (λ row, shares_coordinate row s = true) a with
    | Some (i, _) => Ok i
    | None => Raise (AssertionError "Sample is not in the sampling array")
    end.
Proof.
  intros Ha Hs. unfold sampling.index, sampling.get_array.
  rewrite Hs, Ha. simpl. rewrite any_equal.
  unfold item. rewrite <- head_lookup. unfold where_rows.
  pose proof (where_rows_head (equal a s) (λ i, i)) as Hhead.
  cbv beta in Hhead. rewrite Hhead, list_find_equal.
  destruct (list_find _ a) as [[i x]|]; reflexivity.
Qed.

(** X7.  [index(s)], for a sample of length [m], returns the position of
    the first row that agrees with [s] in at least one coordinate, and ends
    in the assertion error "Sample is not in the sampling array" when no row
    does. *)
Theorem sampling_index_first_shared_coordinate
    (self : sampling.t) (a : mat) (s : vec) :
  sampling._array self = Some a →
  shape1 s (sampling.m self) = true →
  sampling.index self s
  = match list_find (λ row, shares_coordinate row s = true) a with
    | Some (i, _) => Ok i
    | None => Raise (AssertionError "Sample is not in the sampling array")
    end.
Proof. exact (index_value self a s). Qed.

Lemma sampling_index_first_shared_coordinate_witness :
  let a := [[f0; f0]; [f1; f0]; [f1; f1]] in
  let self := sampling.mk "sampling" 3 2 (Some a) None None true in
  sampling.index self [f1; f1]
  = match list_find (λ row, shares_coordinate row [f1; f1] = true) a with
    | Some (i, _) => Ok i
    | None => Raise (AssertionError "Sample is not in the sampling array")
    end.
Proof.
  intros a self.
  apply (sampling_index_first_shared_coordinate self a [f1; f1]); reflexivity.
Defined.

Lemma shares_coordinate_self (row : vec) :
  (0 < length row)%nat → shares_coordinate row row = true.
Proof.
  destruct row as [|x row]; simpl; [lia|]. intros _.
  unfold shares_coordinate. simpl.
  replace (feqb x x) with true; [reflexivity|].
  symmetry. unfold feqb. apply Qeq_bool_iff. reflexivity.
Qed.

(** X8.  On a container that satisfies the invariant, with [m > 0],
    [index(extract(i))] succeeds for every [i] in bounds and returns an
    index that is at most [i]. *)
Theorem sampling_index_of_extracted (self : sampling.t) (i : Z) :
  invariant self = true → 0 < sampling.m self → 0 ≤ i < sampling.M self →
  ∃ row j, sampling.extract self i = Ok row
           ∧ sampling.index self row = Ok j
           ∧ (j ≤ Z.to_nat i)%nat.
Proof.
  intros (a & Ha & Hshape & _)%invariant_spec Hm Hi.
  destruct (row_in_bounds a _ _ i Hshape Hi) as (row & Hrow & Hlen).
  exists row.
  assert (shares_coordinate row row = true) as Hself
    by (apply shares_coordinate_self; unfold len in Hlen; lia).
  rewrite (index_value self a row Ha
             (proj2 (shape1_spec row _) Hlen)).
  destruct (list_find (λ r, shares_coordinate r row = true) a) as [[j y]|] eqn:Hfind.
  - exists j. split.
    { unfold sampling.extract, sampling.get_array.
      rewrite (proj2 (in_bounds_spec self i) Hi), Ha. simpl.
      apply item_Some, Hrow. }
    split; [reflexivity|].
    apply list_find_Some in Hfind as (_ & _ & Hfirst).
    destruct (le_lt_dec j (Z.to_nat i)) as [Hle|Hgt]; [exact Hle|].
    exfalso. exact (Hfirst _ _ Hrow Hgt Hself).
  - exfalso. apply list_find_None in Hfind. rewrite Forall_forall in Hfind.
    apply (Hfind row); [|exact Hself].
    apply list_elem_of_lookup. eauto.
Qed.

Lemma sampling_index_of_extracted_witness :
  let self := sampling.mk "sampling" 2 2 (Some [[f1; f0]; [f1; f1]]) None None true in
  ∃ row j, sampling.extract self 1 = Ok row
           ∧ sampling.index self row = Ok j
           ∧ (j ≤ Z.to_nat 1)%nat.
Proof.
  intros self. apply (sampling_index_of_extracted self 1).
  - reflexivity.
  - simpl. lia.
  - simpl. lia.
Defined.

(** X9.  [load] validates the record before it looks at [overwrite]: with
    no "_array" key it ends in a [KeyError]; with an "_array" entry that is
    a scalar, a flat list, or a rectangular list of lists of another shape
    than [(M, m)], it ends in the assertion error "Array has wrong shape",
    whatever [overwrite] is and whatever the container holds. *)
Theorem sampling_load_validates
    (self : sampling.t) (data : gmap string jvalue) (overwrite : bool) :
  (data !! "_array" = None →
     sampling.load self data overwrite = Raise (KeyError "_array"))
  ∧ (∀ j, data !! "_array" = Some j →
       (∀ a, j = JArr2 a →
          rectangular a ∧ shape2 a (sampling.M self) (sampling.m self) = false) →
       sampling.load self data overwrite
       = Raise (AssertionError "Array has wrong shape")).
Proof.
  unfold sampling.load. split.
  - intros ->. reflexivity.
  - intros j -> Hbad. simpl.
    destruct j as [s|z|b|v|a]; try reflexivity.
    destruct (Hbad a eq_refl) as [_ ->]. reflexivity.
Qed.

Lemma sampling_load_validates_witness :
  let self := sampling.mk "sampling" 1 1 None None None true in
  (sampling.load self ∅ true = Raise (KeyError "_array"))
  ∧ (sampling.load self {[ "_array" := JArr2 [[f0; f1]] ]} true
     = Raise (AssertionError "Array has wrong shape")).
Proof.
  intros self. split.
  - apply (sampling_load_validates self ∅ true). reflexivity.
  - apply (proj2 (sampling_load_validates self {[ "_array" := JArr2 [[f0; f1]] ]} true)
             (JArr2 [[f0; f1]])).
    + reflexivity.
    + intros a [= <-]. split; [|reflexivity].
      exists 2%nat. repeat constructor.
Defined.

(** X10.  On a record whose "_values" entry, if there is one, is a flat
    list of numbers: whenever [load] returns, the record had an "_array"
    entry of shape [(M, m)], which is now the coordinate array; the
    container had no samples or [overwrite] was set; [M] and [m] are
    unchanged; and the value array is the record's "_values" entry if it has
    one, of whatever length, and the previous value array otherwise. *)
Theorem sampling_load_result
    (self self' : sampling.t) (data : gmap string jvalue) (overwrite : bool) :
  (data !! "_values" = None ∨ ∃ v, data !! "_values" = Some (JArr1 v)) →
  sampling.load self data overwrite = Ok self' →
  ∃ a, data !! "_array" = Some (JArr2 a)
       ∧ shape2 a (sampling.M self) (sampling.m self) = true
       ∧ (overwrite = true ∨ sampling._array self = None)
       ∧ sampling._array self' = Some a
       ∧ sampling.M self' = sampling.M self
       ∧ sampling.m self' = sampling.m self
       ∧ sampling._values self'
         = match data !! "_values" with
           | Some (JArr1 v) => Some v
           | _ => sampling._values self
           end.
Proof.
  intros _. unfold sampling.load.
  destruct (data !! "_array") as [[s|z|b|v|a]|]; try discriminate. simpl.
  destruct (shape2 a (sampling.M self) (sampling.m self)) eqn:Hshape;
    [|discriminate]. simpl.
  destruct (negb (bool_decide (is_Some (sampling._array self))) || overwrite)
    eqn:Hguard; [|discriminate].
  intros Hload. exists a. split; [reflexivity|]. split; [exact Hshape|].
  split.
  { apply orb_true_iff in Hguard as [Hnone|Hover]; [right | left; exact Hover].
    apply negb_true_iff, bool_decide_eq_false in Hnone.
    destruct (sampling._array self); [|reflexivity].
    exfalso. apply Hnone. eauto. }
  destruct (data !! "_values") as [[s|z|b|v|a']|]; try discriminate;
    injection Hload as <-; repeat split; reflexivity.
Qed.

Lemma sampling_load_result_witness :
  let self := sampling.mk "sampling" 1 1 (Some [[f0]]) (Some [f0]) None true in
  let data : gmap string jvalue :=
    {[ "_array" := JArr2 [[f1]]; "_values" := JArr1 [f1; f0] ]} in
  let self' := sampling.set_values (sampling.set_array self [[f1]]) [f1; f0] in
  ∃ a, data !! "_array" = Some (JArr2 a)
       ∧ shape2 a (sampling.M self) (sampling.m self) = true
       ∧ (true = true ∨ sampling._array self = None)
       ∧ sampling._array self' = Some a
       ∧ sampling.M self' = sampling.M self
       ∧ sampling.m self' = sampling.m self
       ∧ sampling._values self'
         = match data !! "_values" with
           | Some (JArr1 v) => Some v
           | _ => sampling._values self
           end.
Proof.
  intros self data self'.
  apply (sampling_load_result self self' data true).
  - right. exists [f1; f0]. vm_compute. reflexivity.
  - vm_compute. reflexivity.
Defined.

(** X11.  A container built by the constructor already holds samples:
    [random_uniform()] on it ends in an [AttributeError], and
    [random_uniform(overwrite=True)] replaces the coordinate array by the new
    draw, which keeps the invariant when the draw has shape [(M, m)]. *)
Theorem sampling_random_uniform_after_init
    (M m : Z) (debug : bool) (draw draw' : mat) (s : sampling.t) :
  sampling.__init__ M m debug draw = Ok s →
  sampling.random_uniform s false draw'
  = Raise (AttributeError "Samples already exist. Use overwrite=True to overwrite them")
  ∧ ∃ s', sampling.random_uniform s true draw' = Ok s'
          ∧ sampling._array s' = Some draw'
          ∧ sampling._values s' = None
          ∧ sampling.M s' = M ∧ sampling.m s' = m
          ∧ (shape2 draw' M m = true → invariant s' = true).
Proof.
  intros (-> & _ & _)%init_fields. split; [reflexivity|].
  eexists. split; [reflexivity|]. repeat split.
  intros Hshape. unfold invariant. simpl. rewrite Hshape. reflexivity.
Qed.

Lemma sampling_random_uniform_after_init_witness :
  let s := sampling.mk "sampling" 1 1 (Some [[f0]]) None None true in
  sampling.random_uniform s false [[f1]]
  = Raise (AttributeError "Samples already exist. Use overwrite=True to overwrite them")
  ∧ ∃ s', sampling.random_uniform s true [[f1]] = Ok s'
          ∧ sampling._array s' = Some [[f1]]
          ∧ sampling._values s' = None
          ∧ sampling.M s' = 1 ∧ sampling.m s' = 1
          ∧ (shape2 [[f1]] 1 1 = true → invariant s' = true).
Proof.
  intros s.
  apply (sampling_random_uniform_after_init 1 1 true [[f0]] [[f1]] s).
  reflexivity.
Defined.

(** * Further properties of the engine *)

(** X12.  [partition] checks [n > m] only.  For every integer [n ≤ m], on
    an [m]×[m] eigenvector array [W], it returns the split of [W] after
    column [n] for [n ≥ 0], and after column [m + n] (clipped at 0) for a
    negative [n], as Python slices do; stacking the two parts side by side
    gives [W] back, and the first part is retained as [W1]. *)
Theorem partition_any_n (self : ASFEniCSx.t) (W : mat) (n : Z) :
  let m := sampling.m (ASFEniCSx.samples self) in
  let k := Z.to_nat (if n <? 0 then Z.max 0 (m + n) else n) in
  ASFEniCSx._eigenvectors self = Some W →
  shape2 W m m = true →
  n ≤ m →
  ∃ W1 W2 : mat,
    ASFEniCSx.partition self n = Ok ((W1, W2), ASFEniCSx.set_W1 self W1)
    ∧ W1 = map (take k) W
    ∧ W2 = map (drop k) W
    ∧ hstack W1 W2 = W.
Proof.
  intros m k HW Hshape Hn.
  pose proof (proj1 (shape2_spec W m m) Hshape) as [Hrows Hcols].
  assert (cols_to n W = map (take k) W ∧ cols_from n W = map (drop k) W)
    as [Hto Hfrom].
  { unfold cols_to, cols_from.
    split; apply map_ext_Forall; (eapply Forall_impl; [exact Hcols|]);
      intros row Hrow; simpl in Hrow; unfold slice_to, slice_from, slice_bound;
      rewrite Hrow; unfold k; destruct (Z.ltb_spec n 0);
      try reflexivity; f_equal; f_equal; lia. }
  exists (cols_to n W), (cols_from n W). split.
  { rewrite partition_unfold. fold m.
    destruct (Z.gtb_spec n m); [lia|]. rewrite HW. reflexivity. }
  rewrite Hto, Hfrom. repeat split. apply hstack_take_drop.
Qed.

Lemma partition_any_n_witness :
  let self := ASFEniCSx.mk 1
                (sampling.mk "sampling" 1 2 (Some [[f0; f1]]) None None true)
                true None (Some [f1; f0]) (Some (identity 2)) None None None in
  ∃ W1 W2 : mat,
    ASFEniCSx.partition self (-1) = Ok ((W1, W2), ASFEniCSx.set_W1 self W1)
    ∧ W1 = map (take 1) (identity 2)
    ∧ W2 = map (drop 1) (identity 2)
    ∧ hstack W1 W2 = identity 2.
Proof.
  intros self. apply (partition_any_n self (identity 2) (-1)).
  - reflexivity.
  - reflexivity.
  - simpl. lia.
Defined.

Section engine_extras.
Context `{Functional} `{Numpy}.

Lemma estimation_unfold (self : ASFEniCSx.t) (G : mat) :
  ASFEniCSx.gradients self = Some G →
  ASFEniCSx.estimation self
  = cov ← ASFEniCSx.covariance self G;
    '(S', U) ← ASFEniCSx.calculate_eigenpairs cov;
    Ok ((U, S'), ASFEniCSx.set_eigenpairs self S' U).
Proof.
  intros HG. unfold ASFEniCSx.estimation.
  rewrite (hasattr_gradients self G HG). simpl. rewrite HG. reflexivity.
Qed.

Lemma estimation_fields (self self' : ASFEniCSx.t) (U : mat) (S' : vec) :
  ASFEniCSx.estimation self = Ok ((U, S'), self') →
  ASFEniCSx._eigenvalues self' = Some S'
  ∧ ASFEniCSx._eigenvectors self' = Some U
  ∧ ASFEniCSx.samples self' = ASFEniCSx.samples self
  ∧ is_Some (ASFEniCSx.gradients self').
Proof.
  unfold ASFEniCSx.estimation.
  intros (self1 & Hself1 & (g & Hg & (cov & _ & ([e W] & _ & [= <- <- <-])%bind_eq_Ok
            )%bind_eq_Ok)%bind_eq_Ok)%bind_eq_Ok.
  simpl. split; [reflexivity|]. split; [reflexivity|]. split.
  - destruct (negb (ASFEniCSx.hasattr self "gradients")).
    + apply bind_eq_Ok in Hself1 as ([g0 s1] & Hev & [= <-]).
      exact (evaluate_gradients_samples self s1 g0 Hev).
    + injection Hself1 as <-. reflexivity.
  - destruct (ASFEniCSx.gradients self1); [eauto | discriminate].
Qed.

End engine_extras.

(** X13.  With a cached gradient array, [estimation] never calls the
    functional: its result is that of [calculate_eigenpairs] on the
    covariance of the cached array, the same for every functional. *)
Theorem estimation_reuses_gradients (fn1 fn2 : Functional) `{Numpy}
    (self : ASFEniCSx.t) (G : mat) :
  ASFEniCSx.gradients self = Some G →
  @ASFEniCSx.estimation fn1 _ self = @ASFEniCSx.estimation fn2 _ self
  ∧ @ASFEniCSx.estimation fn1 _ self
    = cov ← ASFEniCSx.covariance self G;
      '(S', U) ← ASFEniCSx.calculate_eigenpairs cov;
      Ok ((U, S'), ASFEniCSx.set_eigenpairs self S' U).
Proof.
  intros HG. rewrite !(estimation_unfold self G HG). split; reflexivity.
Qed.

Lemma estimation_reuses_gradients_witness :
  let G := [[of_Z 2; f0]; [f0; of_Z 2]] in
  let self := ASFEniCSx.mk 1
                (sampling.mk "sampling" 2 2 (Some [[f1; f0]; [f0; f1]]) None None true)
                true (Some G) None None None None None in
  let other := {| evaluate := λ _, f0; gradient := λ _ _, [] |} in
  @ASFEniCSx.estimation demo_functional demo_numpy self
  = @ASFEniCSx.estimation other demo_numpy self
  ∧ @ASFEniCSx.estimation demo_functional demo_numpy self
    = cov ← ASFEniCSx.covariance self G;
      '(S', U) ← @ASFEniCSx.calculate_eigenpairs demo_numpy cov;
      Ok ((U, S'), ASFEniCSx.set_eigenpairs self S' U).
Proof.
  intros G self other.
  apply (@estimation_reuses_gradients demo_functional other demo_numpy self G).
  reflexivity.
Defined.

(** X14.  After a successful [estimation], [eigenvalues()] returns the
    eigenvalues that [estimation] returned, the engine holds the returned
    eigenvector array and a gradient array, and its sample container is the
    one it had.  On an engine that holds no eigenvalues, [eigenvalues()] ends
    in the [AttributeError] of [self._eigenvalues]: its own guard, on the
    method name 'eigenvalues', never fires. *)
Theorem eigenvalues_after_estimation `{Functional} `{Numpy}
    (self : ASFEniCSx.t) :
  (∀ U S' self', ASFEniCSx.estimation self = Ok ((U, S'), self') →
     ASFEniCSx.eigenvalues self' = Ok S'
     ∧ ASFEniCSx._eigenvectors self' = Some U
     ∧ ASFEniCSx.samples self' = ASFEniCSx.samples self
     ∧ is_Some (ASFEniCSx.gradients self'))
  ∧ (ASFEniCSx._eigenvalues self = None →
     ASFEniCSx.eigenvalues self = Raise (AttributeError "_eigenvalues")).
Proof.
  split.
  - intros U S' self' (HS & HU & Hs & Hg)%estimation_fields.
    unfold ASFEniCSx.eigenvalues. rewrite hasattr_eigenvalues, HS. auto.
  - intros Hnone. unfold ASFEniCSx.eigenvalues.
    rewrite hasattr_eigenvalues, Hnone. reflexivity.
Qed.

Lemma eigenvalues_after_estimation_witness :
  let self := ASFEniCSx.mk 1
                (sampling.mk "sampling" 1 2 (Some [[f1; f0]]) None None true)
                true None None None None None None in
  (∃ U S' self',
     @ASFEniCSx.estimation demo_functional demo_numpy self = Ok ((U, S'), self')
     ∧ ASFEniCSx.eigenvalues self' = Ok S'
     ∧ ASFEniCSx._eigenvectors self' = Some U)
  ∧ ASFEniCSx.eigenvalues self = Raise (AttributeError "_eigenvalues").
Proof.
  intros self.
  destruct (@eigenvalues_after_estimation demo_functional demo_numpy self)
    as [Hafter Hbefore].
  split; [|apply Hbefore; reflexivity].
  destruct (@ASFEniCSx.estimation demo_functional demo_numpy self)
    as [[[U S'] self']|e] eqn:He; [|vm_compute in He; discriminate].
  exists U, S', self'. split; [reflexivity|].
  destruct (Hafter U S' self' eq_refl) as (HS & HU & _). auto.
Defined.

(** ** Minima and maxima *)

Lemma fmin_le_l (x y : F) : Qcle (fmin x y) x.
Proof.
  unfold fmin. destruct (fleb x y) eqn:Hxy; [apply Qcle_refl|].
  apply Qclt_le_weak, fleb_gt, Hxy.
Qed.

Lemma fmax_ge_l (x y : F) : Qcle x (fmax x y).
Proof.
  unfold fmax. destruct (fleb x y) eqn:Hxy; [apply fleb_le, Hxy | apply Qcle_refl].
Qed.

Lemma fold_fmin_le (l : vec) (x : F) : Qcle (fold_left fmin l x) x.
Proof.
  revert x. induction l as [|y l IH]; intros x; simpl; [apply Qcle_refl|].
  eapply Qcle_trans; [apply IH | apply fmin_le_l].
Qed.

Lemma fold_fmax_ge (l : vec) (x : F) : Qcle x (fold_left fmax l x).
Proof.
  revert x. induction l as [|y l IH]; intros x; simpl; [apply Qcle_refl|].
  eapply Qcle_trans; [apply fmax_ge_l | apply IH].
Qed.

Lemma amin_le_amax (v : vec) (lo hi : F) :
  amin v = Ok lo → amax v = Ok hi → Qcle lo hi.
Proof.
  destruct v as [|x v]; simpl; [discriminate|]. intros [= <-] [= <-].
  eapply Qcle_trans; [apply fold_fmin_le | apply fold_fmax_ge].
Qed.

Lemma rows_min_le_max (a : mat) (los his : vec) :
  result_map amin a = Ok los → result_map amax a = Ok his →
  Forall2 Qcle los his.
Proof.
  intros Hlo%result_map_Forall2 Hhi%result_map_Forall2.
  revert his Hhi. induction Hlo as [|v lo a los Hv _ IH]; intros his Hhi.
  - inversion Hhi. constructor.
  - inversion Hhi as [|? hi ? his' Hv' Hrest]; subst.
    constructor; [exact (amin_le_amax v lo hi Hv Hv') | apply IH, Hrest].
Qed.

Section bootstrap_extras.
Context `{Functional} `{Numpy}.

Lemma hasattr_gradients_None (self : ASFEniCSx.t) :
  ASFEniCSx.gradients self = None → ASFEniCSx.hasattr self "gradients" = false.
Proof.
  destruct self as [k s d g ev U W eb sb]. simpl. intros ->.
  destruct ev, U, W, eb, sb; reflexivity.
Qed.

(** The tail of [bootstrap]: what it returns is the row-wise reductions of
    two work arrays, and the engine it leaves is the one that ran the loop,
    with the two results attached. *)
Lemma bootstrap_tail (self self' : ASFEniCSx.t) (M_boot : Z)
    (draws : nat → list nat) (e_max e_min sub_max sub_min sub_mean : vec) :
  ASFEniCSx.bootstrap self M_boot draws
    = Ok (((e_max, e_min), (sub_max, sub_min, sub_mean)), self') →
  ∃ (self1 : ASFEniCSx.t) (ev sd : mat),
    ((is_Some (ASFEniCSx.gradients self) ∧ self1 = self)
     ∨ (ASFEniCSx.gradients self = None
        ∧ ∃ g, self1 = ASFEniCSx.set_gradients self g))
    ∧ result_map amax sd = Ok sub_max
    ∧ result_map amin sd = Ok sub_min
    ∧ sub_mean = map mean sd
    ∧ result_map amax ev = Ok e_max
    ∧ result_map amin ev = Ok e_min
    ∧ self' = ASFEniCSx.set_boot self1 (e_max, e_min) (sub_max, sub_min, sub_mean).
Proof.
  unfold ASFEniCSx.bootstrap.
  intros (self1 & Hself1 & Hrun)%bind_eq_Ok.
  rewrite hasattr_eigenvalues in Hrun. simpl in Hrun.
  apply bind_eq_Ok in Hrun as (ev0 & _ & Hrun).
  apply bind_eq_Ok in Hrun as (sd0 & _ & Hrun).
  apply bind_eq_Ok in Hrun as ([ev sd] & _ & Hrun).
  apply bind_eq_Ok in Hrun as (smax & Hsmax & Hrun).
  apply bind_eq_Ok in Hrun as (smin & Hsmin & Hrun).
  apply bind_eq_Ok in Hrun as (emax & Hemax & Hrun).
  apply bind_eq_Ok in Hrun as (emin & Hemin & Hrun).
  injection Hrun as <- <- <- <- <- <-.
  exists self1, ev, sd. split.
  { destruct (ASFEniCSx.gradients self) as [G|] eqn:HG.
    - rewrite (hasattr_gradients self G HG) in Hself1.
      injection Hself1 as <-. left. eauto.
    - rewrite (hasattr_gradients_None self HG) in Hself1. simpl in Hself1.
      apply bind_eq_Ok in Hself1 as ([g s1] & Hev & [= <-]). right.
      unfold ASFEniCSx.evaluate_gradients in Hev.
      apply bind_eq_Ok in Hev as (g0 & _ & (g1 & _ & (g2 & _ & [= _ <-]
              )%bind_eq_Ok)%bind_eq_Ok).
      split; [reflexivity | eauto]. }
  repeat split; assumption.
Qed.

End bootstrap_extras.

(** X15.  Whenever [bootstrap] returns, every lower bound is at most the
    matching upper bound, for the eigenvalues and for the subspace
    distances. *)
Theorem bootstrap_min_le_max `{Functional} `{Numpy}
    (self self' : ASFEniCSx.t) (M_boot : Z) (draws : nat → list nat)
    (e_max e_min sub_max sub_min sub_mean : vec) :
  ASFEniCSx.bootstrap self M_boot draws
    = Ok (((e_max, e_min), (sub_max, sub_min, sub_mean)), self') →
  Forall2 Qcle e_min e_max ∧ Forall2 Qcle sub_min sub_max.
Proof.
  intros (self1 & ev & sd & _ & Hsmax & Hsmin & _ & Hemax & Hemin & _)%bootstrap_tail.
  split; [exact (rows_min_le_max ev _ _ Hemin Hemax)
         | exact (rows_min_le_max sd _ _ Hsmin Hsmax)].
Qed.

(** X16.  Whenever [bootstrap] returns, it has changed the engine in its
    two result attributes only (and in [gradients], if it had to evaluate
    them): the eigenpairs, [W1] and the sample container are those of the
    call, and [e_boot] and [sub_boot] hold the returned arrays. *)
Theorem bootstrap_frame `{Functional} `{Numpy}
    (self self' : ASFEniCSx.t) (M_boot : Z) (draws : nat → list nat)
    (e_max e_min sub_max sub_min sub_mean : vec) :
  ASFEniCSx.bootstrap self M_boot draws
    = Ok (((e_max, e_min), (sub_max, sub_min, sub_mean)), self') →
  ASFEniCSx.e_boot self' = Some (e_max, e_min)
  ∧ ASFEniCSx.sub_boot self' = Some (sub_max, sub_min, sub_mean)
  ∧ ASFEniCSx._eigenvalues self' = ASFEniCSx._eigenvalues self
  ∧ ASFEniCSx._eigenvectors self' = ASFEniCSx._eigenvectors self
  ∧ ASFEniCSx.W1 self' = ASFEniCSx.W1 self
  ∧ ASFEniCSx.samples self' = ASFEniCSx.samples self
  ∧ ASFEniCSx.k self' = ASFEniCSx.k self
  ∧ (is_Some (ASFEniCSx.gradients self) →
     ASFEniCSx.gradients self' = ASFEniCSx.gradients self).
Proof.
  intros (self1 & ev & sd & Hself1 & _ & _ & _ & _ & _ & ->)%bootstrap_tail.
  simpl. split; [reflexivity|]. split; [reflexivity|].
  destruct Hself1 as [[_ ->]|[Hnone [g ->]]]; simpl.
  - repeat split; auto.
  - repeat split; try reflexivity.
    rewrite Hnone. intros [G HG]. discriminate.
Qed.

Lemma bootstrap_min_le_max_witness :
  let G := [[of_Z 2; f0]; [f0; of_Z 2]] in
  let self := ASFEniCSx.mk 1
                (sampling.mk "sampling" 2 2 (Some [[f1; f0]; [f0; f1]]) None None true)
                true (Some G) (Some [of_Z 2; of_Z 2]) (Some (identity 2))
                None None None in
  ∃ (e_max e_min sub_max sub_min sub_mean : vec) (self' : ASFEniCSx.t),
    @ASFEniCSx.bootstrap demo_functional demo_numpy self 2 (λ _, [0; 1]%nat)
      = Ok (((e_max, e_min), (sub_max, sub_min, sub_mean)), self')
    ∧ Forall2 Qcle e_min e_max ∧ Forall2 Qcle sub_min sub_max.
Proof.
  intros G self.
  destruct (@ASFEniCSx.bootstrap demo_functional demo_numpy self 2 (λ _, [0; 1]%nat))
    as [[[[e_max e_min] [[sub_max sub_min] sub_mean]] self']|e] eqn:Hrun;
    [|vm_compute in Hrun; discriminate].
  exists e_max, e_min, sub_max, sub_min, sub_mean, self'.
  split; [reflexivity|].
  exact (@bootstrap_min_le_max demo_functional demo_numpy self self' 2 _
           e_max e_min sub_max sub_min sub_mean Hrun).
Defined.

Lemma bootstrap_frame_witness :
  let G := [[of_Z 2; f0]; [f0; of_Z 2]] in
  let self := ASFEniCSx.mk 1
                (sampling.mk "sampling" 2 2 (Some [[f1; f0]; [f0; f1]]) None None true)
                true (Some G) (Some [of_Z 2; of_Z 2]) (Some (identity 2))
                None None None in
  ∃ (e_max e_min sub_max sub_min sub_mean : vec) (self' : ASFEniCSx.t),
    @ASFEniCSx.bootstrap demo_functional demo_numpy self 2 (λ _, [0; 1]%nat)
      = Ok (((e_max, e_min), (sub_max, sub_min, sub_mean)), self')
    ∧ ASFEniCSx.e_boot self' = Some (e_max, e_min)
    ∧ ASFEniCSx.sub_boot self' = Some (sub_max, sub_min, sub_mean)
    ∧ ASFEniCSx._eigenvectors self' = ASFEniCSx._eigenvectors self
    ∧ ASFEniCSx.samples self' = ASFEniCSx.samples self.
Proof.
  intros G self.
  destruct (@ASFEniCSx.bootstrap demo_functional demo_numpy self 2 (λ _, [0; 1]%nat))
    as [[[[e_max e_min] [[sub_max sub_min] sub_mean]] self']|e] eqn:Hrun;
    [|vm_compute in Hrun; discriminate].
  exists e_max, e_min, sub_max, sub_min, sub_mean, self'.
  split; [reflexivity|].
  destruct (@bootstrap_frame demo_functional demo_numpy self self' 2 _
              e_max e_min sub_max sub_min sub_mean Hrun)
    as (He & Hs & _ & HU & _ & Hsamples & _).
  auto.
Defined.

(** X17.  With a replicate count [M_boot ≤ 0], [bootstrap] on an engine
    with gradients (and [m > 0]) ends in a [ValueError]: from [np.zeros] for
    a negative count, from [np.max] of an empty row for 0. *)
Theorem bootstrap_without_replicates `{Functional} `{Numpy}
    (self : ASFEniCSx.t) (M_boot : Z) (draws : nat → list nat) (G : mat) :
  ASFEniCSx.gradients self = Some G →
  0 < sampling.m (ASFEniCSx.samples self) →
  M_boot ≤ 0 →
  ∃ msg, ASFEniCSx.bootstrap self M_boot draws = Raise (ValueError msg).
Proof.
  intros HG Hm HB. unfold ASFEniCSx.bootstrap.
  rewrite (hasattr_gradients self G HG). simpl.
  rewrite hasattr_eigenvalues. simpl.
  unfold zeros2.
  destruct (Z.ltb_spec (sampling.m (ASFEniCSx.samples self)) 0); [lia|].
  destruct (Z.ltb_spec M_boot 0) as [Hneg|Hzero]; simpl; [eauto|].
  assert (M_boot = 0) as -> by lia. simpl.
  destruct (Z.to_nat (sampling.m (ASFEniCSx.samples self))) as [|m'] eqn:Hm';
    [lia|]. simpl. eauto.
Qed.

Lemma bootstrap_without_replicates_witness :
  let G := [[of_Z 2; f0]; [f0; of_Z 2]] in
  let self := ASFEniCSx.mk 1
                (sampling.mk "sampling" 2 2 (Some [[f1; f0]; [f0; f1]]) None None true)
                true (Some G) (Some [of_Z 2; of_Z 2]) (Some (identity 2))
                None None None in
  ∃ msg, @ASFEniCSx.bootstrap demo_functional demo_numpy self 0 (λ _, [0; 1]%nat)
         = Raise (ValueError msg).
Proof.
  intros G self.
  apply (@bootstrap_without_replicates demo_functional demo_numpy self 0 _ G).
  - reflexivity.
  - simpl. lia.
  - lia.
Defined.

(** X18.  [bootstrap] never runs [estimation] on its own: its guard tests
    the method name 'eigenvalues'.  On an engine with an [M]×[m] gradient
    array and no eigenvector array, with [m ≥ 2] and [M_boot ≥ 1], it ends in
    the [AttributeError] of [self._eigenvectors] in the first replicate. *)
Theorem bootstrap_never_estimates `{Functional} `{Numpy}
    (self : ASFEniCSx.t) (M_boot : Z) (draws : nat → list nat) (G : mat) :
  let M := sampling.M (ASFEniCSx.samples self) in
  let m := sampling.m (ASFEniCSx.samples self) in
  1 ≤ M_boot → 0 < M → 2 ≤ m →
  ASFEniCSx.gradients self = Some G → shape2 G M m = true →
  ASFEniCSx._eigenvectors self = None →
  length (draws 0%nat) = Z.to_nat M →
  Forall (λ r, (r < Z.to_nat M)%nat) (draws 0%nat) →
  eigh_contract m → argsort_contract →
  ASFEniCSx.bootstrap self M_boot draws = Raise (AttributeError "_eigenvectors").
Proof.
  intros M m HB HM Hm HG HGshape HW Hlen Hrange Heigh Hsort.
  apply has_shape_shape2 in HGshape.
  unfold ASFEniCSx.bootstrap.
  rewrite (hasattr_gradients self G HG). simpl.
  rewrite hasattr_eigenvalues. simpl. fold M m.
  destruct (has_shape_zeros m M_boot) as [-> _]; [lia | lia |]. simpl.
  unfold range at 1.
  destruct (Z.to_nat M_boot) as [|B] eqn:HBn; [lia|]. simpl.
  destruct (Z.leb_spec M 0); [lia|]. simpl. rewrite HG. simpl.
  destruct (replicate_rows (Z.to_nat M) (Z.to_nat m) G (draws 0%nat)
              HGshape Hlen Hrange) as (rep & -> & Hrep). simpl.
  destruct (covariance_shape self rep Hrep HM ltac:(fold m; lia))
    as (cov & -> & Hcov). simpl.
  destruct (calculate_eigenpairs_columns cov m Hcov ltac:(lia) Heigh Hsort)
    as (e & row0 & rest & U & idx & _ & _ & _ & _ & _ & -> & _ & _).
  simpl. unfold range.
  destruct (Z.to_nat (m - 1)) as [|k] eqn:Hk; [lia|]. simpl.
  rewrite HW. reflexivity.
Qed.

Lemma bootstrap_never_estimates_witness :
  let G := [[of_Z 2; f0]; [f0; of_Z 2]] in
  let self := ASFEniCSx.mk 1
                (sampling.mk "sampling" 2 2 (Some [[f1; f0]; [f0; f1]]) None None true)
                true (Some G) None None None None None in
  @ASFEniCSx.bootstrap demo_functional demo_numpy self 3 (λ _, [0; 1]%nat)
  = Raise (AttributeError "_eigenvectors").
Proof.
  intros G self.
  apply (@bootstrap_never_estimates demo_functional demo_numpy self 3 _ G).
  - lia.
  - simpl. lia.
  - simpl. lia.
  - reflexivity.
  - reflexivity.
  - reflexivity.
  - reflexivity.
  - repeat constructor.
  - apply demo_eigh_contract.
  - apply demo_argsort_contract.
Defined.

Lemma map_nth_seq_all {A : Type} (d : A) (l : list A) :
  map (λ i, nth i l d) (seq 0 (length l)) = l.
Proof.
  induction l as [|x l IH]; simpl; [reflexivity|].
  f_equal. rewrite <- seq_shift, map_map. exact IH.
Qed.

Lemma hstack_cols (W : mat) (n : Z) : hstack (cols_to n W) (cols_from n W) = W.
Proof.
  unfold hstack, cols_to, cols_from.
  induction W as [|row W IH]; simpl; [reflexivity|].
  rewrite IH. f_equal. unfold slice_to, slice_from. apply take_drop.
Qed.

Section eigenpairs_shapes.
Context `{Numpy}.

Lemma calculate_eigenpairs_shapes (A : mat) (n : Z) :
  shape2 A n n = true → 0 < n → eigh_contract n → argsort_contract →
  ∃ (e : vec) (W : mat) (e' : vec) (W' : mat),
    eigh A = Ok (e, W)
    ∧ ASFEniCSx.calculate_eigenpairs A = Ok (e', W')
    ∧ shape1 e' n = true
    ∧ shape2 W' n n = true
    ∧ Permutation e' (map Qcabs e).
Proof.
  intros HA Hn Heigh Hsort.
  destruct (Heigh A HA) as (e & W & HeW & He & HW).
  apply shape1_spec in He. apply shape2_spec in HW as [HWrows HWcols].
  destruct W as [|row0 rest]; [unfold len in HWrows; simpl in HWrows; lia|].
  assert (length e = Z.to_nat n) as He' by (unfold len in He; lia).
  assert (Forall (λ row : vec, length row = Z.to_nat n) (row0 :: rest)) as HWcols'.
  { eapply Forall_impl; [exact HWcols|]. intros row Hrow. simpl in Hrow.
    unfold len in Hrow. lia. }
  destruct (Hsort (map Qcabs e)) as [Hperm _].
  pose proof Hperm as Hperm'. rewrite List.length_map, He' in Hperm'.
  set (idx := rev (argsort (map Qcabs e))).
  assert (length idx = Z.to_nat n) as Hidx.
  { unfold idx. rewrite length_rev, (Permutation_length Hperm'), length_seq.
    reflexivity. }
  exists e, (row0 :: rest). eexists _, _.
  split; [exact HeW|].
  split; [exact (calculate_eigenpairs_value A (Z.to_nat n) e row0 rest HeW He'
                   HWcols' Hperm')|].
  fold idx. split; [|split].
  - apply shape1_spec. unfold len. rewrite List.length_map. lia.
  - apply shape2_spec. unfold len in *. split.
    + rewrite List.length_map. exact HWrows.
    + apply Forall_map, Forall_forall. intros row _. simpl.
      rewrite length_zip_with, !List.length_map. lia.
  - transitivity (map (λ i, nth i (map Qcabs e) f0)
                      (seq 0 (length (map Qcabs e)))).
    + apply Permutation_map. unfold idx. rewrite <- Hperm.
      apply Permutation_sym, Permutation_rev.
    + rewrite map_nth_seq_all. reflexivity.
Qed.

End eigenpairs_shapes.

(** X19.  On an [n]×[n] input, [calculate_eigenpairs] returns [n]
    eigenvalues and an [n]×[n] eigenvector array, and the eigenvalues it
    returns are the absolute values of the eigensolver's, rearranged. *)
Theorem calculate_eigenpairs_shape `{Numpy} (A : mat) (n : Z) :
  shape2 A n n = true → 0 < n → eigh_contract n → argsort_contract →
  ∃ (e : vec) (W : mat) (e' : vec) (W' : mat),
    eigh A = Ok (e, W)
    ∧ ASFEniCSx.calculate_eigenpairs A = Ok (e', W')
    ∧ shape1 e' n = true
    ∧ shape2 W' n n = true
    ∧ Permutation e' (map Qcabs e).
Proof. exact (calculate_eigenpairs_shapes A n). Qed.

Lemma calculate_eigenpairs_shape_witness :
  let A := [[of_Z (-3); f0]; [f0; of_Z 1]] in
  ∃ (e : vec) (W : mat) (e' : vec) (W' : mat),
    @eigh demo_numpy A = Ok (e, W)
    ∧ @ASFEniCSx.calculate_eigenpairs demo_numpy A = Ok (e', W')
    ∧ shape1 e' 2 = true
    ∧ shape2 W' 2 2 = true
    ∧ Permutation e' (map Qcabs e).
Proof.
  intros A. apply (@calculate_eigenpairs_shape demo_numpy A 2).
  - reflexivity.
  - lia.
  - apply demo_eigh_contract.
  - apply demo_argsort_contract.
Defined.

(** X20.  On an engine with an [M]×[m] gradient array, [estimation]
    succeeds and returns an [m]×[m] eigenvector array [U] and [m]
    eigenvalues [S]; a following [partition(n)], for any [n ≤ m], succeeds,
    its two parts stack to [U], the first is retained as [W1], and
    [eigenvalues()] still returns [S]. *)
Theorem estimation_then_partition `{Functional} `{Numpy}
    (self : ASFEniCSx.t) (G : mat) (n : Z) :
  let M := sampling.M (ASFEniCSx.samples self) in
  let m := sampling.m (ASFEniCSx.samples self) in
  ASFEniCSx.gradients self = Some G → shape2 G M m = true →
  0 < M → 0 < m → n ≤ m →
  eigh_contract m → argsort_contract →
  ∃ (U : mat) (S' : vec) (self' : ASFEniCSx.t) (W1 W2 : mat) (self'' : ASFEniCSx.t),
    ASFEniCSx.estimation self = Ok ((U, S'), self')
    ∧ shape2 U m m = true ∧ shape1 S' m = true
    ∧ ASFEniCSx.partition self' n = Ok ((W1, W2), self'')
    ∧ hstack W1 W2 = U
    ∧ ASFEniCSx.W1 self'' = Some W1
    ∧ ASFEniCSx.eigenvalues self'' = Ok S'.
Proof.
  intros M m HG HGshape HM Hm Hn Heigh Hsort.
  apply has_shape_shape2 in HGshape.
  destruct (covariance_shape self G HGshape HM Hm) as (cov & Hcov & Hcovshape).
  destruct (calculate_eigenpairs_shapes cov m Hcovshape Hm Heigh Hsort)
    as (e & W & S' & U & _ & Hcalc & HS & HU & _).
  exists U, S', (ASFEniCSx.set_eigenpairs self S' U),
    (cols_to n U), (cols_from n U).
  eexists.
  split. { rewrite (estimation_unfold self G HG), Hcov. simpl. rewrite Hcalc. reflexivity. }
  split; [exact HU|]. split; [exact HS|].
  split. { rewrite partition_unfold. simpl. fold m.
           destruct (Z.gtb_spec n m); [lia|]. reflexivity. }
  split; [apply hstack_cols|]. split; [reflexivity|].
  unfold ASFEniCSx.eigenvalues. rewrite hasattr_eigenvalues. reflexivity.
Qed.

Lemma estimation_then_partition_witness :
  let G := [[of_Z 2; f0]; [f0; of_Z 4]] in
  let self := ASFEniCSx.mk 1
                (sampling.mk "sampling" 2 2 (Some [[f1; f0]; [f0; f1]]) None None true)
                true (Some G) None None None None None in
  ∃ (U : mat) (S' : vec) (self' : ASFEniCSx.t) (W1 W2 : mat) (self'' : ASFEniCSx.t),
    @ASFEniCSx.estimation demo_functional demo_numpy self = Ok ((U, S'), self')
    ∧ shape2 U 2 2 = true ∧ shape1 S' 2 = true
    ∧ ASFEniCSx.partition self' 1 = Ok ((W1, W2), self'')
    ∧ hstack W1 W2 = U
    ∧ ASFEniCSx.W1 self'' = Some W1
    ∧ ASFEniCSx.eigenvalues self'' = Ok S'.
Proof.
  intros G self.
  apply (@estimation_then_partition demo_functional demo_numpy self G 1).
  - reflexivity.
  - reflexivity.
  - simpl. lia.
  - simpl. lia.
  - simpl. lia.
  - apply demo_eigh_contract.
  - apply demo_argsort_contract.
Defined.

Section gradient_rows.
Context `{Functional}.

Lemma evaluate_gradients_loop (s : sampling.t) (a : mat) (z : vec) (n k : nat) :
  sampling._array s = Some a → sampling.M s = len a →
  Forall (λ x, length (gradient x s) = length z) a →
  (k + n)%nat = length a →
  for_each (seq k n) (λ i g,
      x ← sampling.extract s (Z.of_nat i);
      row ← item g i;
      v ← broadcast1 (length row) (gradient x s);
      setitem g i v)
    (map (λ x, gradient x s) (take k a) ++ replicate n z)
  = Ok (map (λ x, gradient x s) a).
Proof.
  intros Ha HM Hgrad.
  match goal with |- _ → for_each _ ?b _ = _ => set (body := b) end.
  revert k.
  induction n as [|n IH]; intros k Hk.
  - simpl. rewrite app_nil_r, take_ge by lia. reflexivity.
  - destruct (lookup_lt_is_Some_2 a k ltac:(lia)) as [x Hx].
    assert (length (map (λ x, gradient x s) (take k a)) = k) as Hpre.
    { rewrite List.length_map, length_take. lia. }
    pose proof (Forall_lookup_1 _ _ _ _ Hgrad Hx) as Hlen. simpl in Hlen.
    assert (body k (map (λ x, gradient x s) (take k a) ++ replicate (S n) z)
            = Ok (map (λ x, gradient x s) (take (S k) a) ++ replicate n z)) as Hstep.
    { unfold body, sampling.extract, sampling.in_bounds, sampling.get_array.
      rewrite HM, Ha. unfold len.
      destruct (Z.leb_spec 0 (Z.of_nat k)); [|lia].
      destruct (Z.ltb_spec (Z.of_nat k) (Z.of_nat (length a))); [|lia].
      simpl. rewrite Nat2Z.id. unfold item. rewrite Hx. simpl.
      rewrite lookup_app_r by lia. rewrite Hpre, Nat.sub_diag. simpl.
      rewrite <- Hlen, broadcast1_same. simpl.
      rewrite setitem_in_range by (rewrite length_app; simpl; lia).
      rewrite insert_app_r_alt by lia. rewrite Hpre, Nat.sub_diag. simpl.
      rewrite (take_S_r a k x Hx), map_app, <- app_assoc. reflexivity. }
    change (seq k (S n)) with (k :: seq (S k) n).
    change (for_each (k :: seq (S k) n) body ?g)
      with (body k g ≫= λ g', for_each (seq (S k) n) body g').
    rewrite Hstep. simpl. apply IH. lia.
Qed.

End gradient_rows.

Lemma evaluate_gradients_value `{Functional} (self : ASFEniCSx.t) (a : mat) :
  let s := ASFEniCSx.samples self in
  sampling._array s = Some a →
  shape2 a (sampling.M s) (sampling.m s) = true →
  0 ≤ sampling.m s →
  sampling._bounds s = None →
  Forall (λ x, len (gradient x s) = sampling.m s) a →
  let G := map (λ x, gradient x s) a in
  ASFEniCSx.evaluate_gradients self = Ok (G, ASFEniCSx.set_gradients self G).
Proof.
  intros s Ha Hshape Hm Hb Hgrad G.
  apply shape2_spec in Hshape as [Hrows _].
  unfold ASFEniCSx.evaluate_gradients. fold s. unfold zeros2.
  destruct (Z.ltb_spec (sampling.M s) 0); [unfold len in Hrows; lia|].
  destruct (Z.ltb_spec (sampling.m s) 0); [lia|]. simpl.
  unfold range. replace (Z.to_nat (sampling.M s)) with (length a)
    by (unfold len in Hrows; lia).
  pose proof (evaluate_gradients_loop s a (replicate (Z.to_nat (sampling.m s)) f0)
                (length a) 0 Ha (eq_sym Hrows)) as Hloop.
  simpl in Hloop. rewrite Hloop.
  - simpl. rewrite Hb. reflexivity.
  - eapply Forall_impl; [exact Hgrad|]. intros x Hx. simpl in Hx.
    rewrite length_replicate. unfold len in Hx. lia.
  - reflexivity.
Qed.

(** X21.  On a sample container with an [M]×[m] coordinate array and no
    [_bounds] attribute, when the functional's gradient has length [m] at
    every sample, [evaluate_gradients] returns the array whose row [i] is
    the gradient at sample [i], and stores that array as [gradients]. *)
Theorem evaluate_gradients_rows `{Functional} (self : ASFEniCSx.t) (a : mat) :
  let s := ASFEniCSx.samples self in
  sampling._array s = Some a →
  shape2 a (sampling.M s) (sampling.m s) = true →
  0 ≤ sampling.m s →
  sampling._bounds s = None →
  Forall (λ x, len (gradient x s) = sampling.m s) a →
  let G := map (λ x, gradient x s) a in
  ASFEniCSx.evaluate_gradients self = Ok (G, ASFEniCSx.set_gradients self G).
Proof. exact (evaluate_gradients_value self a). Qed.

Lemma evaluate_gradients_rows_witness :
  let a := [[f1; of_Z 2]; [of_Z 3; of_Z 4]; [f0; f1]] in
  let self := ASFEniCSx.mk 1 (sampling.mk "sampling" 3 2 (Some a) None None true)
                true None None None None None None in
  @ASFEniCSx.evaluate_gradients demo_functional self
  = Ok ([[of_Z 2; of_Z 4]; [of_Z 6; of_Z 8]; [f0; of_Z 2]],
        ASFEniCSx.set_gradients self
          [[of_Z 2; of_Z 4]; [of_Z 6; of_Z 8]; [f0; of_Z 2]]).
Proof.
  intros a self.
  assert (@ASFEniCSx.evaluate_gradients demo_functional self
          = Ok (map (λ x, @gradient demo_functional x (ASFEniCSx.samples self)) a,
                ASFEniCSx.set_gradients self
                  (map (λ x, @gradient demo_functional x (ASFEniCSx.samples self)) a)))
    as Heq.
  { apply (@evaluate_gradients_rows demo_functional self a).
    - reflexivity.
    - reflexivity.
    - simpl. lia.
    - reflexivity.
    - repeat constructor. }
  rewrite Heq. vm_compute. reflexivity.
Defined.

Lemma rescale_lookup (b : mat) (row : vec) (j : nat) (x : F) (bj : vec) :
  row !! j = Some x → b !! j = Some bj →
  rescale b row !! j
  = Some (Qcdiv (Qcmult x (Qcminus (nth 1 bj f0) (nth 0 bj f0))) (of_Z 2)).
Proof.
  intros Hx Hb. unfold rescale. rewrite lookup_zip_with, Hx. simpl.
  rewrite Hb. reflexivity.
Qed.

Lemma rescale_length (b : mat) (row : vec) :
  length b = length row → length (rescale b row) = length row.
Proof. intros Hb. unfold rescale. rewrite length_zip_with. lia. Qed.

Lemma item_nth (v : vec) (i : nat) : (i < length v)%nat → item v i = Ok (nth i v f0).
Proof.
  intros Hi. unfold item.
  destruct (lookup_lt_is_Some_2 v i Hi) as [x Hx]. rewrite Hx.
  rewrite (nth_lookup_Some v i f0 x Hx). reflexivity.
Qed.

Lemma rescale_row_loop (b : mat) (pre post : mat) (row : vec) (n j : nat) :
  length b = length row →
  Forall (λ bj : vec, length bj = 2%nat) b →
  (j + n)%nat = length row →
  for_each (seq j n) (λ j g,
      r ← item g (length pre);
      x ← item r j;
      bj ← item b j;
      hi ← item bj 1%nat;
      lo ← item bj 0%nat;
      setitem2 g (length pre) j (Qcdiv (Qcmult x (Qcminus hi lo)) (of_Z 2)))
    (pre ++ (take j (rescale b row) ++ drop j row) :: post)
  = Ok (pre ++ rescale b row :: post).
Proof.
  intros Hb Hb2.
  match goal with |- _ → for_each _ ?f _ = _ => set (body := f) end.
  pose proof (rescale_length b row Hb) as HR.
  revert j. induction n as [|n IH]; intros j Hj.
  - simpl. rewrite take_ge, drop_ge, app_nil_r by lia. reflexivity.
  - destruct (lookup_lt_is_Some_2 row j ltac:(lia)) as [x Hx].
    destruct (lookup_lt_is_Some_2 b j ltac:(lia)) as [bj Hbj].
    pose proof (Forall_lookup_1 _ _ _ _ Hb2 Hbj) as Hlen. simpl in Hlen.
    pose proof (rescale_lookup b row j x bj Hx Hbj) as HRj.
    assert (length (take j (rescale b row)) = j) as Htake
      by (rewrite length_take; lia).
    assert (body j (pre ++ (take j (rescale b row) ++ drop j row) :: post)
            = Ok (pre ++ (take (S j) (rescale b row) ++ drop (S j) row) :: post))
      as Hstep.
    { assert ((take j (rescale b row) ++ drop j row) !! j = Some x) as Hcur.
      { rewrite lookup_app_r by lia.
        rewrite Htake, Nat.sub_diag, lookup_drop, Nat.add_0_r. exact Hx. }
      unfold body, setitem2.
      rewrite item_middle. simpl.
      rewrite (item_Some _ _ _ Hcur). simpl.
      rewrite (item_Some _ _ _ Hbj). simpl.
      rewrite !item_nth by lia. simpl.
      rewrite setitem_in_range
        by (rewrite length_app, length_drop; lia). simpl.
      rewrite setitem_in_range by (rewrite length_app; simpl; lia).
      rewrite insert_app_r_alt by lia. rewrite Nat.sub_diag. simpl.
      rewrite insert_app_r_alt by lia. rewrite Htake, Nat.sub_diag.
      rewrite (take_S_r _ _ _ HRj), <- app_assoc.
      rewrite (drop_S row x j Hx). simpl.
      reflexivity. }
    change (seq j (S n)) with (j :: seq (S j) n).
    change (for_each (j :: seq (S j) n) body ?g)
      with (body j g ≫= λ g', for_each (seq (S j) n) body g').
    rewrite Hstep. simpl. apply IH. lia.
Qed.

Lemma rescale_loop (b G : mat) (m n i : nat) :
  length b = m →
  Forall (λ bj : vec, length bj = 2%nat) b →
  Forall (λ row : vec, length row = m) G →
  (i + n)%nat = length G →
  for_each (seq i n) (λ i g,
      for_each (seq 0 m) (λ j g,
        r ← item g i;
        x ← item r j;
        bj ← item b j;
        hi ← item bj 1%nat;
        lo ← item bj 0%nat;
        setitem2 g i j (Qcdiv (Qcmult x (Qcminus hi lo)) (of_Z 2))) g)
    (map (rescale b) (take i G) ++ drop i G)
  = Ok (map (rescale b) G).
Proof.
  intros Hb Hb2 HG.
  match goal with |- _ → for_each _ ?f _ = _ => set (body := f) end.
  revert i. induction n as [|n IH]; intros i Hi.
  - simpl. rewrite take_ge, drop_ge, app_nil_r by lia. reflexivity.
  - destruct (lookup_lt_is_Some_2 G i ltac:(lia)) as [row Hrow].
    pose proof (Forall_lookup_1 _ _ _ _ HG Hrow) as Hlen. simpl in Hlen.
    assert (length (map (rescale b) (take i G)) = i) as Hpre
      by (rewrite List.length_map, length_take; lia).
    assert (body i (map (rescale b) (take i G) ++ drop i G)
            = Ok (map (rescale b) (take (S i) G) ++ drop (S i) G)) as Hstep.
    { unfold body.
      rewrite (drop_S G row i Hrow).
      pose proof (rescale_row_loop b (map (rescale b) (take i G)) (drop (S i) G)
                    row m 0 ltac:(lia) Hb2 ltac:(lia)) as Hrowloop.
      rewrite Hpre in Hrowloop. simpl in Hrowloop. rewrite drop_0 in Hrowloop.
      rewrite Hrowloop.
      rewrite (take_S_r G i row Hrow), map_app, <- app_assoc. reflexivity. }
    change (seq i (S n)) with (i :: seq (S i) n).
    change (for_each (i :: seq (S i) n) body ?g)
      with (body i g ≫= λ g', for_each (seq (S i) n) body g').
    rewrite Hstep. simpl. apply IH. lia.
Qed.

(** X22.  When the sample container carries an [m]×2 array [_bounds],
    [evaluate_gradients] returns (and stores) the gradient rows with entry
    [j] multiplied by [(_bounds[j,1] - _bounds[j,0]) / 2]. *)
Theorem evaluate_gradients_rescaled `{Functional} (self : ASFEniCSx.t) (a b : mat) :
  let s := ASFEniCSx.samples self in
  sampling._array s = Some a →
  shape2 a (sampling.M s) (sampling.m s) = true →
  sampling._bounds s = Some b →
  shape2 b (sampling.m s) 2 = true →
  Forall (λ x, len (gradient x s) = sampling.m s) a →
  let G := map (λ x, rescale b (gradient x s)) a in
  ASFEniCSx.evaluate_gradients self = Ok (G, ASFEniCSx.set_gradients self G).
Proof.
  intros s Ha Hshape Hb Hbshape Hgrad G.
  apply shape2_spec in Hshape as [Hrows _].
  apply shape2_spec in Hbshape as [Hbrows Hbcols].
  unfold ASFEniCSx.evaluate_gradients. fold s. unfold zeros2.
  destruct (Z.ltb_spec (sampling.M s) 0); [unfold len in Hrows; lia|].
  destruct (Z.ltb_spec (sampling.m s) 0); [unfold len in Hbrows; lia|]. simpl.
  unfold range. replace (Z.to_nat (sampling.M s)) with (length a)
    by (unfold len in Hrows; lia).
  pose proof (evaluate_gradients_loop s a (replicate (Z.to_nat (sampling.m s)) f0)
                (length a) 0 Ha (eq_sym Hrows)) as Hloop.
  simpl in Hloop. rewrite Hloop.
  - simpl. rewrite Hb.
    pose proof (rescale_loop b (map (λ x, gradient x s) a)
                  (Z.to_nat (sampling.m s)) (length a) 0) as Hres.
    simpl in Hres. rewrite drop_0 in Hres. rewrite Hres.
    + simpl. unfold G. rewrite map_map. reflexivity.
    + unfold len in Hbrows. lia.
    + eapply Forall_impl; [exact Hbcols|]. intros bj Hbj. simpl in Hbj.
      unfold len in Hbj. lia.
    + apply Forall_map. eapply Forall_impl; [exact Hgrad|].
      intros x Hx. simpl in *. unfold len in Hx. lia.
    + rewrite List.length_map. reflexivity.
  - eapply Forall_impl; [exact Hgrad|]. intros x Hx. simpl in Hx.
    rewrite length_replicate. unfold len in Hx. lia.
  - reflexivity.
Qed.

Lemma evaluate_gradients_rescaled_witness :
  let a := [[f1; of_Z 2]; [of_Z 3; of_Z 4]] in
  let b := [[f0; of_Z 4]; [of_Z (-1); f1]] in
  let self := ASFEniCSx.mk 1 (sampling.mk "sampling" 2 2 (Some a) None (Some b) true)
                true None None None None None None in
  let G := map (λ x, rescale b (@gradient demo_functional x (ASFEniCSx.samples self))) a in
  @ASFEniCSx.evaluate_gradients demo_functional self
  = Ok (G, ASFEniCSx.set_gradients self G).
Proof.
  intros a b self.
  apply (@evaluate_gradients_rescaled demo_functional self a b).
  - reflexivity.
  - reflexivity.
  - reflexivity.
  - reflexivity.
  - repeat constructor.
Defined.

(** ** Entries of the covariance array *)

Lemma Qc_mult_nonneg (x y : F) : Qcle f0 x → Qcle f0 y → Qcle f0 (Qcmult x y).
Proof.
  intros Hx Hy. replace f0 with (Qcmult f0 y) by (unfold f0; ring).
  apply Qcmult_le_compat_r; assumption.
Qed.

Lemma Qc_square_nonneg (x : F) : Qcle f0 (Qcmult x x).
Proof.
  destruct (Qclt_le_dec x f0) as [Hneg|Hpos].
  - replace (Qcmult x x) with (Qcmult (Qcopp x) (Qcopp x)) by ring.
    assert (Qcle f0 (Qcopp x)) as Hx.
    { replace f0 with (Qcopp f0) by reflexivity.
      apply Qcopp_le_compat, Qclt_le_weak, Hneg. }
    apply Qc_mult_nonneg; exact Hx.
  - apply Qc_mult_nonneg; exact Hpos.
Qed.

Lemma Qc_plus_nonneg (x y : F) : Qcle f0 x → Qcle f0 y → Qcle f0 (Qcplus x y).
Proof.
  intros Hx Hy. replace f0 with (Qcplus f0 f0) by (unfold f0; ring).
  apply Qcplus_le_compat; assumption.
Qed.

Lemma Qc_inverse_nonneg (M : Z) : 0 < M → Qcle f0 (Qcdiv f1 (of_Z M)).
Proof.
  intros HM. unfold Qcdiv. rewrite Qcmult_1_l.
  unfold Qcle, Qcinv, of_Z, f0. simpl. rewrite !Qred_correct.
  apply Qinv_le_0_compat. unfold Qle. simpl. lia.
Qed.

Lemma nth_zip_plus (u v : vec) (j : nat) :
  length u = length v →
  nth j (zip_with Qcplus u v) f0 = Qcplus (nth j u f0) (nth j v f0).
Proof.
  revert v j. induction u as [|x u IH]; intros [|y v] j Hlen; simpl in *;
    try discriminate.
  - destruct j; unfold f0; ring.
  - destruct j as [|j]; [reflexivity|]. apply IH. lia.
Qed.

Lemma nth_zip_rows (a b : mat) (i : nat) :
  length a = length b →
  nth i (zip_with (zip_with Qcplus) a b) []
  = zip_with Qcplus (nth i a []) (nth i b []).
Proof.
  revert b i. induction a as [|x a IH]; intros [|y b] i Hlen; simpl in *;
    try discriminate.
  - destruct i; reflexivity.
  - destruct i as [|i]; [reflexivity|]. apply IH. lia.
Qed.

Lemma length_nth_row (r c : nat) (a : mat) (i : nat) :
  has_shape r c a → length (nth i a []) = if bool_decide (i < r)%nat then c else 0%nat.
Proof.
  intros [Hr Hc]. case_bool_decide as Hi.
  - destruct (lookup_lt_is_Some_2 a i ltac:(lia)) as [row Hrow].
    rewrite (nth_lookup_Some a i [] row Hrow).
    exact (Forall_lookup_1 _ _ _ _ Hc Hrow).
  - rewrite nth_overflow by lia. reflexivity.
Qed.

Lemma entry_madd (r c : nat) (a b : mat) (i j : nat) :
  has_shape r c a → has_shape r c b →
  entry (madd a b) i j = Qcplus (entry a i j) (entry b i j).
Proof.
  intros Ha Hb. unfold entry, madd.
  rewrite nth_zip_rows by (destruct Ha, Hb; lia).
  apply nth_zip_plus.
  rewrite (length_nth_row r c a i Ha), (length_nth_row r c b i Hb). reflexivity.
Qed.

Lemma nth_map_mult (c : F) (v : vec) (j : nat) :
  nth j (map (Qcmult c) v) f0 = Qcmult c (nth j v f0).
Proof.
  transitivity (nth j (map (Qcmult c) v) (Qcmult c f0)).
  - f_equal. unfold f0. ring.
  - apply map_nth.
Qed.

Lemma entry_outer (g : vec) (i j : nat) :
  entry (outer g g) i j = Qcmult (nth i g f0) (nth j g f0).
Proof.
  unfold entry, outer.
  destruct (decide (i < length g)%nat) as [Hi|Hi].
  - rewrite (nth_indep _ [] (map (Qcmult f0) g)) by (rewrite List.length_map; exact Hi).
    rewrite (map_nth (λ x, map (Qcmult x) g) g f0 i).
    apply nth_map_mult.
  - rewrite (nth_overflow (map _ g)) by (rewrite List.length_map; lia).
    rewrite (nth_overflow g) by lia. destruct j; simpl; unfold f0; ring.
Qed.

Lemma entry_zeros (r c i j : nat) : entry (replicate r (replicate c f0)) i j = f0.
Proof.
  unfold entry.
  destruct (decide (i < r)%nat) as [Hi|Hi].
  - rewrite (nth_lookup_Some _ i [] (replicate c f0))
      by (apply lookup_replicate_2; exact Hi).
    destruct (decide (j < c)%nat) as [Hj|Hj].
    + apply nth_lookup_Some, lookup_replicate_2, Hj.
    + apply nth_overflow. rewrite length_replicate. lia.
  - rewrite (nth_overflow (replicate r (replicate c f0)) [])
      by (rewrite length_replicate; lia).
    destruct j; reflexivity.
Qed.

Lemma entry_scale (c : F) (a : mat) (i j : nat) :
  entry (map (map (Qcmult c)) a) i j = Qcmult c (entry a i j).
Proof.
  unfold entry.
  rewrite <- nth_map_mult. f_equal.
  exact (map_nth (map (Qcmult c)) a [] i).
Qed.

Lemma sum_outer_entries (m : Z) (G : mat) :
  Forall (λ g, length g = Z.to_nat m) G →
  has_shape (Z.to_nat m) (Z.to_nat m) (sum_outer m G)
  ∧ (∀ i j, entry (sum_outer m G) i j = entry (sum_outer m G) j i)
  ∧ (∀ i, Qcle f0 (entry (sum_outer m G) i i)).
Proof.
  intros HG. unfold sum_outer.
  induction HG as [|g G Hg _ (IHs & IHsym & IHpos)]; simpl.
  - split; [split; [apply length_replicate | apply Forall_replicate, length_replicate]|].
    split; intros; rewrite !entry_zeros; [reflexivity | apply Qcle_refl].
  - assert (has_shape (Z.to_nat m) (Z.to_nat m) (outer g g)) as Ho
      by (rewrite <- Hg; apply has_shape_outer).
    split; [apply has_shape_madd; assumption|].
    split.
    + intros i j. rewrite !(entry_madd _ _ _ _ _ _ Ho IHs), !entry_outer, (IHsym i j).
      ring.
    + intros i. rewrite (entry_madd _ _ _ _ _ _ Ho IHs), entry_outer.
      apply Qc_plus_nonneg; [apply Qc_square_nonneg | apply IHpos].
Qed.

(** X23.  For an [M]×[m] gradient array, the array returned by
    [covariance] is symmetric and its diagonal entries are non-negative. *)
Theorem covariance_symmetric (self : ASFEniCSx.t) (G : mat) :
  let M := sampling.M (ASFEniCSx.samples self) in
  let m := sampling.m (ASFEniCSx.samples self) in
  shape2 G M m = true → 0 < M →
  ∃ C : mat,
    ASFEniCSx.covariance self G = Ok C
    ∧ (∀ i j, entry C i j = entry C j i)
    ∧ (∀ i, Qcle f0 (entry C i i)).
Proof.
  intros M m Hshape HM.
  exists (mean_outer M m G).
  split; [exact (covariance_value self G Hshape HM)|].
  apply shape2_spec in Hshape as [_ Hcols].
  assert (Forall (λ g : vec, length g = Z.to_nat m) G) as HG.
  { eapply Forall_impl; [exact Hcols|]. intros g Hg. simpl in Hg.
    unfold len in Hg. lia. }
  destruct (sum_outer_entries m G HG) as (_ & Hsym & Hpos).
  unfold mean_outer. split.
  - intros i j. rewrite !entry_scale, (Hsym i j). reflexivity.
  - intros i. rewrite entry_scale.
    apply Qc_mult_nonneg; [apply Qc_inverse_nonneg, HM | apply Hpos].
Qed.

Lemma covariance_symmetric_witness :
  let G := [[f1; of_Z 2]; [of_Z 3; of_Z (-4)]; [f0; f1]] in
  let self := ASFEniCSx.mk 1
                (sampling.mk "sampling" 3 2 (Some [[f1; f0]; [f0; f1]; [f1; f1]])
                   None None true)
                true None None None None None None in
  ∃ C : mat,
    ASFEniCSx.covariance self G = Ok C
    ∧ (∀ i j, entry C i j = entry C j i)
    ∧ (∀ i, Qcle f0 (entry C i i)).
Proof.
  intros G self. apply (covariance_symmetric self G).
  - reflexivity.
  - simpl. lia.
Defined.

Lemma for_each_app {S X : Type} (xs ys : list X) (body : X → S → result S) (s : S) :
  for_each (xs ++ ys) body s = for_each xs body s ≫= for_each ys body.
Proof.
  revert s. induction xs as [|x xs IH]; intros s; simpl; [reflexivity|].
  destruct (body x s) as [s1|e]; simpl; [apply IH | reflexivity].
Qed.

(** X24.  [covariance] reads row [i] of the gradient array for every
    [i < M]: on an array with fewer than [M] rows (each of length [m]) it
    raises IndexError. *)
Theorem covariance_short_gradients (self : ASFEniCSx.t) (G : mat) :
  let M := sampling.M (ASFEniCSx.samples self) in
  let m := sampling.m (ASFEniCSx.samples self) in
  0 ≤ m → Forall (λ g, len g = m) G → len G < M →
  ASFEniCSx.covariance self G = Raise (IndexError "index out of bounds").
Proof.
  intros M m Hm HG Hshort.
  unfold ASFEniCSx.covariance. fold M m. unfold zeros2.
  destruct (Z.ltb_spec m 0); [lia|].
  destruct (Z.ltb_spec m 0); [lia|]. simpl.
  unfold range, len in *.
  replace (Z.to_nat M) with (length G + S (Z.to_nat M - length G - 1))%nat by lia.
  rewrite seq_app, for_each_app.
  rewrite (covariance_loop (Z.to_nat m) [] G).
  - simpl. unfold item. rewrite lookup_ge_None_2 by lia. reflexivity.
  - eapply Forall_impl; [exact HG|]. intros g Hg. simpl in Hg. lia.
Qed.

Lemma covariance_short_gradients_witness :
  let G := [[f1; of_Z 2]; [of_Z 3; of_Z (-4)]] in
  let self := ASFEniCSx.mk 1
                (sampling.mk "sampling" 3 2 (Some [[f1; f0]; [f0; f1]; [f1; f1]])
                   None None true)
                true None None None None None None in
  ASFEniCSx.covariance self G = Raise (IndexError "index out of bounds").
Proof.
  intros G self. apply (covariance_short_gradients self G).
  - simpl. lia.
  - repeat constructor.
  - unfold len. simpl. lia.
Defined.

(** X25.  On an engine without gradients, over a container with an
    [M]×[m] coordinate array and no [_bounds], [estimation] evaluates the
    gradient at every sample, keeps these rows as [gradients], and returns
    what [calculate_eigenpairs] finds for the array that [covariance]
    returns on these rows: an [m]×[m] eigenvector array and [m]
    eigenvalues. *)
Theorem estimation_from_scratch `{Functional} `{Numpy}
    (self : ASFEniCSx.t) (a : mat) :
  let s := ASFEniCSx.samples self in
  let M := sampling.M s in
  let m := sampling.m s in
  ASFEniCSx.gradients self = None →
  sampling._array s = Some a → shape2 a M m = true →
  sampling._bounds s = None →
  0 < M → 0 < m →
  Forall (λ x, len (gradient x s) = m) a →
  eigh_contract m → argsort_contract →
  let G := map (λ x, gradient x s) a in
  ∃ (U : mat) (S' : vec) (self' : ASFEniCSx.t) (cov : mat),
    ASFEniCSx.estimation self = Ok ((U, S'), self')
    ∧ ASFEniCSx.gradients self' = Some G
    ∧ ASFEniCSx.covariance self' G = Ok cov
    ∧ ASFEniCSx.calculate_eigenpairs cov = Ok (S', U)
    ∧ shape2 cov m m = true
    ∧ shape2 U m m = true ∧ shape1 S' m = true.
Proof.
  cbv zeta. intros Hnone Ha Hshape Hb HM Hm Hgrad Heigh Hsort.
  set (G := map (λ x, gradient x (ASFEniCSx.samples self)) a).
  assert (shape2 G (sampling.M (ASFEniCSx.samples self))
            (sampling.m (ASFEniCSx.samples self)) = true) as HG.
  { apply shape2_spec in Hshape as [Hrows _]. apply shape2_spec. split.
    - unfold G, len in *. rewrite List.length_map. exact Hrows.
    - apply Forall_map. exact Hgrad. }
  destruct (covariance_shape (ASFEniCSx.set_gradients self G) G
              (has_shape_shape2 G _ _ HG) HM Hm) as (cov & Hcov & Hcovshape).
  destruct (calculate_eigenpairs_shapes _ _ Hcovshape Hm Heigh Hsort)
    as (e & W & S' & U & _ & Hcalc & HS & HU & _).
  exists U, S', (ASFEniCSx.set_eigenpairs (ASFEniCSx.set_gradients self G) S' U), cov.
  split; [|split; [reflexivity | split; [exact Hcov |
            split; [exact Hcalc | split; [exact Hcovshape | split; assumption]]]]].
  unfold ASFEniCSx.estimation.
  rewrite (hasattr_gradients_None self Hnone). simpl.
  assert (0 ≤ sampling.m (ASFEniCSx.samples self)) as Hm0 by lia.
  rewrite (evaluate_gradients_value self a Ha Hshape Hm0 Hb Hgrad). simpl.
  fold G. rewrite Hcov. simpl. simpl in Hcalc. rewrite Hcalc. reflexivity.
Qed.

Lemma estimation_from_scratch_witness :
  let a := [[f1; f0]; [f0; of_Z 2]] in
  let self := ASFEniCSx.mk 1 (sampling.mk "sampling" 2 2 (Some a) None None true)
                true None None None None None None in
  let G := map (λ x, @gradient demo_functional x (ASFEniCSx.samples self)) a in
  ∃ (U : mat) (S' : vec) (self' : ASFEniCSx.t) (cov : mat),
    @ASFEniCSx.estimation demo_functional demo_numpy self = Ok ((U, S'), self')
    ∧ ASFEniCSx.gradients self' = Some G
    ∧ ASFEniCSx.covariance self' G = Ok cov
    ∧ @ASFEniCSx.calculate_eigenpairs demo_numpy cov = Ok (S', U)
    ∧ shape2 cov 2 2 = true
    ∧ shape2 U 2 2 = true ∧ shape1 S' 2 = true.
Proof.
  intros a self.
  apply (@estimation_from_scratch demo_functional demo_numpy self a).
  - reflexivity.
  - reflexivity.
  - reflexivity.
  - reflexivity.
  - simpl. lia.
  - simpl. lia.
  - repeat constructor.
  - apply demo_eigh_contract.
  - apply demo_argsort_contract.
Defined.

(** * Properties of the k-means container *)

Lemma argmin_from_spec (v pre : vec) (best : nat) (least : F) (i : nat) :
  i = length pre →
  pre !! best = Some least →
  Forall (Qcle least) pre →
  (∀ j z, (j < best)%nat → pre !! j = Some z → Qclt least z) →
  ∃ y, (pre ++ v) !! argmin_from best least i v = Some y
       ∧ Forall (Qcle y) (pre ++ v)
       ∧ ∀ j z, (j < argmin_from best least i v)%nat →
                (pre ++ v) !! j = Some z → Qclt y z.
Proof.
  revert pre best least i.
  induction v as [|y v IH]; intros pre best least i Hi Hbest Hle Hlt; simpl.
  - rewrite app_nil_r. exists least. split; [exact Hbest|]. split; assumption.
  - assert (S i = length (pre ++ [y])) as Hlen
      by (rewrite length_app; simpl; lia).
    replace (pre ++ y :: v) with ((pre ++ [y]) ++ v)
      by (rewrite <- app_assoc; reflexivity).
    destruct (fltb y least) eqn:Hy.
    + apply fltb_lt in Hy. apply (IH (pre ++ [y]) i y (S i) Hlen).
      * rewrite Hi. apply list_lookup_middle. reflexivity.
      * apply Forall_app. split.
        -- eapply Forall_impl; [exact Hle|]. intros z Hz. simpl in Hz.
           apply Qclt_le_weak. eapply Qclt_le_trans; eassumption.
        -- constructor; [apply Qcle_refl | constructor].
      * intros j z Hj Hz. rewrite lookup_app_l in Hz by lia.
        pose proof (Forall_lookup_1 _ _ _ _ Hle Hz) as Hz'. simpl in Hz'.
        eapply Qclt_le_trans; eassumption.
    + apply fltb_ge in Hy. apply (IH (pre ++ [y]) best least (S i) Hlen).
      * apply lookup_app_l_Some. exact Hbest.
      * apply Forall_app. split; [exact Hle|]. constructor; [exact Hy | constructor].
      * intros j z Hj Hz.
        pose proof (lookup_lt_Some _ _ _ Hbest) as Hb.
        rewrite lookup_app_l in Hz by lia. exact (Hlt j z Hj Hz).
Qed.

Lemma argmin_spec (v : vec) :
  v ≠ [] →
  ∃ i y, argmin v = Ok i ∧ v !! i = Some y
         ∧ Forall (Qcle y) v
         ∧ ∀ j z, (j < i)%nat → v !! j = Some z → Qclt y z.
Proof.
  destruct v as [|y v]; [congruence|]. intros _.
  destruct (argmin_from_spec v [y] 0 y 1) as (z & Hz & Hle & Hlt).
  - reflexivity.
  - reflexivity.
  - constructor; [apply Qcle_refl | constructor].
  - intros j z Hj. lia.
  - exists (argmin_from 0 y 1 v), z. split; [reflexivity|]. split; [exact Hz|].
    split; assumption.
Qed.

Section clustering_facts.
Context `{Norm}.

Lemma subtract_rows (c : mat) (x : vec) :
  Forall (λ row : vec, length row = length x) c →
  result_map (λ row, subtract row x) c = Ok (map (λ row, zip_with Qcminus row x) c).
Proof.
  induction 1 as [|row c Hrow _ IH]; simpl; [reflexivity|].
  assert (subtract row x = Ok (zip_with Qcminus row x)) as ->
    by (unfold subtract; rewrite bool_decide_eq_true_2 by exact Hrow; reflexivity).
  simpl. rewrite IH. reflexivity.
Qed.

Lemma cluster_index_value (self : clustering.t) (c : mat) (x : vec) :
  clustering._centroids self = Some c →
  Forall (λ row : vec, length row = length x) c →
  len x = sampling.m (clustering.base self) →
  clustering.cluster_index self x = argmin (map (row_norm x) c).
Proof.
  intros Hc Hrows Hx. unfold clustering.cluster_index, clustering.centroids.
  rewrite Hc, bool_decide_eq_true_2 by eauto. simpl.
  rewrite Hx, Z.eqb_refl. simpl.
  rewrite (subtract_rows c x Hrows). simpl. rewrite map_map. reflexivity.
Qed.

Lemma cluster_index_argmin (self : clustering.t) (c : mat) (x : vec) :
  clustering._centroids self = Some c → c ≠ [] →
  Forall (λ row : vec, length row = length x) c →
  len x = sampling.m (clustering.base self) →
  ∃ (i : nat) (ci : vec),
    clustering.cluster_index self x = Ok i ∧ c !! i = Some ci
    ∧ (∀ j cj, c !! j = Some cj → Qcle (row_norm x ci) (row_norm x cj))
    ∧ (∀ j cj, (j < i)%nat → c !! j = Some cj → Qclt (row_norm x ci) (row_norm x cj)).
Proof.
  intros Hc Hne Hrows Hx.
  rewrite (cluster_index_value self c x Hc Hrows Hx).
  destruct (argmin_spec (map (row_norm x) c)) as (i & y & Hi & Hy & Hle & Hlt).
  { destruct c; [congruence | discriminate]. }
  rewrite list_lookup_fmap in Hy.
  destruct (c !! i) as [ci|] eqn:Hci; [|discriminate].
  simpl in Hy. injection Hy as <-.
  exists i, ci. split; [exact Hi|]. split; [exact Hci|]. split.
  - intros j cj Hj.
    apply (Forall_lookup_1 _ _ j (row_norm x cj) Hle).
    rewrite list_lookup_fmap, Hj. reflexivity.
  - intros j cj Hji Hj. apply (Hlt j (row_norm x cj) Hji).
    rewrite list_lookup_fmap, Hj. reflexivity.
Qed.

End clustering_facts.

Lemma concat_insert_snoc (cl : list (list nat)) (j n : nat) (l : list nat) :
  cl !! j = Some l →
  Permutation (concat (<[j:=l ++ [n]]> cl)) (n :: concat cl).
Proof.
  intros Hj.
  pose proof (lookup_lt_Some _ _ _ Hj) as Hlt.
  rewrite insert_take_drop by exact Hlt.
  rewrite <- (take_drop_middle cl j l Hj) at 3.
  rewrite !concat_app. simpl.
  rewrite <- !app_assoc.
  rewrite (Permutation_app_comm [n] (concat (drop (S j) cl))).
  rewrite !app_assoc. rewrite <- Permutation_cons_append.
  reflexivity.
Qed.

Section clustering_loop.
Context `{Norm}.

Lemma assign_clusters_loop (self : clustering.t) (c : mat) (K : nat)
    (post pre : mat) (cl : list (list nat)) :
  clustering._centroids self = Some c → length c = K → (0 < K)%nat →
  Forall (λ row : vec, len row = sampling.m (clustering.base self)) c →
  Forall (λ x : vec, len x = sampling.m (clustering.base self)) post →
  length cl = K →
  Permutation (concat cl) (seq 0 (length pre)) →
  (∀ j l i, cl !! j = Some l → i ∈ l →
     ∃ x, pre !! i = Some x ∧ clustering.cluster_index self x = Ok j) →
  ∃ cl',
    for_each (zip (seq (length pre) (length post)) post) (λ '(i, x) _clusters,
        idx ← clustering.cluster_index self x;
        l ← item _clusters idx;
        setitem _clusters idx (l ++ [i])) cl = Ok cl'
    ∧ length cl' = K
    ∧ Permutation (concat cl') (seq 0 (length (pre ++ post)))
    ∧ (∀ j l i, cl' !! j = Some l → i ∈ l →
         ∃ x, (pre ++ post) !! i = Some x ∧ clustering.cluster_index self x = Ok j).
Proof.
  intros Hc HK HK0 Hrows Hpost. revert pre cl.
  induction Hpost as [|x post Hx _ IH]; intros pre cl Hlen Hperm Hmem.
  - simpl. exists cl. rewrite app_nil_r. split; [reflexivity|].
    split; [exact Hlen|]. split; assumption.
  - assert (Forall (λ row : vec, length row = length x) c) as Hrows'.
    { eapply Forall_impl; [exact Hrows|]. intros row Hrow. simpl in Hrow.
      unfold len in *. lia. }
    destruct (cluster_index_argmin self c x Hc) as (idx & ci & Hidx & Hci & _);
      [destruct c; [simpl in HK; lia | discriminate] | exact Hrows' | exact Hx |].
    pose proof (lookup_lt_Some _ _ _ Hci) as Hlt.
    destruct (lookup_lt_is_Some_2 cl idx ltac:(lia)) as [l Hl].
    replace (pre ++ x :: post) with ((pre ++ [x]) ++ post)
      by (rewrite <- app_assoc; reflexivity).
    destruct (IH (pre ++ [x]) (<[idx:=l ++ [length pre]]> cl)) as (cl' & Hloop & Hrest).
    + rewrite length_insert. exact Hlen.
    + rewrite (concat_insert_snoc cl idx (length pre) l Hl), Hperm.
      rewrite length_app. simpl. rewrite Nat.add_1_r, seq_S. simpl.
      apply Permutation_cons_append.
    + intros j l' i Hj Hi.
      destruct (decide (j = idx)) as [->|Hne].
      * rewrite list_lookup_insert_eq in Hj by lia. injection Hj as <-.
        apply elem_of_app in Hi as [Hi|Hi].
        -- destruct (Hmem idx l i Hl Hi) as (y & Hy & Hyj).
           exists y. split; [apply lookup_app_l_Some, Hy | exact Hyj].
        -- apply list_elem_of_singleton in Hi as ->.
           exists x. split; [apply list_lookup_middle; reflexivity | exact Hidx].
      * rewrite list_lookup_insert_ne in Hj by congruence.
        destruct (Hmem j l' i Hj Hi) as (y & Hy & Hyj).
        exists y. split; [apply lookup_app_l_Some, Hy | exact Hyj].
    + exists cl'. split; [|exact Hrest].
      simpl. rewrite Hidx. simpl. rewrite (item_Some _ _ _ Hl). simpl.
      rewrite setitem_in_range by lia. simpl.
      rewrite length_app in Hloop. simpl in Hloop. rewrite Nat.add_1_r in Hloop.
      exact Hloop.
Qed.

End clustering_loop.

(** X26.  Whenever the constructor of [clustering] returns, [0 < k < M] and
    [0 < m], the object holds the drawn samples under the type name
    "clustering", and it has neither centroids nor clusters: the accessors
    raise AttributeError, and [cluster_index] and [assign_clusters] fail
    their first assertion. *)
Theorem clustering_init `{Norm} (M m k max_iter : Z) (draw : mat)
    (self : clustering.t) (x : vec) (data : mat) :
  clustering.__init__ M m k max_iter draw = Ok self →
  0 < k < M ∧ 0 < m
  ∧ clustering.base self = sampling.mk "clustering" M m (Some draw) None None true
  ∧ clustering.k self = k
  ∧ clustering.centroids self
    = Raise (AttributeError "'clustering' object has no attribute '_centroids'")
  ∧ clustering.clusters self
    = Raise (AttributeError "'clustering' object has no attribute '_clusters'")
  ∧ clustering.cluster_index self x
    = Raise (AssertionError "Centroids have not been initialized")
  ∧ clustering.assign_clusters self data
    = Raise (AssertionError "Centroids have not been initialized").
Proof.
  unfold clustering.__init__, sampling.__init__, sampling.random_uniform.
  destruct (Z.ltb_spec 0 k); simpl; [|discriminate].
  destruct (Z.ltb_spec k M); simpl; [|discriminate].
  assert ((0 <? M) = true) as -> by (apply Z.ltb_lt; lia). simpl.
  destruct (Z.ltb_spec 0 m); simpl; [|discriminate].
  intros [= <-]. repeat (split; [first [lia | reflexivity]|]). reflexivity.
Qed.

Lemma clustering_init_witness :
  let draw := [[f0; f1]; [f1; f1]; [of_Z 2; f0]] in
  ∃ self : clustering.t,
    @clustering.__init__ 3 2 2 1000 draw = Ok self
    ∧ clustering.base self = sampling.mk "clustering" 3 2 (Some draw) None None true
    ∧ @clustering.cluster_index demo_norm self [f0; f0]
      = Raise (AssertionError "Centroids have not been initialized").
Proof.
  intros draw. eexists. split; [reflexivity|].
  pose proof (@clustering_init demo_norm 3 2 2 1000 draw _ [f0; f0] draw eq_refl)
    as (_ & _ & Hbase & _ & _ & _ & Hidx & _).
  split; [exact Hbase | exact Hidx].
Defined.

(** X27.  With at least one centroid, all of length [m], [cluster_index(x)]
    on a point of length [m] returns a position [i] of the centroid array:
    the first position at which the number that the norm operation returns
    for the row [_centroids[i] - x] is least.  No returned number is below
    it, and every number at an earlier position is strictly above it. *)
Theorem cluster_index_first_least_norm `{Norm}
    (self : clustering.t) (c : mat) (x : vec) :
  let m := sampling.m (clustering.base self) in
  clustering._centroids self = Some c → c ≠ [] →
  Forall (λ row : vec, len row = m) c →
  len x = m →
  ∃ (i : nat) (ci : vec),
    clustering.cluster_index self x = Ok i
    ∧ (i < length c)%nat ∧ c !! i = Some ci
    ∧ (∀ j cj, c !! j = Some cj → Qcle (row_norm x ci) (row_norm x cj))
    ∧ (∀ j cj, (j < i)%nat → c !! j = Some cj → Qclt (row_norm x ci) (row_norm x cj)).
Proof.
  intros m Hc Hne Hrows Hx.
  destruct (cluster_index_argmin self c x Hc Hne) as (i & ci & Hi & Hci & Hle & Hlt).
  - eapply Forall_impl; [exact Hrows|]. intros row Hrow. simpl in Hrow.
    unfold len in *. lia.
  - exact Hx.
  - exists i, ci. split; [exact Hi|].
    split; [exact (lookup_lt_Some _ _ _ Hci)|].
    split; [exact Hci|]. split; assumption.
Qed.

Lemma cluster_index_first_least_norm_witness :
  let c := [[f0; f0]; [of_Z 4; of_Z 4]; [f1; f1]] in
  let self := clustering.mk
                (sampling.mk "clustering" 4 2
                   (Some [[f0; f1]; [of_Z 3; of_Z 4]; [f1; f0]; [of_Z 5; of_Z 5]])
                   None None true)
                3 1000 (Some c) None in
  let x := [of_Z 3; of_Z 3] in
  ∃ (i : nat) (ci : vec),
    @clustering.cluster_index demo_norm self x = Ok i
    ∧ (i < length c)%nat ∧ c !! i = Some ci
    ∧ (∀ j cj, c !! j = Some cj
         → Qcle (@row_norm demo_norm x ci) (@row_norm demo_norm x cj))
    ∧ (∀ j cj, (j < i)%nat → c !! j = Some cj
         → Qclt (@row_norm demo_norm x ci) (@row_norm demo_norm x cj)).
Proof.
  intros c self x. apply (@cluster_index_first_least_norm demo_norm self c x).
  - reflexivity.
  - discriminate.
  - repeat constructor.
  - reflexivity.
Defined.

(** X28.  With [k] centroids of length [m], [k > 0], [assign_clusters] on
    a non-empty array of points of length [m] returns [k] index lists that
    together hold every row index of the array exactly once, and a list
    holds index [i] only if [cluster_index] sends row [i] to that list's
    position. *)
Theorem assign_clusters_partition `{Norm} (self : clustering.t) (c data : mat) :
  let m := sampling.m (clustering.base self) in
  clustering._centroids self = Some c →
  0 < clustering.k self →
  shape2 c (clustering.k self) m = true →
  data ≠ [] → Forall (λ x : vec, len x = m) data →
  ∃ cl : list (list nat),
    clustering.assign_clusters self data = Ok cl
    ∧ len cl = clustering.k self
    ∧ Permutation (concat cl) (seq 0 (length data))
    ∧ (∀ j l i, cl !! j = Some l → i ∈ l →
         ∃ x, data !! i = Some x ∧ clustering.cluster_index self x = Ok j).
Proof.
  intros m Hc Hk Hshape Hne Hdata.
  apply shape2_spec in Hshape as [Hrows Hcols].
  destruct (assign_clusters_loop self c (Z.to_nat (clustering.k self)) data []
              (replicate (Z.to_nat (clustering.k self)) []) Hc)
    as (cl & Hloop & Hlen & Hperm & Hmem).
  - unfold len in Hrows. lia.
  - lia.
  - exact Hcols.
  - exact Hdata.
  - apply length_replicate.
  - simpl. clear. induction (Z.to_nat (clustering.k self)); simpl; [constructor | assumption].
  - intros j l i Hj Hi. apply lookup_replicate in Hj as [-> _].
    apply elem_of_nil in Hi. contradiction.
  - exists cl. split; [|split; [unfold len; lia | split; assumption]].
    unfold clustering.assign_clusters. rewrite Hc.
    rewrite bool_decide_eq_true_2 by eauto. simpl.
    assert (forallb (λ row : vec, len row =? sampling.m (clustering.base self)) data
            = true) as ->.
    { apply forallb_forall. intros row Hrow. apply Z.eqb_eq.
      rewrite Forall_forall in Hdata. apply Hdata, list_elem_of_In, Hrow. }
    simpl. exact Hloop.
Qed.

Lemma assign_clusters_partition_witness :
  let c := [[f0; f0]; [of_Z 4; of_Z 4]] in
  let data := [[f0; f1]; [of_Z 3; of_Z 4]; [f1; f0]; [of_Z 5; of_Z 5]] in
  let self := clustering.mk (sampling.mk "clustering" 4 2 (Some data) None None true)
                2 1000 (Some c) None in
  ∃ cl : list (list nat),
    @clustering.assign_clusters demo_norm self data = Ok cl
    ∧ len cl = 2
    ∧ Permutation (concat cl) (seq 0 4)
    ∧ (∀ j l i, cl !! j = Some l → i ∈ l →
         ∃ x, data !! i = Some x ∧ @clustering.cluster_index demo_norm self x = Ok j).
Proof.
  intros c data self. apply (@assign_clusters_partition demo_norm self c data).
  - reflexivity.
  - simpl. lia.
  - reflexivity.
  - discriminate.
  - repeat constructor.
Defined.
